(** * learning-timer: the session data store ([src/utils/enhancedStorage.ts])

    A shallow embedding of [EnhancedStorageManager] and of the part of the
    JavaScript platform it runs on (strings, numbers, [Date], [JSON],
    [localStorage], [console]), followed by the properties of the store. *)

From Stdlib Require Import ZArith Lia List Ascii String Bool Sorted.
From stdpp Require Import base option list gmap strings.

Local Open Scope string_scope.
Local Open Scope list_scope.
Local Open Scope Z_scope.

(** ** Strings

    A JavaScript string is a sequence of UTF-16 code units.  The embedding
    uses Rocq strings, whose characters are the code units 0..255; code
    units above 255 are outside the model. *)

Module JSString.

Definition charCode (c : ascii) : Z := Z.of_N (N_of_ascii c).

Definition charCodeAt (s : string) : list Z :=
  map charCode (list_ascii_of_string s).

Definition length (s : string) : Z := Z.of_nat (String.length s).

(** White space of [String.prototype.trim] among the code units 0..255:
    TAB, LF, VT, FF, CR, SPACE and NBSP. *)
Definition is_space (c : ascii) : bool :=
  let n := charCode c in
  ((9 <=? n) && (n <=? 13)) || (n =? 32) || (n =? 160).

Fixpoint trimStart (s : string) : string :=
  match s with
  | EmptyString => EmptyString
  | String c s' => if is_space c then trimStart s' else s
  end.

Fixpoint trimEnd (s : string) : string :=
  match s with
  | EmptyString => EmptyString
  | String c s' =>
      match trimEnd s' with
      | EmptyString => if is_space c then EmptyString else String c EmptyString
      | t => String c t
      end
  end.

Definition trim (s : string) : string := trimEnd (trimStart s).

(** [toLowerCase] on the code units 0..255: A-Z and the capital letters
    U+00C0..U+00DE (without the multiplication sign U+00D7). *)
Definition lower (c : ascii) : ascii :=
  let n := charCode c in
  if ((65 <=? n) && (n <=? 90))
     || ((192 <=? n) && (n <=? 222) && negb (n =? 215))
  then ascii_of_N (Z.to_N (n + 32)) else c.

Fixpoint toLowerCase (s : string) : string :=
  match s with
  | EmptyString => EmptyString
  | String c s' => String (lower c) (toLowerCase s')
  end.

Fixpoint join (sep : string) (l : list string) : string :=
  match l with
  | [] => EmptyString
  | [x] => x
  | x :: l' => x +:+ sep +:+ join sep l'
  end.

Fixpoint endsWith_rev (s suf : list ascii) : bool :=
  match suf, s with
  | [], _ => true
  | _ :: _, [] => false
  | a :: suf', b :: s' => Ascii.eqb a b && endsWith_rev s' suf'
  end.

Definition endsWith (s suf : string) : bool :=
  endsWith_rev (rev (list_ascii_of_string s)) (rev (list_ascii_of_string suf)).

End JSString.

(** ** Digits *)

Module Digits.

Definition digit_char (d : Z) : ascii :=
  ascii_of_N (Z.to_N (if d <? 10 then 48 + d else 87 + d)).

(** The digits of [n] in [base], most significant first; [fuel] bounds the
    number of digits. *)
Fixpoint digits_aux (base : Z) (fuel : nat) (n : Z) (acc : string) : string :=
  match fuel with
  | O => acc
  | S fuel' =>
      let acc' := String (digit_char (n mod base)) acc in
      if n <? base then acc' else digits_aux base fuel' (n / base) acc'
  end.

(** [Number.prototype.toString(radix)] of a non-negative integer. *)
Definition of_Z_radix (base n : Z) : string :=
  digits_aux base (S (Z.to_nat (Z.log2 n))) n EmptyString.

Definition of_nonneg (n : Z) : string := of_Z_radix 10 n.

Definition of_Z (z : Z) : string :=
  if z <? 0 then String "-" (of_nonneg (- z)) else of_nonneg z.

Definition is_digit (c : ascii) : bool :=
  let n := JSString.charCode c in (48 <=? n) && (n <=? 57).

Definition digit_val (c : ascii) : Z := JSString.charCode c - 48.

(** The value of a string of decimal digits, continuing from [acc]. *)
Fixpoint to_Z_acc (s : string) (acc : Z) : Z :=
  match s with
  | EmptyString => acc
  | String c s' => to_Z_acc s' (10 * acc + digit_val c)
  end.

Definition to_Z (s : string) : Z := to_Z_acc s 0.

Fixpoint all_digits (s : string) : bool :=
  match s with
  | EmptyString => true
  | String c s' => is_digit c && all_digits s'
  end.

(** [s] padded with zeros on the left to at least [w] characters
    ([String.prototype.padStart(w, "0")]). *)
Definition pad (w : nat) (s : string) : string :=
  string_of_list_ascii (repeat "0"%char (w - String.length s)) +:+ s.

End Digits.

(** ** Numbers

    A JavaScript number is NaN, an infinity or a finite value.  Finite
    values are modelled by exact decimals [m / 10^d]; the rounding and the
    range of IEEE doubles, and the sign of zero, are not modelled. *)

Module Number.

Inductive number :=
| NaN
| Infinity (negative : bool)
| Finite (m : Z) (d : nat).

Definition of_Z (z : Z) : number := Finite z 0.

(** The representation without trailing zeros after the decimal point. *)
Fixpoint normalize (m : Z) (d : nat) : Z * nat :=
  match d with
  | O => (m, O)
  | S d' => if m mod 10 =? 0 then normalize (m / 10) d' else (m, d)
  end.

Definition canon (n : number) : number :=
  match n with
  | Finite m d => let '(m', d') := normalize m d in Finite m' d'
  | _ => n
  end.

(** [a === b] on numbers: NaN is not equal to itself. *)
Definition strict_eq (a b : number) : bool :=
  match canon a, canon b with
  | NaN, _ | _, NaN => false
  | Infinity s, Infinity t => Bool.eqb s t
  | Finite m d, Finite m' d' => (m =? m') && (d =? d')%nat
  | _, _ => false
  end.

(** [n <= 0] *)
Definition le_zero (n : number) : bool :=
  match n with
  | NaN => false
  | Infinity negative => negative
  | Finite m _ => m <=? 0
  end.

Definition is_zero (n : number) : bool :=
  match n with
  | Finite m _ => m =? 0
  | _ => false
  end.

(** [Number.prototype.toString()], with every finite value in positional
    notation (JavaScript switches to exponent notation from 1e21 and below
    1e-6). *)
Definition toString (n : number) : string :=
  match canon n with
  | NaN => "NaN"
  | Infinity negative => if negative then "-Infinity" else "Infinity"
  | Finite m O => Digits.of_Z m
  | Finite m d =>
      let p := 10 ^ Z.of_nat d in
      (if m <? 0 then "-" else EmptyString)
        +:+ Digits.of_nonneg (Z.abs m / p)
        +:+ "." +:+ Digits.pad d (Digits.of_nonneg (Z.abs m mod p))
  end.

(** The integer part, rounding towards zero ([ToIntegerOrInfinity]). *)
Definition truncate (m : Z) (d : nat) : Z := Z.quot m (10 ^ Z.of_nat d).

(** [a + b], exact on finite values. *)
Definition add (a b : number) : number :=
  match a, b with
  | NaN, _ | _, NaN => NaN
  | Infinity s, Infinity t => if Bool.eqb s t then Infinity s else NaN
  | Infinity s, Finite _ _ => Infinity s
  | Finite _ _, Infinity t => Infinity t
  | Finite m d, Finite m' d' =>
      Finite (m * 10 ^ Z.of_nat (d' - d) + m' * 10 ^ Z.of_nat (d - d')) (Nat.max d d')
  end.

(** [- a] *)
Definition opp (a : number) : number :=
  match a with
  | NaN => NaN
  | Infinity s => Infinity (negb s)
  | Finite m d => Finite (- m) d
  end.

(** [a - b] *)
Definition sub (a b : number) : number := add a (opp b).

(** [0 < n] *)
Definition is_positive (n : number) : bool :=
  match n with
  | NaN => false
  | Infinity negative => negb negative
  | Finite m _ => 0 <? m
  end.

End Number.

Export Number(number, NaN, Infinity, Finite).

(** ** The checksum of [generateChecksum] *)

(** [ToInt32]: wrap an integer to the signed 32-bit range. *)
Definition ToInt32 (z : Z) : Z := (z + 2 ^ 31) mod 2 ^ 32 - 2 ^ 31.

(** [a << n] on 32-bit integers. *)
Definition shl32 (a n : Z) : Z := ToInt32 (Z.shiftl (ToInt32 a) n).

(** [a & b] on 32-bit integers. *)
Definition and32 (a b : Z) : Z := ToInt32 (Z.land (ToInt32 a) (ToInt32 b)).

Definition generateChecksum_step (hash char : Z) : Z :=
  let hash := (shl32 hash 5 - hash) + char in
  and32 hash hash.

Definition generateChecksum (data : string) : string :=
  let hash := fold_left generateChecksum_step (JSString.charCodeAt data) 0 in
  Digits.of_Z_radix 36 (Z.abs hash).

(** ** Dates

    The time value of a [Date] is a number of milliseconds since the epoch,
    or NaN for an invalid date; it is modelled by [option Z], [None] being
    NaN. *)

Module Date.

Definition msPerDay : Z := 86400000.
Definition maxTime : Z := 8640000000000000.

(** [TimeClip] *)
Definition TimeClip (t : Z) : option Z :=
  if Z.abs t <=? maxTime then Some t else None.

(** Year, month (1..12) and day of the month of a day number, in the
    proleptic Gregorian calendar; day 0 is 1970-01-01. *)
(** Eras of 400 years start on 1 March of the years divisible by 400; an
    era has 146097 days.  The year of the era (starting in March), the month
    and the day of the month of a day of the era. *)
Definition civil_of_era_day (doe : Z) : Z * Z * Z :=
  let yoe := (doe - doe / 1460 + doe / 36524 - doe / 146096) / 365 in
  let doy := doe - (365 * yoe + yoe / 4 - yoe / 100) in
  let mp := (5 * doy + 2) / 153 in
  let d := doy - (153 * mp + 2) / 5 + 1 in
  let m := if mp <? 10 then mp + 3 else mp - 9 in
  (yoe, m, d).

Definition era_day_of_civil (yoe m d : Z) : Z :=
  let doy := (153 * (if 2 <? m then m - 3 else m + 9) + 2) / 5 + d - 1 in
  yoe * 365 + yoe / 4 - yoe / 100 + doy.

Definition civil_from_days (z : Z) : Z * Z * Z :=
  let z := z + 719468 in
  let era := z / 146097 in
  let '(yoe, m, d) := civil_of_era_day (z mod 146097) in
  let y := yoe + era * 400 in
  (if m <=? 2 then y + 1 else y, m, d).

Definition days_from_civil (y m d : Z) : Z :=
  let y := if m <=? 2 then y - 1 else y in
  (y / 400) * 146097 + era_day_of_civil (y mod 400) m d - 719468.

Definition pad2 (n : Z) : string := Digits.pad 2 (Digits.of_nonneg n).
Definition pad3 (n : Z) : string := Digits.pad 3 (Digits.of_nonneg n).

Definition year_string (y : Z) : string :=
  if (0 <=? y) && (y <=? 9999) then Digits.pad 4 (Digits.of_nonneg y)
  else String (if y <? 0 then "-"%char else "+"%char)
         (Digits.pad 6 (Digits.of_nonneg (Z.abs y))).

(** [Date.prototype.toISOString] of a valid time value. *)
Definition toISOString (t : Z) : string :=
  let '(y, m, d) := civil_from_days (t / msPerDay) in
  let ms := t mod msPerDay in
  year_string y +:+ "-" +:+ pad2 m +:+ "-" +:+ pad2 d
    +:+ "T" +:+ pad2 (ms / 3600000)
    +:+ ":" +:+ pad2 (ms / 60000 mod 60)
    +:+ ":" +:+ pad2 (ms / 1000 mod 60)
    +:+ "." +:+ pad3 (ms mod 1000) +:+ "Z".

(** Exactly [n] decimal digits at the front of [s]. *)
Fixpoint take_digits (n : nat) (s : string) (acc : Z) : option (Z * string) :=
  match n with
  | O => Some (acc, s)
  | S n' =>
      match s with
      | String c s' =>
          if Digits.is_digit c
          then take_digits n' s' (10 * acc + Digits.digit_val c)
          else None
      | EmptyString => None
      end
  end.

Definition expect (c : ascii) (s : string) : option string :=
  match s with
  | String c' s' => if Ascii.eqb c c' then Some s' else None
  | EmptyString => None
  end.

Definition parse_year (s : string) : option (Z * string) :=
  match s with
  | String c s' =>
      if Ascii.eqb c "+" then take_digits 6 s' 0
      else if Ascii.eqb c "-" then
        '(y, r) ← take_digits 6 s' 0;
        if y =? 0 then None else Some (- y, r)
      else take_digits 4 s 0
  | EmptyString => None
  end.

(** The time of day after the [T]: [HH:mm], [HH:mm:ss] or [HH:mm:ss.sss],
    followed by [Z]. *)
Definition parse_time (s : string) : option Z :=
  '(h, r) ← take_digits 2 s 0;
  r ← expect ":" r;
  '(mi, r) ← take_digits 2 r 0;
  '(sec, r) ← match r with
               | String ":" r' => take_digits 2 r' 0
               | _ => Some (0, r)
               end;
  '(ms, r) ← match r with
              | String "." r' => take_digits 3 r' 0
              | _ => Some (0, r)
              end;
  match r with
  | "Z" =>
      if (h <=? 23) && (mi <=? 59) && (sec <=? 59)
         || (h =? 24) && (mi =? 0) && (sec =? 0) && (ms =? 0)
      then Some (h * 3600000 + mi * 60000 + sec * 1000 + ms)
      else None
  | _ => None
  end.

(** [Date.parse] on the date-time string format of ECMAScript in UTC:
    [YYYY-MM-DD] or [±YYYYYY-MM-DD], alone or followed by [T], a time of day
    and [Z].  Every other string gives NaN here (JavaScript leaves the
    parsing of other formats to the implementation; local-time forms are
    not modelled). *)
Definition parse (s : string) : option Z :=
  '(y, r) ← parse_year s;
  r ← expect "-" r;
  '(m, r) ← take_digits 2 r 0;
  r ← expect "-" r;
  '(d, r) ← take_digits 2 r 0;
  tod ← match r with
        | EmptyString => Some 0
        | String "T" r' => parse_time r'
        | _ => None
        end;
  let days := days_from_civil y m d in
  if (1 <=? m) && (m <=? 12) && (1 <=? d)
     && bool_decide (civil_from_days days = (y, m, d))
  then TimeClip (days * msPerDay + tod)
  else None.

(** [new Date(y, m, d)] for the fields of local time [now]: the time value
    of local midnight of the day of [now].  [offset] is the time zone's
    distance from UTC in milliseconds (local = UTC + offset), taken as
    constant. *)
Definition local_midnight (offset now : Z) : Z :=
  (now + offset) / msPerDay * msPerDay - offset.

End Date.

(** ** Values *)

#[local] Unset Elimination Schemes.
Inductive jsval :=
| VUndefined
| VNull
| VBool (b : bool)
| VNum (n : number)
| VStr (s : string)
| VDate (t : option Z)
| VArr (items : list jsval)
| VObj (props : list (string * jsval)).
#[local] Set Elimination Schemes.

(** An object: its properties in property order, each key once. *)
Abbreviation object := (list (string * jsval)).

Module Obj.

Fixpoint get (o : object) (k : string) : jsval :=
  match o with
  | [] => VUndefined
  | (k', v) :: o' => if String.eqb k k' then v else get o' k
  end.

Fixpoint has (o : object) (k : string) : bool :=
  match o with
  | [] => false
  | (k', _) :: o' => String.eqb k k' || has o' k
  end.

Fixpoint replace (o : object) (k : string) (v : jsval) : object :=
  match o with
  | [] => []
  | (k', v') :: o' =>
      if String.eqb k k' then (k', v) :: o' else (k', v') :: replace o' k v
  end.

(** [o[k] = v]: an existing property keeps its place. *)
Definition set (o : object) (k : string) (v : jsval) : object :=
  if has o k then replace o k v else o ++ [(k, v)].

End Obj.

Inductive Error := mkError (name message : string).

Definition TypeError (message : string) : Error := mkError "TypeError" message.
Definition SyntaxError (message : string) : Error := mkError "SyntaxError" message.
Definition new_Error (message : string) : Error := mkError "Error" message.

Definition error_name (e : Error) : string := let 'mkError n _ := e in n.
Definition error_message (e : Error) : string := let 'mkError _ m := e in m.

(** The result of an evaluation: a value or a thrown exception. *)
Inductive outcome (A : Type) :=
| Return (a : A)
| Throw (e : Error).
Arguments Return {A} a.
Arguments Throw {A} e.

Definition obind {A B} (m : outcome A) (f : A -> outcome B) : outcome B :=
  match m with
  | Return a => f a
  | Throw e => Throw e
  end.

Module JS.

Definition truthy (v : jsval) : bool :=
  match v with
  | VUndefined | VNull => false
  | VBool b => b
  | VNum n => match n with
              | NaN => false
              | Finite m _ => negb (m =? 0)
              | Infinity _ => true
              end
  | VStr s => negb (String.eqb s EmptyString)
  | VDate _ | VArr _ | VObj _ => true
  end.

Definition is_string (v : jsval) : bool :=
  match v with VStr _ => true | _ => false end.
Definition is_number (v : jsval) : bool :=
  match v with VNum _ => true | _ => false end.
Definition is_boolean (v : jsval) : bool :=
  match v with VBool _ => true | _ => false end.

(** [v.k] for a property name [k] that no prototype defines: a type error
    on [undefined] and [null], the property of an object, [undefined] on
    everything else. *)
Definition prop (v : jsval) (k : string) : outcome jsval :=
  match v with
  | VUndefined | VNull =>
      Throw (TypeError ("Cannot read properties of "
                          +:+ (if v is VNull then "null" else "undefined")
                          +:+ " (reading '" +:+ k +:+ "')"))
  | VObj o => Return (Obj.get o k)
  | _ => Return VUndefined
  end.

(** The own enumerable properties copied by [{...v}]; the index properties
    of strings and arrays are left out. *)
Definition spread (v : jsval) : object :=
  match v with
  | VObj o => o
  | _ => []
  end.

(** [new Date(v).getTime()].  The time value of a date is copied through
    [TimeClip]; strings go through [Date.parse]; arrays and objects, which
    JavaScript first converts to strings, give NaN. *)
Definition new_Date (v : jsval) : option Z :=
  match v with
  | VDate t => t ≫= Date.TimeClip
  | VUndefined => None
  | VNull => Some 0
  | VBool b => Some (if b then 1 else 0)
  | VNum (Finite m d) => Date.TimeClip (Number.truncate m d)
  | VNum _ => None
  | VStr s => Date.parse s
  | VArr _ | VObj _ => None
  end.

(** [a >= b] on time values: false when either is NaN. *)
Definition time_ge (a b : option Z) : bool :=
  match a, b with
  | Some x, Some y => y <=? x
  | _, _ => false
  end.

End JS.

(** ** JSON *)

Module JSON.

Definition dquote : ascii := "034"%char.
Definition backslash : ascii := "092"%char.

Definition hex2 (n : Z) : string :=
  String (Digits.digit_char (n / 16)) (String (Digits.digit_char (n mod 16)) EmptyString).

(** One character of [QuoteJSONString]. *)
Definition escape (c : ascii) : string :=
  let n := JSString.charCode c in
  if n =? 34 then String backslash (String dquote EmptyString)
  else if n =? 92 then String backslash (String backslash EmptyString)
  else if n =? 8 then String backslash "b"
  else if n =? 9 then String backslash "t"
  else if n =? 10 then String backslash "n"
  else if n =? 12 then String backslash "f"
  else if n =? 13 then String backslash "r"
  else if n <? 32 then String backslash ("u00" +:+ hex2 n)
  else String c EmptyString.

Fixpoint escape_all (s : string) : string :=
  match s with
  | EmptyString => EmptyString
  | String c s' => escape c +:+ escape_all s'
  end.

Definition quote (s : string) : string :=
  String dquote (escape_all s +:+ String dquote EmptyString).

Definition number_text (n : number) : string :=
  match n with
  | Finite _ _ => Number.toString n
  | _ => "null"
  end.

Definition date_text (t : option Z) : string :=
  match t with
  | Some t => quote (Date.toISOString t)
  | None => "null"
  end.

(** [texts] separated by commas. *)
Fixpoint commas (texts : list string) : string :=
  match texts with
  | [] => EmptyString
  | [x] => x
  | x :: l => x +:+ "," +:+ commas l
  end.

(** [JSON.stringify(v)]; [None] is the result [undefined].  An array
    element without a JSON text is written [null]; an object member
    without one is left out.  A [Date] is written through its [toJSON]. *)
Fixpoint stringify (v : jsval) : option string :=
  match v with
  | VUndefined => None
  | VNull => Some "null"
  | VBool b => Some (if b then "true" else "false")
  | VNum n => Some (number_text n)
  | VStr s => Some (quote s)
  | VDate t => Some (date_text t)
  | VArr items =>
      let texts :=
        (fix elements (l : list jsval) : list string :=
           match l with
           | [] => []
           | x :: l' => default "null" (stringify x) :: elements l'
           end) items in
      Some ("[" +:+ commas texts +:+ "]")
  | VObj props =>
      let texts :=
        (fix members (l : object) : list string :=
           match l with
           | [] => []
           | (k, x) :: l' =>
               match stringify x with
               | Some t => (quote k +:+ ":" +:+ t) :: members l'
               | None => members l'
               end
           end) props in
      Some ("{" +:+ commas texts +:+ "}")
  end.

(** [JSON.stringify] of an array and of an object, which always have a
    text. *)
Definition stringify_array (items : list jsval) : string :=
  default EmptyString (stringify (VArr items)).
Definition stringify_object (o : object) : string :=
  default EmptyString (stringify (VObj o)).

(** *** Parsing *)

Definition is_ws (c : ascii) : bool :=
  let n := JSString.charCode c in
  (n =? 32) || (n =? 9) || (n =? 10) || (n =? 13).

Fixpoint skip_ws (s : string) : string :=
  match s with
  | String c s' => if is_ws c then skip_ws s' else s
  | EmptyString => EmptyString
  end.

Fixpoint span_digits (s : string) : string * string :=
  match s with
  | String c s' =>
      if Digits.is_digit c
      then let '(ds, r) := span_digits s' in (String c ds, r)
      else (EmptyString, s)
  | EmptyString => (EmptyString, EmptyString)
  end.

Definition nonempty (s : string) : bool :=
  match s with EmptyString => false | _ => true end.

(** The integer part of a number: [0], or digits that start with 1..9. *)
Definition int_ok (ds : string) : bool :=
  match ds with
  | EmptyString => false
  | String "0" EmptyString => true
  | String "0" _ => false
  | _ => true
  end.

Definition starts (c : ascii) (s : string) : bool :=
  match s with
  | String c' _ => Ascii.eqb c' c
  | EmptyString => false
  end.

Definition tail (s : string) : string :=
  match s with
  | String _ r => r
  | EmptyString => EmptyString
  end.

Definition parse_fraction (s : string) : option (string * string) :=
  if starts "." s then
    let '(fs, r') := span_digits (tail s) in
    if nonempty fs then Some (fs, r') else None
  else Some (EmptyString, s).

Definition parse_exponent (s : string) : option (Z * string) :=
  let exponent (r : string) :=
    let '(negative, r) :=
      if starts "-" r then (true, tail r)
      else if starts "+" r then (false, tail r)
      else (false, r) in
    let '(es, r') := span_digits r in
    if nonempty es
    then Some (if negative : bool then - Digits.to_Z es else Digits.to_Z es, r')
    else None in
  if starts "e" s || starts "E" s then exponent (tail s) else Some (0, s).

(** The number [m * 10^x / 10^d]. *)
Definition scale (m : Z) (d : nat) (x : Z) : number :=
  let k := Z.of_nat d - x in
  Number.canon (if k <=? 0 then Finite (m * 10 ^ (- k)) 0 else Finite m (Z.to_nat k)).

Definition parse_number (s : string) : option (number * string) :=
  let '(negative, s) := if starts "-" s then (true, tail s) else (false, s) in
  let '(ds, r) := span_digits s in
  if int_ok ds then
    '(fs, r) ← parse_fraction r;
    '(x, r) ← parse_exponent r;
    let m := Digits.to_Z (ds +:+ fs) in
    Some (scale (if negative : bool then - m else m) (String.length fs) x, r)
  else None.

Definition hex_val (c : ascii) : option Z :=
  let n := JSString.charCode c in
  if (48 <=? n) && (n <=? 57) then Some (n - 48)
  else if (97 <=? n) && (n <=? 102) then Some (n - 87)
  else if (65 <=? n) && (n <=? 70) then Some (n - 55)
  else None.

Definition unescape (c : ascii) : option ascii :=
  let n := JSString.charCode c in
  if n =? 34 then Some dquote
  else if n =? 92 then Some backslash
  else if n =? 47 then Some "/"%char
  else if n =? 98 then Some "008"%char
  else if n =? 116 then Some "009"%char
  else if n =? 110 then Some "010"%char
  else if n =? 102 then Some "012"%char
  else if n =? 114 then Some "013"%char
  else None.

(** The code unit of [\uXXXX]; code units above 255 are outside the
    model. *)
Definition unicode_escape (a b c d : ascii) : option ascii :=
  a ← hex_val a; b ← hex_val b; c ← hex_val c; d ← hex_val d;
  if (a =? 0) && (b =? 0) then Some (ascii_of_N (Z.to_N (16 * c + d))) else None.

(** The characters of a string up to its closing quote. *)
Fixpoint parse_string (s : string) : option (string * string) :=
  match s with
  | EmptyString => None
  | String c r =>
      if Ascii.eqb c dquote then Some (EmptyString, r)
      else if Ascii.eqb c backslash then
        match r with
        | String "u" (String h1 (String h2 (String h3 (String h4 r')))) =>
            c' ← unicode_escape h1 h2 h3 h4;
            '(t, rest) ← parse_string r';
            Some (String c' t, rest)
        | String e r' =>
            c' ← unescape e;
            '(t, rest) ← parse_string r';
            Some (String c' t, rest)
        | EmptyString => None
        end
      else if JSString.charCode c <? 32 then None
      else '(t, rest) ← parse_string r; Some (String c t, rest)
  end.

Fixpoint expect (word s : string) : option string :=
  match word, s with
  | EmptyString, _ => Some s
  | String a word', String b s' => if Ascii.eqb a b then expect word' s' else None
  | String _ _, EmptyString => None
  end.

(** The members of a parsed object in order of appearance: a repeated key
    keeps its first place and takes the last value. *)
Definition object_of (members : object) : object :=
  fold_left (fun o '(k, v) => Obj.set o k v) members [].

Fixpoint parse_value (fuel : nat) (s : string) : option (jsval * string) :=
  match fuel with
  | O => None
  | S fuel =>
      match skip_ws s with
      | EmptyString => None
      | String c r =>
          if Ascii.eqb c "n" then r ← expect "ull" r; Some (VNull, r)
          else if Ascii.eqb c "t" then r ← expect "rue" r; Some (VBool true, r)
          else if Ascii.eqb c "f" then r ← expect "alse" r; Some (VBool false, r)
          else if Ascii.eqb c dquote then
            '(t, r) ← parse_string r; Some (VStr t, r)
          else if Ascii.eqb c "[" then
            if starts "]" (skip_ws r) then Some (VArr [], tail (skip_ws r))
            else '(l, r) ← parse_elements fuel r; Some (VArr l, r)
          else if Ascii.eqb c "{" then
            if starts "}" (skip_ws r) then Some (VObj [], tail (skip_ws r))
            else '(l, r) ← parse_members fuel r; Some (VObj (object_of l), r)
          else '(n, r) ← parse_number (String c r); Some (VNum n, r)
      end
  end
with parse_elements (fuel : nat) (s : string) : option (list jsval * string) :=
  match fuel with
  | O => None
  | S fuel =>
      '(v, r) ← parse_value fuel s;
      let r := skip_ws r in
      if starts "," r then '(l, r) ← parse_elements fuel (tail r); Some (v :: l, r)
      else if starts "]" r then Some ([v], tail r)
      else None
  end
with parse_members (fuel : nat) (s : string) : option (object * string) :=
  match fuel with
  | O => None
  | S fuel =>
      match skip_ws s with
      | String c r =>
          if Ascii.eqb c dquote then
            '(k, r) ← parse_string r;
            r ← expect ":" (skip_ws r);
            '(v, r) ← parse_value fuel r;
            let r := skip_ws r in
            if starts "," r
            then '(l, r) ← parse_members fuel (tail r); Some ((k, v) :: l, r)
            else if starts "}" r then Some ([(k, v)], tail r)
            else None
          else None
      | EmptyString => None
      end
  end.

(** [JSON.parse(text)]; a syntax error is thrown on a malformed text. *)
Definition parse (text : string) : outcome jsval :=
  match parse_value (2 * String.length text + 2) text with
  | Some (v, r) =>
      match skip_ws r with
      | EmptyString => Return v
      | _ => Throw (SyntaxError "Unexpected non-whitespace character after JSON")
      end
  | None => Throw (SyntaxError "Unexpected token in JSON")
  end.

End JSON.

#[export] Instance outcome_ret : MRet outcome := @Return.
#[export] Instance outcome_bind : MBind outcome := fun A B f m => obind m f.

(** ** The environment: [localStorage], the clock, the console

    [localStorage] is a finite map from keys to strings with an optional
    capacity, counted in code units of keys and values; a [setItem] that
    would exceed it throws [QuotaExceededError].  The [journal] records the
    mutations of the storage in the order they happen, and the [console]
    the messages written; neither influences the program. *)

Inductive StorageOp :=
| SetItem (key value : string)
| RemoveItem (key : string).

Inductive LogLevel := Warn | Err.

Record World := mkWorld {
  storage : gmap string string;
  quota : option Z;
  clock : Z;                      (* the time value of [new Date()] *)
  utc_offset : Z;                 (* local time - UTC, in milliseconds *)
  random_suffix : nat -> string;  (* the values of
                                     [Math.random().toString(36).substr(2, 9)] *)
  draws : nat;                    (* how many of them were used *)
  console : list (LogLevel * string);
  journal : list StorageOp
}.

Definition with_storage (w : World) (s : gmap string string) (op : StorageOp) : World :=
  mkWorld s (quota w) (clock w) (utc_offset w) (random_suffix w) (draws w)
          (console w) (journal w ++ [op]).

Definition with_console (w : World) (entry : LogLevel * string) : World :=
  mkWorld (storage w) (quota w) (clock w) (utc_offset w) (random_suffix w) (draws w)
          (console w ++ [entry]) (journal w).

Definition with_draw (w : World) : World :=
  mkWorld (storage w) (quota w) (clock w) (utc_offset w) (random_suffix w) (S (draws w))
          (console w) (journal w).

(** A computation of the program: it reads and changes the world and
    returns or throws. *)
Definition M (A : Type) : Type := World -> outcome A * World.

Definition ret {A} (a : A) : M A := fun w => (Return a, w).
Definition throw {A} (e : Error) : M A := fun w => (Throw e, w).
Definition lift {A} (o : outcome A) : M A := fun w => (o, w).

Definition bind {A B} (m : M A) (f : A -> M B) : M B :=
  fun w =>
    match m w with
    | (Return a, w') => f a w'
    | (Throw e, w') => (Throw e, w')
    end.

(** [try { m } catch (e) { handler e }] *)
Definition try_catch {A} (m : M A) (handler : Error -> M A) : M A :=
  fun w =>
    match m w with
    | (Return a, w') => (Return a, w')
    | (Throw e, w') => handler e w'
    end.

#[export] Instance M_ret : MRet M := @ret.
#[export] Instance M_bind : MBind M := fun A B f m => bind m f.

Module localStorage.

Definition used (s : gmap string string) : Z :=
  map_fold (fun k v acc => JSString.length k + JSString.length v + acc) 0 s.

Definition fits (q : option Z) (s : gmap string string) : bool :=
  match q with
  | None => true
  | Some limit => used s <=? limit
  end.

Definition QuotaExceededError : Error :=
  mkError "QuotaExceededError" "The quota has been exceeded.".

Definition getItem (key : string) : M (option string) :=
  fun w => (Return (storage w !! key), w).

Definition setItem (key value : string) : M unit :=
  fun w =>
    let s := <[key := value]> (storage w) in
    if fits (quota w) s
    then (Return tt, with_storage w s (SetItem key value))
    else (Throw QuotaExceededError, w).

Definition removeItem (key : string) : M unit :=
  fun w => (Return tt, with_storage w (delete key (storage w)) (RemoveItem key)).

End localStorage.

Definition console_warn (message : string) : M unit :=
  fun w => (Return tt, with_console w (Warn, message)).
Definition console_error (message : string) : M unit :=
  fun w => (Return tt, with_console w (Err, message)).

(** [new Date()] *)
Definition Date_now : M Z := fun w => (Return (clock w), w).

(** The offset of local time that [new Date(year, month, day)] applies. *)
Definition Date_offset : M Z := fun w => (Return (utc_offset w), w).

Definition Math_random_suffix : M string :=
  fun w => (Return (random_suffix w (draws w)), with_draw w).

(** ** The data model ([src/types]) *)

Inductive Severity := error | warning.

Definition Severity_eqb (a b : Severity) : bool :=
  match a, b with
  | error, error | warning, warning => true
  | _, _ => false
  end.

Record ValidationError := mkValidationError {
  type : Severity;
  message : string;
  row : option Z;
  column : option string;
  value : jsval                 (* [VUndefined] when the issue has none *)
}.

Record DuplicateInfo := mkDuplicateInfo {
  existingSession : object;
  importedSession : object;
  matchReason : string
}.

Record ImportPreview := mkImportPreview {
  totalRows : Z;
  validRows : Z;
  errors : list ValidationError;
  sampleData : list object;
  duplicates : list DuplicateInfo;
  generatedIds : Z
}.

Record SessionStats := mkSessionStats {
  daily : Z;
  weekly : Z;
  monthly : Z
}.

(** A value of the type [Session]. *)
Record Session := mkSession {
  id : string;
  subject : string;
  duration : number;
  startTime : option Z;
  endTime : option (option Z);  (* [None]: no [endTime] *)
  completed : bool
}.

(** The object of a [Session], with the properties in the order of the
    interface. *)
Definition Session_object (s : Session) : object :=
  [("id", VStr (id s)); ("subject", VStr (subject s)); ("duration", VNum (duration s));
   ("startTime", VDate (startTime s))]
  ++ match endTime s with Some t => [("endTime", VDate t)] | None => [] end
  ++ [("completed", VBool (completed s))].

(** ** [EnhancedStorageManager] *)

Definition STORAGE_KEY : string := "learning-timer-enhanced-data".
Definition LEGACY_SESSIONS_KEY : string := "learning-timer-sessions".
Definition CURRENT_VERSION : string := "1.0.0".
Definition MAX_FILE_SIZE : Z := 1024 * 1024.

Definition isStorageAvailable : M bool :=
  try_catch
    (let test := "__storage_test__" in
     localStorage.setItem test test;;
     localStorage.removeItem test;;
     ret true)
    (fun _ => ret false).

(** [`session_${Date.now()}_${Math.random().toString(36).substr(2, 9)}`] *)
Definition generateId : M string :=
  now ← Date_now;
  suffix ← Math_random_suffix;
  ret ("session_" +:+ Digits.of_Z now +:+ "_" +:+ suffix).

(** [s.toLowerCase().trim()] for a property value [s]. *)
Definition toLowerCase_trim (owner : string) (s : jsval) : outcome string :=
  match s with
  | VStr s => Return (JSString.trim (JSString.toLowerCase s))
  | VUndefined | VNull =>
      Throw (TypeError ("Cannot read properties of undefined (reading 'toLowerCase')"))
  | _ => Throw (TypeError (owner +:+ ".subject.toLowerCase is not a function"))
  end.

(** [d.getTime()] for a property value [d]. *)
Definition getTime (owner : string) (d : jsval) : outcome (option Z) :=
  match d with
  | VDate t => Return t
  | VUndefined | VNull =>
      Throw (TypeError ("Cannot read properties of undefined (reading 'getTime')"))
  | _ => Throw (TypeError (owner +:+ ".startTime.getTime is not a function"))
  end.

(** [Math.abs(a - b) < 60000] on time values. *)
Definition within_minute (a b : option Z) : bool :=
  match a, b with
  | Some a, Some b => Z.abs (a - b) <? 60000
  | _, _ => false
  end.

(** The predicate of the [find] in [findDuplicates]. *)
Definition is_duplicate_of (newSession existing : object) : outcome bool :=
  a ← toLowerCase_trim "existing" (Obj.get existing "subject");
  b ← toLowerCase_trim "newSession" (Obj.get newSession "subject");
  if String.eqb a b then
    s ← getTime "existing" (Obj.get existing "startTime");
    t ← getTime "newSession" (Obj.get newSession "startTime");
    Return (within_minute s t)
  else Return false.

(** [l.find(p)] for a predicate that may throw. *)
Fixpoint find_first {A} (p : A -> outcome bool) (l : list A) : outcome (option A) :=
  match l with
  | [] => Return None
  | x :: l' => b ← p x; if b : bool then Return (Some x) else find_first p l'
  end.

Fixpoint findDuplicates (newSessions existingSessions : list object)
  : outcome (list DuplicateInfo) :=
  match newSessions with
  | [] => Return []
  | newSession :: rest =>
      duplicate ← find_first (is_duplicate_of newSession) existingSessions;
      duplicates ← findDuplicates rest existingSessions;
      Return (match duplicate with
              | Some duplicate =>
                  mkDuplicateInfo duplicate newSession
                    "Same subject and start time (within 1 minute)" :: duplicates
              | None => duplicates
              end)
  end.

Definition validateSession (session : object) (rowIndex : option Z)
    (allowMissingId : bool) : list ValidationError :=
  let prefix :=
    match rowIndex with
    | Some i => "Row " +:+ Digits.of_Z i +:+ ": "
    | None => EmptyString
    end in
  let issue ty text col v := mkValidationError ty (prefix +:+ text) rowIndex (Some col) v in
  let id := Obj.get session "id" in
  let subject := Obj.get session "subject" in
  let duration := Obj.get session "duration" in
  let completed := Obj.get session "completed" in
  (if negb allowMissingId && (negb (JS.truthy id) || negb (JS.is_string id))
   then [issue error "Missing or invalid session ID" "id" id]
   else if JS.truthy id && negb (JS.is_string id)
   then [issue error "Invalid session ID format" "id" id]
   else [])
  ++ (if negb (JS.truthy subject)
         || match subject with
            | VStr s => JSString.length (JSString.trim s) =? 0
            | _ => true
            end
      then [issue error "Missing or empty subject" "subject" subject]
      else [])
  ++ (if match duration with
         | VNum n => Number.le_zero n
         | _ => true
         end
      then [issue error "Duration must be a positive number" "duration" duration]
      else [])
  ++ (let startTime := JS.new_Date (Obj.get session "startTime") in
      (if startTime is None
       then [issue error "Invalid start time format" "startTime" (Obj.get session "startTime")]
       else [])
      ++ (if JS.truthy (Obj.get session "endTime") then
            let endTime := JS.new_Date (Obj.get session "endTime") in
            if endTime is None
            then [issue error "Invalid end time format" "endTime" (Obj.get session "endTime")]
            else if JS.time_ge startTime endTime
            then [issue warning "End time should be after start time" "endTime" VUndefined]
            else []
          else []))
  ++ (if negb (JS.is_boolean completed)
      then [issue error "Completed field must be true or false" "completed" completed]
      else []).

(** [errors.filter(e => e.type === 'error')] *)
Definition blocking (issues : list ValidationError) : list ValidationError :=
  List.filter (fun e => Severity_eqb (type e) error) issues.

(** [l.map(f)] on a value [l]: only an array has [map]. *)
Fixpoint map_throwing {A B} (f : A -> outcome B) (l : list A) : outcome (list B) :=
  match l with
  | [] => Return []
  | x :: l' => y ← f x; ys ← map_throwing f l'; Return (y :: ys)
  end.

Definition array_map {B} (what : string) (f : jsval -> outcome B) (l : jsval)
  : outcome (list B) :=
  match l with
  | VArr items => map_throwing f items
  | VUndefined | VNull =>
      Throw (TypeError "Cannot read properties of null (reading 'map')")
  | _ => Throw (TypeError (what +:+ ".map is not a function"))
  end.

(** [{...session, startTime: new Date(session.startTime),
      endTime: session.endTime ? new Date(session.endTime) : undefined}] *)
Definition revive (session : jsval) : outcome object :=
  let o := JS.spread session in
  startTime ← JS.prop session "startTime";
  endTime ← JS.prop session "endTime";
  Return (Obj.set (Obj.set o "startTime" (VDate (JS.new_Date startTime)))
            "endTime"
            (if JS.truthy endTime then VDate (JS.new_Date endTime) else VUndefined)).

(** The sessions of [l] from [index] on that have no blocking issue, and
    the issues of all of them. *)
Fixpoint validate_from (index : Z) (l : list object) : list object * list ValidationError :=
  match l with
  | [] => ([], [])
  | session :: l' =>
      let errors := validateSession session (Some (index + 1)) false in
      let '(valid, allErrors) := validate_from (index + 1) l' in
      (if (Z.of_nat (List.length (blocking errors)) =? 0) then session :: valid else valid,
       errors ++ allErrors)
  end.

Definition migrateLegacyData : M (list object) :=
  try_catch
    (legacyData ← localStorage.getItem LEGACY_SESSIONS_KEY;
     match legacyData with
     | None | Some EmptyString => ret []
     | Some legacyData =>
         sessions ← lift (JSON.parse legacyData);
         migratedSessions ← lift (array_map "sessions" revive sessions);
         let '(validSessions, allErrors) := validate_from 0 migratedSessions in
         (if 0 <? Z.of_nat (List.length allErrors)
          then console_warn "Legacy data migration warnings:"
          else ret tt);;
         localStorage.removeItem LEGACY_SESSIONS_KEY;;
         ret validSessions
     end)
    (fun error => console_error "Failed to migrate legacy data:";; ret []).

(** The blocking issues of all sessions, as [saveSessions] collects them. *)
Fixpoint blocking_from (index : Z) (l : list object) : list ValidationError :=
  match l with
  | [] => []
  | session :: l' =>
      blocking (validateSession session (Some (index + 1)) false)
        ++ blocking_from (index + 1) l'
  end.

Definition metadata_object (lastModified : Z) (sessions : list object) : object :=
  let sessionString := JSON.stringify_array (map VObj sessions) in
  [("version", VStr CURRENT_VERSION);
   ("lastModified", VDate (Some lastModified));
   ("sessionCount", VNum (Number.of_Z (Z.of_nat (List.length sessions))));
   ("dataChecksum", VStr (generateChecksum sessionString))].

Definition storageData_object (lastModified : Z) (sessions : list object) : object :=
  [("metadata", VObj (metadata_object lastModified sessions));
   ("sessions", VArr (map VObj sessions))].

Definition saveSessions (sessions : list object) : M unit :=
  available ← isStorageAvailable;
  if negb available then throw (new_Error "localStorage not available")
  else
    try_catch
      (let allErrors := blocking_from 0 sessions in
       if 0 <? Z.of_nat (List.length allErrors)
       then throw (new_Error ("Cannot save invalid sessions: "
                                +:+ JSString.join ", " (map message allErrors)))
       else
         now ← Date_now;
         let storageData := storageData_object now sessions in
         let dataSize := JSString.length (JSON.stringify_object storageData) in
         (if 5 * 1024 * 1024 <? dataSize
          then console_warn "Storage data is getting large, consider data cleanup"
          else ret tt);;
         localStorage.setItem STORAGE_KEY (JSON.stringify_object storageData))
      (fun error =>
         if String.eqb (error_name error) "QuotaExceededError"
         then throw (new_Error "Storage quota exceeded. Please export and clear old data.")
         else throw error).

(** The sessions of [l] from [index] on that have no blocking issue, with
    a console warning for each of the others. *)
Fixpoint filter_valid_from (index : Z) (l : list object) : M (list object) :=
  match l with
  | [] => ret []
  | session :: l' =>
      let errors := validateSession session (Some (index + 1)) false in
      keep ← (if 0 <? Z.of_nat (List.length (blocking errors))
              then console_warn ("Invalid session at index " +:+ Digits.of_Z index +:+ ":");;
                   ret false
              else ret true);
      rest ← filter_valid_from (index + 1) l';
      ret (if keep : bool then session :: rest else rest)
  end.

(** [a !== b] for a value [a] and a string [b]. *)
Definition strict_ne_string (a : jsval) (b : string) : bool :=
  match a with
  | VStr a => negb (String.eqb a b)
  | _ => true
  end.

Definition loadSessions : M (list object) :=
  available ← isStorageAvailable;
  if negb available
  then console_warn "localStorage not available, returning empty array";; ret []
  else
    try_catch
      (stored ← localStorage.getItem STORAGE_KEY;
       match stored with
       | None | Some EmptyString =>
           migratedSessions ← migrateLegacyData;
           if 0 <? Z.of_nat (List.length migratedSessions)
           then saveSessions migratedSessions;; ret migratedSessions
           else ret []
       | Some stored =>
           data ← lift (JSON.parse stored);
           metadata ← lift (JS.prop data "metadata");
           if negb (JS.truthy metadata) then throw (new_Error "Invalid storage format")
           else
             data_sessions ← lift (JS.prop data "sessions");
             if negb (JS.truthy data_sessions) then throw (new_Error "Invalid storage format")
             else
               sessions ← lift (array_map "data.sessions" revive data_sessions);
               let sessionString := default "undefined" (JSON.stringify data_sessions) in
               let expectedChecksum := generateChecksum sessionString in
               dataChecksum ← lift (JS.prop metadata "dataChecksum");
               (if JS.truthy dataChecksum && strict_ne_string dataChecksum expectedChecksum
                then console_warn "Data integrity check failed, data may be corrupted"
                else ret tt);;
               filter_valid_from 0 sessions
       end)
      (fun error => console_error "Failed to load sessions:";; migrateLegacyData).

Definition addSession (session : object) : M unit :=
  let errors := validateSession session None false in
  if 0 <? Z.of_nat (List.length (blocking errors))
  then throw (new_Error ("Invalid session: " +:+ JSString.join ", " (map message errors)))
  else
    sessions ← loadSessions;
    saveSessions (sessions ++ [session]).

(** The time value of a [Date] in a relational comparison.  The values
    compared in [getSessionStats] are the [startTime] of loaded sessions,
    which are dates. *)
Definition date_value (v : jsval) : option Z :=
  match v with
  | VDate t => t
  | _ => None
  end.

Definition getSessionStats : M SessionStats :=
  loaded ← loadSessions;
  let sessions := List.filter (fun s => JS.truthy (Obj.get s "completed")) loaded in
  now ← Date_now;
  offset ← Date_offset;
  let today := Date.TimeClip (Date.local_midnight offset now) in
  let weekAgo := t ← today; Date.TimeClip (t - 7 * 24 * 60 * 60 * 1000) in
  let monthAgo := t ← today; Date.TimeClip (t - 30 * 24 * 60 * 60 * 1000) in
  let since (bound : option Z) :=
    Z.of_nat (List.length
      (List.filter (fun s => JS.time_ge (date_value (Obj.get s "startTime")) bound)
         sessions)) in
  ret (mkSessionStats (since today) (since weekAgo) (since monthAgo)).

(** *** CSV import *)

Module File.
Record t := mk {
  name : string;
  type : string;
  size : Z;
  text : option string          (* [None]: the file cannot be read *)
}.
End File.

(** The result of [Papa.parse] with [header: true]: the rows as maps from
    column names to field texts, and the names of the header row. *)
Record PapaResults := mkPapaResults {
  data : list (gmap string string);
  fields : option (list string)
}.

Definition starts_with (word s : string) : bool :=
  match JSON.expect word s with Some _ => true | None => false end.

(** [parseFloat(s)]: the longest decimal literal at the front of [s],
    after white space. *)
Definition parseFloat (s : string) : number :=
  let s := JSString.trimStart s in
  let '(negative, s) :=
    if JSON.starts "-" s then (true, JSON.tail s)
    else if JSON.starts "+" s then (false, JSON.tail s)
    else (false, s) in
  if starts_with "Infinity" s then Infinity negative
  else
    let '(ds, r) := JSON.span_digits s in
    let '(fs, r) :=
      if JSON.starts "." r then JSON.span_digits (JSON.tail r) else (EmptyString, r) in
    if JSON.nonempty ds || JSON.nonempty fs then
      let x := match JSON.parse_exponent r with Some (x, _) => x | None => 0 end in
      let m := Digits.to_Z (ds +:+ fs) in
      JSON.scale (if negative : bool then - m else m) (String.length fs) x
    else NaN.

Record ImportState := mkImportState {
  st_errors : list ValidationError;
  st_validSessions : list object;
  st_generatedIds : Z;
  st_usedIds : gset string
}.

(** [`${error}`] *)
Definition Error_toString (e : Error) : string :=
  error_name e +:+ ": " +:+ error_message e.

Section validateCSVFile.

Variable Papa_parse : string -> PapaResults.

(** The body of the loop over [results.data]; [index] is the 0-based
    position of [row].  The source wraps this body in a [try]/[catch] that
    turns an exception into a row error; every operation of the body is
    total on string-valued rows, so the handler has nothing to catch and is
    not represented. *)
Definition validate_row (index : Z) (row : gmap string string) (st : ImportState)
  : M ImportState :=
  let rowNumber := index + 2 in
  let trimmed := JSString.trim <$> row !! "id" in
  '(sessionId, generatedIds) ←
    match trimmed with
    | None | Some EmptyString =>
        fresh ← generateId; ret (fresh, st_generatedIds st + 1)
    | Some sessionId => ret (sessionId, st_generatedIds st)
    end;
  '(sessionId, generatedIds, errors) ←
    (if bool_decide (sessionId ∈ st_usedIds st) then
       fresh ← generateId;
       ret (fresh, generatedIds + 1,
            st_errors st ++
              [mkValidationError warning
                 ("Row " +:+ Digits.of_Z rowNumber
                    +:+ ": Duplicate ID found, auto-generated new ID")
                 (Some rowNumber) (Some "id") VUndefined])
     else ret (sessionId, generatedIds, st_errors st));
  let usedIds := {[ sessionId ]} ∪ st_usedIds st in
  let session : object :=
    [("id", VStr sessionId);
     ("subject", VStr (default EmptyString (JSString.trim <$> row !! "subject")));
     ("duration",
      VNum (let n := match row !! "duration" with
                     | Some s => parseFloat s
                     | None => NaN
                     end in
            if JS.truthy (VNum n) then n else Number.of_Z 0));
     ("startTime",
      VDate (match row !! "startTime" with
             | Some s => Date.parse s
             | None => None
             end));
     ("endTime",
      match row !! "endTime" with
      | None | Some EmptyString => VUndefined
      | Some s => VDate (Date.parse s)
      end);
     ("completed", VBool (bool_decide (row !! "completed" = Some "true")))] in
  let validationErrors := validateSession session (Some rowNumber) true in
  ret (mkImportState
         (errors ++ validationErrors)
         (if Z.of_nat (List.length (blocking validationErrors)) =? 0
          then st_validSessions st ++ [session]
          else st_validSessions st)
         generatedIds usedIds).

Fixpoint validate_rows (index : Z) (rows : list (gmap string string)) (st : ImportState)
  : M ImportState :=
  match rows with
  | [] => ret st
  | row :: rows' =>
      st' ← validate_row index row st;
      validate_rows (index + 1) rows' st'
  end.

Definition requiredColumns : list string :=
  ["subject"; "duration"; "startTime"; "completed"].

Definition includes (l : list string) (x : string) : bool :=
  existsb (String.eqb x) l.

(** The [complete] callback of [Papa.parse]. *)
Definition complete (results : PapaResults) : M ImportPreview :=
  let headers := default [] (fields results) in
  let errors :=
    map (fun col =>
           mkValidationError error ("Missing required column: " +:+ col)
             None (Some col) VUndefined)
        (List.filter (fun col => negb (includes headers col)) requiredColumns) in
  let st := mkImportState errors [] 0 ∅ in
  st ← (if Z.of_nat (List.length errors) =? 0
        then validate_rows 0 (data results) st
        else ret st);
  existingSessions ← loadSessions;
  duplicates ← lift (findDuplicates (st_validSessions st) existingSessions);
  ret (mkImportPreview
         (Z.of_nat (List.length (data results)))
         (Z.of_nat (List.length (st_validSessions st)))
         (st_errors st)
         (st_validSessions st)
         duplicates
         (st_generatedIds st)).

(** [validateCSVFile(file)]: the promise resolves with the returned preview
    and is rejected with the thrown error. *)
Definition validateCSVFile (file : File.t) : M ImportPreview :=
  if MAX_FILE_SIZE <? File.size file
  then throw (new_Error ("File size ("
                +:+ Digits.of_Z ((File.size file + 512) / 1024)
                +:+ "KB) exceeds maximum allowed size ("
                +:+ Digits.of_Z (MAX_FILE_SIZE / 1024) +:+ "KB)"))
  else if negb (JSString.endsWith (JSString.toLowerCase (File.name file)) ".csv")
          && negb (String.eqb (File.type file) "text/csv")
  then throw (new_Error "File must be a CSV file (.csv extension)")
  else
    match File.text file with
    | None => throw (new_Error "Failed to read file")
    | Some csvContent =>
        try_catch (complete (Papa_parse csvContent))
          (fun error => throw (new_Error ("Failed to read file: " +:+ Error_toString error)))
    end.

End validateCSVFile.

(** *** Import, clearing and metadata *)

(** [SameValueZero], the equality of [Set] and [Map] keys: NaN is the same
    value as NaN.  Dates, arrays and objects are compared by their contents
    here; JavaScript compares their identities.  The keys compared in this
    program are strings. *)
Fixpoint same_value_zero (a b : jsval) : bool :=
  match a, b with
  | VUndefined, VUndefined | VNull, VNull => true
  | VBool x, VBool y => Bool.eqb x y
  | VNum NaN, VNum NaN => true
  | VNum x, VNum y => Number.strict_eq x y
  | VStr x, VStr y => String.eqb x y
  | VDate x, VDate y => bool_decide (x = y)
  | VArr x, VArr y =>
      (fix all2 (l : list jsval) (r : list jsval) : bool :=
         match l, r with
         | [], [] => true
         | u :: l', v :: r' => same_value_zero u v && all2 l' r'
         | _, _ => false
         end) x y
  | VObj x, VObj y =>
      (fix all2 (l : object) (r : object) : bool :=
         match l, r with
         | [], [] => true
         | (j, u) :: l', (k, v) :: r' => String.eqb j k && same_value_zero u v && all2 l' r'
         | _, _ => false
         end) x y
  | _, _ => false
  end.

(** [new Set(values).has(v)] *)
Definition Set_has (values : list jsval) (v : jsval) : bool :=
  existsb (same_value_zero v) values.

(** [l.map(f)] for a callback with effects, in the order of [l]. *)
Fixpoint map_M {A B} (f : A -> M B) (l : list A) : M (list B) :=
  match l with
  | [] => ret []
  | x :: l' => y ← f x; ys ← map_M f l'; ret (y :: ys)
  end.

Definition importSessions (sessions : list object) (replaceExisting skipDuplicates : bool)
  : M unit :=
  if replaceExisting then saveSessions sessions
  else
    existingSessions ← loadSessions;
    newSessions ←
      (if skipDuplicates then
         duplicates ← lift (findDuplicates sessions existingSessions);
         let duplicateIds := map (fun d => Obj.get (importedSession d) "id") duplicates in
         ret (List.filter (fun s => negb (Set_has duplicateIds (Obj.get s "id"))) sessions)
       else
         let existingIds := map (fun s => Obj.get s "id") existingSessions in
         map_M (fun session =>
                  if Set_has existingIds (Obj.get session "id")
                  then fresh ← generateId; ret (Obj.set session "id" (VStr fresh))
                  else ret session)
               sessions);
    saveSessions (existingSessions ++ newSessions).

Definition clearAllData : M unit :=
  available ← isStorageAvailable;
  if negb available then throw (new_Error "localStorage not available")
  else
    localStorage.removeItem STORAGE_KEY;;
    localStorage.removeItem LEGACY_SESSIONS_KEY.

(** [getStorageMetadata()]; [None] is the result [null]. *)
Definition getStorageMetadata : M (option object) :=
  try_catch
    (stored ← localStorage.getItem STORAGE_KEY;
     match stored with
     | None | Some EmptyString => ret None
     | Some stored =>
         data ← lift (JSON.parse stored);
         metadata ← lift (JS.prop data "metadata");
         lastModified ← lift (JS.prop metadata "lastModified");
         ret (Some (Obj.set (JS.spread metadata) "lastModified"
                      (VDate (JS.new_Date lastModified))))
     end)
    (fun _ => ret None).

(** *** Statistics of the stored data *)

Module TopSubject.
Record t := mk {
  subject : jsval;
  count : Z;
  totalTime : number
}.
End TopSubject.

Record DataStatistics := mkDataStatistics {
  totalSessions : Z;
  completedSessions : Z;
  totalStudyTime : number;
  oldestSession : jsval;        (* a [Date] or [undefined] *)
  newestSession : jsval;
  topSubjects : list TopSubject.t
}.

(** A [Map] with its entries in insertion order; the keys are compared by
    [SameValueZero]. *)
Fixpoint Map_get {V} (entries : list (jsval * V)) (key : jsval) : option V :=
  match entries with
  | [] => None
  | (k, v) :: entries' => if same_value_zero key k then Some v else Map_get entries' key
  end.

Fixpoint Map_set {V} (entries : list (jsval * V)) (key : jsval) (v : V)
  : list (jsval * V) :=
  match entries with
  | [] => [(key, v)]
  | (k, v') :: entries' =>
      if same_value_zero key k then (k, v) :: entries'
      else (k, v') :: Map_set entries' key v
  end.

(** [l.sort(compare)]: a stable sort, in which an element moves behind the
    elements that [compare] puts in front of it; [compare a b] is positive
    when [b] comes first.  (For a comparator that is not consistent
    JavaScript leaves the order to the implementation.) *)
Fixpoint insert_sorted {A} (compare : A -> A -> number) (x : A) (l : list A) : list A :=
  match l with
  | [] => [x]
  | y :: l' =>
      if Number.is_positive (compare x y) then y :: insert_sorted compare x l'
      else x :: l
  end.

Definition Array_sort {A} (compare : A -> A -> number) (l : list A) : list A :=
  fold_right (insert_sorted compare) [] l.

(** The number in an addition.  The values added in [getDataStatistics]
    are the [duration] of loaded sessions, which are numbers. *)
Definition number_value (v : jsval) : number :=
  match v with
  | VNum n => n
  | _ => NaN
  end.

(** [a < b] on the time values of two dates: false when either is NaN. *)
Definition time_lt (a b : option Z) : bool :=
  match a, b with
  | Some x, Some y => x <? y
  | _, _ => false
  end.

Record StatsState := mkStatsState {
  ss_subjectMap : list (jsval * (Z * number));   (* count and totalTime *)
  ss_totalStudyTime : number;
  ss_oldestSession : jsval;
  ss_newestSession : jsval
}.

(** The body of the loop over the sessions. *)
Definition statistics_step (st : StatsState) (session : object) : StatsState :=
  let subject := Obj.get session "subject" in
  let duration := number_value (Obj.get session "duration") in
  let startTime := Obj.get session "startTime" in
  let '(count, totalTime) :=
    default (0, Number.of_Z 0) (Map_get (ss_subjectMap st) subject) in
  mkStatsState
    (Map_set (ss_subjectMap st) subject (count + 1, Number.add totalTime duration))
    (if JS.truthy (Obj.get session "completed")
     then Number.add (ss_totalStudyTime st) duration
     else ss_totalStudyTime st)
    (if negb (JS.truthy (ss_oldestSession st))
        || time_lt (date_value startTime) (date_value (ss_oldestSession st))
     then startTime else ss_oldestSession st)
    (if negb (JS.truthy (ss_newestSession st))
        || time_lt (date_value (ss_newestSession st)) (date_value startTime)
     then startTime else ss_newestSession st).

Definition getDataStatistics : M DataStatistics :=
  sessions ← loadSessions;
  let completedSessions :=
    List.filter (fun s => JS.truthy (Obj.get s "completed")) sessions in
  let st :=
    fold_left statistics_step sessions
      (mkStatsState [] (Number.of_Z 0) VUndefined VUndefined) in
  let topSubjects :=
    take 10
      (Array_sort
         (fun a b => Number.sub (TopSubject.totalTime b) (TopSubject.totalTime a))
         (map (fun '(subject, (count, totalTime)) => TopSubject.mk subject count totalTime)
              (ss_subjectMap st))) in
  ret (mkDataStatistics
         (Z.of_nat (List.length sessions))
         (Z.of_nat (List.length completedSessions))
         (ss_totalStudyTime st)
         (ss_oldestSession st)
         (ss_newestSession st)
         topSubjects).

(** ** The legacy store ([src/utils/storage.ts])

    The module that the enhanced store replaces: the sessions as one JSON
    array under the legacy key, written and read without validation. *)

Module Legacy.

Definition SESSIONS_KEY : string := "learning-timer-sessions".

Definition saveSessions (sessions : list object) : M unit :=
  localStorage.setItem SESSIONS_KEY (JSON.stringify_array (map VObj sessions)).

Definition loadSessions : M (list object) :=
  stored ← localStorage.getItem SESSIONS_KEY;
  match stored with
  | None | Some EmptyString => ret []
  | Some stored =>
      try_catch
        (sessions ← lift (JSON.parse stored);
         lift (array_map "sessions" revive sessions))
        (fun _ => ret [])
  end.

Definition addSession (session : object) : M unit :=
  sessions ← loadSessions;
  saveSessions (sessions ++ [session]).

Definition getSessionStats : M SessionStats :=
  loaded ← loadSessions;
  let sessions := List.filter (fun s => JS.truthy (Obj.get s "completed")) loaded in
  now ← Date_now;
  offset ← Date_offset;
  let today := Date.TimeClip (Date.local_midnight offset now) in
  let weekAgo := t ← today; Date.TimeClip (t - 7 * 24 * 60 * 60 * 1000) in
  let monthAgo := t ← today; Date.TimeClip (t - 30 * 24 * 60 * 60 * 1000) in
  let since (bound : option Z) :=
    Z.of_nat (List.length
      (List.filter (fun s => JS.time_ge (date_value (Obj.get s "startTime")) bound)
         sessions)) in
  ret (mkSessionStats (since today) (since weekAgo) (since monthAgo)).

End Legacy.

(** *** Export *)





(** [d.toISOString()] for a property value [d]. *)
Definition toISOString (owner : string) (d : jsval) : outcome string :=
  match d with
  | VDate (Some t) => Return (Date.toISOString t)
  | VDate None => Throw (mkError "RangeError" "Invalid time value")
  | VUndefined | VNull =>
      Throw (TypeError ("Cannot read properties of undefined (reading 'toISOString')"))
  | _ => Throw (TypeError (owner +:+ ".toISOString is not a function"))
  end.


Section exportData.

(** [Papa.unparse(rows, { header: true, columns })] *)
Variable Papa_unparse : list object -> list string -> string.


End exportData.

(** * Notions used to state the properties *)

(** The advisory issues of a validation. *)
Definition warnings (issues : list ValidationError) : list ValidationError :=
  List.filter (fun e => Severity_eqb (type e) warning) issues.

(** A record is acceptable for persistence when its validation has no
    issue of severity [error]. *)
Definition acceptable (session : object) : Prop :=
  blocking (validateSession session None false) = [].

Definition test_key : string := "__storage_test__".

(** The medium accepts the probe of [isStorageAvailable]. *)
Definition available (w : World) : Prop :=
  localStorage.fits (quota w) (<[test_key := test_key]> (storage w)) = true.

(** The world after a successful probe of [isStorageAvailable]. *)
Definition probed (w : World) : World :=
  with_storage
    (with_storage w (<[test_key := test_key]> (storage w)) (SetItem test_key test_key))
    (delete test_key (<[test_key := test_key]> (storage w)))
    (RemoveItem test_key).

(** The subject as the duplicate rule compares it. *)
Definition normalized_subject (s : string) : string :=
  JSString.trim (JSString.toLowerCase s).

(** The duplicate rule: same subject up to case and surrounding white
    space, and start times less than 60 seconds apart. *)
Definition same_event (candidate existing : Session) : bool :=
  String.eqb (normalized_subject (subject existing))
             (normalized_subject (subject candidate))
  && within_minute (startTime existing) (startTime candidate).

Definition duplicate_info (existing candidate : Session) : DuplicateInfo :=
  mkDuplicateInfo (Session_object existing) (Session_object candidate)
    "Same subject and start time (within 1 minute)".

(** The issue that [validateCSVFile] raises for a missing column. *)
Definition missing_column_error (col : string) : ValidationError :=
  mkValidationError error ("Missing required column: " +:+ col) None (Some col) VUndefined.

(** The issues of a validation with a row index are those without, with
    the row recorded and prefixed to the message. *)
Definition with_row (rowIndex : Z) (e : ValidationError) : ValidationError :=
  mkValidationError (type e)
    ("Row " +:+ Digits.of_Z rowIndex +:+ ": " +:+ message e)
    (Some rowIndex) (column e) (value e).

(** The text that [saveSessions] writes for [sessions] at time
    [lastModified]. *)
Definition envelope_text (lastModified : Z) (sessions : list object) : string :=
  JSON.stringify_object (storageData_object lastModified sessions).

(** The medium accepts the write of [text] under [key] after the probe. *)
Definition accepts (w : World) (key text : string) : Prop :=
  localStorage.fits (quota w) (<[key := text]> (storage (probed w))) = true.

(** The world with [entries] written to the console. *)
Definition with_logs (w : World) (entries : list (LogLevel * string)) : World :=
  mkWorld (storage w) (quota w) (clock w) (utc_offset w) (random_suffix w) (draws w)
          (console w ++ entries) (journal w).

Definition integrity_warning : LogLevel * string :=
  (Warn, "Data integrity check failed, data may be corrupted").

Definition is_acceptable (session : object) : bool :=
  match blocking (validateSession session None false) with
  | [] => true
  | _ :: _ => false
  end.

(** The records that a load returns: the acceptable ones, in order. *)
Definition accepted (sessions : list object) : list object :=
  List.filter is_acceptable sessions.

(** The console warnings of a load for the records that it drops. *)
Fixpoint invalid_warnings (index : Z) (sessions : list object) : list (LogLevel * string) :=
  match sessions with
  | [] => []
  | session :: sessions' =>
      (if is_acceptable session then []
       else [(Warn, "Invalid session at index " +:+ Digits.of_Z index +:+ ":")])
      ++ invalid_warnings (index + 1) sessions'
  end.

(** The checksum that a load expects for the stored array [items]. *)
Definition expected_checksum (items : list jsval) : string :=
  generateChecksum (JSON.stringify_array items).

(** The storage of [w] holds an envelope with the given [metadata] and
    [sessions] array. *)
Definition holds_envelope (w : World) (metadata : jsval) (items : list jsval) : Prop :=
  exists stored data,
    storage w !! STORAGE_KEY = Some stored
    /\ JSON.parse stored = Return data
    /\ JS.prop data "metadata" = Return metadata
    /\ JS.truthy metadata = true
    /\ JS.prop data "sessions" = Return (VArr items).

(** The clock, the time zone and the capacity of [w'] are those of [w]. *)
Definition same_env (w w' : World) : Prop :=
  quota w' = quota w /\ clock w' = clock w /\ utc_offset w' = utc_offset w.

Definition preserves_env {A} (m : M A) : Prop :=
  forall w, same_env w (snd (m w)).

(** A session counts from [bound] on when it is completed and starts at
    [bound] or later. *)
Definition completed_since (bound : Z) (session : object) : bool :=
  match Obj.get session "completed", Obj.get session "startTime" with
  | VBool true, VDate (Some t) => bound <=? t
  | _, _ => false
  end.

Definition count_since (bound : Z) (sessions : list object) : Z :=
  Z.of_nat (List.length (List.filter (completed_since bound) sessions)).

Definition days (n : Z) : Z := n * 24 * 60 * 60 * 1000.

(** Every value that [m] returns satisfies [P]. *)
Definition yields {A} (P : A -> Prop) (m : M A) : Prop :=
  forall w a w', m w = (Return a, w') -> P a.

(** The storage after the mutations [ops]. *)
Definition apply_op (s : gmap string string) (op : StorageOp) : gmap string string :=
  match op with
  | SetItem k v => <[k := v]> s
  | RemoveItem k => delete k s
  end.

Definition storage_after (s : gmap string string) (ops : list StorageOp)
  : gmap string string :=
  fold_left apply_op ops s.

(** The world in which [migrateLegacyData] leaves a load that found no
    envelope and migrated the legacy records [revived]. *)
Definition migrated_world (w : World) (revived : list object) : World :=
  with_storage
    (with_logs (probed w)
       (if 0 <? Z.of_nat (List.length (snd (validate_from 0 revived)))
        then [(Warn, "Legacy data migration warnings:")] else []))
    (delete LEGACY_SESSIONS_KEY (storage (probed w)))
    (RemoveItem LEGACY_SESSIONS_KEY).

(** The calendar fields of the day [doe] of an era are in range and give
    the day back. *)
Definition check_era_day (doe : Z) : bool :=
  let '(yoe, m, d) := Date.civil_of_era_day doe in
  (0 <=? yoe) && (yoe <=? 399) && (1 <=? m) && (m <=? 12) && (1 <=? d) && (d <=? 31)
  && (Date.era_day_of_civil yoe m d =? doe).

(** [check] holds for the [n] integers from [z] on. *)
Fixpoint check_range (check : Z -> bool) (n : nat) (z : Z) : bool :=
  match n with
  | O => true
  | S n' => check z && check_range check n' (z + 1)
  end.

(** What may follow a JSON text inside a larger one: nothing, a comma or a
    closing bracket. *)
Definition delimited (rest : string) : Prop :=
  match rest with
  | EmptyString => True
  | String c _ => c = ","%char \/ c = "]"%char \/ c = "}"%char
  end.

(** The JSON text of [v] as an array element: [null] stands for a value
    without a text. *)
Definition text_of (v : jsval) : string := default "null" (JSON.stringify v).

Definition is_undefined (v : jsval) : bool :=
  match v with VUndefined => true | _ => false end.

(** The properties that [JSON.stringify] writes: those with a value. *)
Definition defined (props : object) : object :=
  List.filter (fun kv => negb (is_undefined (snd kv))) props.

Definition member_text (kv : string * jsval) : string :=
  JSON.quote (fst kv) +:+ ":" +:+ text_of (snd kv).

(** The value that [JSON.parse] reads from the text of [v]: dates have
    become ISO strings, NaN, infinities and invalid dates [null], numbers
    are in canonical form, and properties without a value are gone. *)
Fixpoint toJSON (v : jsval) : jsval :=
  match v with
  | VUndefined | VNull => VNull
  | VBool b => VBool b
  | VNum (Finite m d) => VNum (Number.canon (Finite m d))
  | VNum _ => VNull
  | VStr s => VStr s
  | VDate (Some t) => VStr (Date.toISOString t)
  | VDate None => VNull
  | VArr items => VArr (map toJSON items)
  | VObj props =>
      VObj ((fix members (l : object) : object :=
               match l with
               | [] => []
               | (k, x) :: l' =>
                   if is_undefined x then members l' else (k, toJSON x) :: members l'
               end) props)
  end.

(** The values that the model reads back from their JSON text: every
    object has its keys once. *)
Fixpoint serializable (v : jsval) : Prop :=
  match v with
  | VArr items =>
      (fix all (l : list jsval) : Prop :=
         match l with
         | [] => True
         | x :: l' => serializable x /\ all l'
         end) items
  | VObj props =>
      List.NoDup (map fst (defined props))
      /\ (fix all (l : object) : Prop :=
            match l with
            | [] => True
            | (_, x) :: l' => serializable x /\ all l'
            end) props
  | _ => True
  end.

(** The text of [v], followed by a delimiter, is read back as [toJSON v]
    with enough fuel. *)
Definition reads_back (v : jsval) : Prop :=
  forall fuel rest,
    (2 * String.length (text_of v) + 1 <= fuel)%nat ->
    delimited rest ->
    JSON.parse_value fuel (text_of v +:+ rest) = Some (toJSON v, rest).

(** The conditions of [validateSession] under which a record has no
    blocking issue. *)
Definition passes (session : object) : bool :=
  let id := Obj.get session "id" in
  let subject := Obj.get session "subject" in
  JS.truthy id && JS.is_string id
  && (JS.truthy subject
      && match subject with
         | VStr s => negb (JSString.length (JSString.trim s) =? 0)
         | _ => false
         end)
  && match Obj.get session "duration" with
     | VNum n => negb (Number.le_zero n)
     | _ => false
     end
  && bool_decide (is_Some (JS.new_Date (Obj.get session "startTime")))
  && (if JS.truthy (Obj.get session "endTime")
      then bool_decide (is_Some (JS.new_Date (Obj.get session "endTime")))
      else true)
  && JS.is_boolean (Obj.get session "completed").

Definition is_finite (n : number) : bool :=
  match n with Finite _ _ => true | _ => false end.

(** The object that a load returns for a saved session [s]. *)
Definition reloaded (s : Session) : object :=
  [("id", VStr (id s)); ("subject", VStr (subject s));
   ("duration", VNum (Number.canon (duration s)));
   ("startTime", VDate (startTime s))]
  ++ match endTime s with Some t => [("endTime", VDate t)] | None => [] end
  ++ [("completed", VBool (completed s))]
  ++ match endTime s with Some _ => [] | None => [("endTime", VUndefined)] end.

(** The fields of a loaded object are those of the session [s]; the
    duration is compared as a number, in canonical form. *)
Definition same_fields (loaded : object) (s : Session) : Prop :=
  Obj.get loaded "id" = VStr (id s)
  /\ Obj.get loaded "subject" = VStr (subject s)
  /\ Obj.get loaded "duration" = VNum (Number.canon (duration s))
  /\ Obj.get loaded "completed" = VBool (completed s)
  /\ Obj.get loaded "startTime" = VDate (startTime s)
  /\ Obj.get loaded "endTime"
     = match endTime s with Some t => VDate t | None => VUndefined end.

(** The storage after a save of [text]. *)
Definition saved (w : World) (text : string) : gmap string string :=
  <[STORAGE_KEY := text]> (storage (probed w)).

(** The field types of the [Session] interface, with the conditions of
    the validation on them. *)
Definition well_typed (s : object) : Prop :=
  (exists x, Obj.get s "id" = VStr x /\ x <> EmptyString)
  /\ (exists x, Obj.get s "subject" = VStr x /\ JSString.trim x <> EmptyString)
  /\ (exists n, Obj.get s "duration" = VNum n /\ Number.le_zero n = false)
  /\ (exists t, Obj.get s "startTime" = VDate (Some t) /\ Z.abs t <= Date.maxTime)
  /\ (Obj.get s "endTime" = VUndefined
      \/ exists t, Obj.get s "endTime" = VDate (Some t) /\ Z.abs t <= Date.maxTime)
  /\ (exists b, Obj.get s "completed" = VBool b).

(** The dates of a record are [Date] objects, as [revive] leaves them. *)
Definition revived_dates (s : object) : Prop :=
  (exists t, Obj.get s "startTime" = VDate t)
  /\ (Obj.get s "endTime" = VUndefined \/ exists t, Obj.get s "endTime" = VDate t).

(** Nothing is stored under a key: [getItem] gives [null] or the empty
    string. *)
Definition blank (stored : option string) : Prop :=
  stored = None \/ stored = Some EmptyString.

(** The text holds an envelope that a load can read: an object with a
    [metadata] and an array [sessions] of objects. *)
Definition readable (stored : string) : Prop :=
  exists data metadata items revived,
    JSON.parse stored = Return data
    /\ JS.prop data "metadata" = Return metadata
    /\ JS.truthy metadata = true
    /\ JS.prop data "sessions" = Return (VArr items)
    /\ map_throwing revive items = Return revived.


(** The text holds a legacy array that the migration can read. *)
Definition legacy_readable (legacy : string) : Prop :=
  exists items revived,
    JSON.parse legacy = Return (VArr items)
    /\ map_throwing revive items = Return revived.

(** A computation changes the storage at the keys of [keys] only. *)
Definition touches_only {A} (keys : list string) (m : M A) : Prop :=
  forall w k, ~ In k keys -> storage (snd (m w)) !! k = storage w !! k.

(** The keys of the store: the probe key, the envelope and the legacy
    array. *)
Definition store_keys : list string := [test_key; STORAGE_KEY; LEGACY_SESSIONS_KEY].

(** What holds of the state of the row loop after [n] rows, when the
    header has every required column: each kept record is well typed, at
    most two ids were generated for a row, and all rows were kept exactly
    when no issue of severity [error] was raised. *)
Definition import_invariant (n : Z) (st : ImportState) : Prop :=
  Z.of_nat (List.length (st_validSessions st)) <= n
  /\ 0 <= st_generatedIds st <= 2 * n
  /\ Forall well_typed (st_validSessions st)
  /\ (blocking (st_errors st) = [] <-> Z.of_nat (List.length (st_validSessions st)) = n).

(** The file passes the checks that precede the reading: at most 1 MB, and
    named [.csv] or typed [text/csv]. *)
Definition admissible (file : File.t) : Prop :=
  File.size file <= MAX_FILE_SIZE
  /\ (JSString.endsWith (JSString.toLowerCase (File.name file)) ".csv" = true
      \/ File.type file = "text/csv").

(** The fields that [validateSession] checks, in the order in which it
    checks them. *)
Definition checked_fields : list (option string) :=
  [Some "id"; Some "subject"; Some "duration"; Some "startTime"; Some "endTime";
   Some "completed"].

(** The polynomial hash with multiplier 31 of a sequence of code units,
    without wrap-around: [c1 * 31^(n-1) + ... + cn]. *)
Definition polynomial_hash (codes : list Z) : Z :=
  fold_left (fun h c => 31 * h + c) codes 0.

(** A digit of the radix 36: [0-9] or [a-z]. *)
Definition is_base36 (c : ascii) : bool :=
  let n := JSString.charCode c in
  ((48 <=? n) && (n <=? 57)) || ((97 <=? n) && (n <=? 122)).

Fixpoint all_base36 (s : string) : bool :=
  match s with
  | EmptyString => true
  | String c s' => is_base36 c && all_base36 s'
  end.

(** Some session of [existing] satisfies the duplicate rule with the
    candidate. *)
Definition duplicates_any (existing : list object) (candidate : object) : bool :=
  existsb (fun e => match is_duplicate_of candidate e with
                    | Return b => b
                    | Throw _ => false
                    end) existing.

(** The [id] of a record. *)
Definition id_of (session : object) : jsval := Obj.get session "id".

(** The record that an import without duplicate detection adds for
    [session]: the session itself, or the session with a generated id when
    its id is the id of an existing record. *)
Definition renamed (existing : list object) (session added : object) : Prop :=
  if Set_has (map id_of existing) (id_of session)
  then exists suffix, added = Obj.set session "id" (VStr ("session_" +:+ suffix))
  else added = session.

(** The sessions with the subject [x]. *)
Definition with_subject (x : string) (sessions : list object) : list object :=
  List.filter (fun s => same_value_zero (Obj.get s "subject") (VStr x)) sessions.

(** The sum of the durations of [sessions], as the loop of
    [getDataStatistics] adds them. *)
Definition total_duration (sessions : list object) : number :=
  fold_left Number.add
    (map (fun s => number_value (Obj.get s "duration")) sessions) (Number.of_Z 0).

(** The time value of the start of a session. *)
Definition start_of (session : object) : option Z :=
  date_value (Obj.get session "startTime").

(** The state of the loop of [getDataStatistics] after [sessions]. *)
Definition statistics_of (sessions : list object) : StatsState :=
  fold_left statistics_step sessions
    (mkStatsState [] (Number.of_Z 0) VUndefined VUndefined).

(** [b] has no more total time than [a]: the comparator of the sort does
    not move [b] in front of [a]. *)
Definition not_behind (a b : TopSubject.t) : Prop :=
  Number.is_positive (Number.sub (TopSubject.totalTime b) (TopSubject.totalTime a)) = false.



Module Examples.

(** 2024-01-15T10:00:00.000Z *)
Definition t0 : Z := 1705312800000.

Definition session_at (id subject : string) (minutes : Z) (start : Z) : Session :=
  mkSession id subject (Finite minutes 0) (Some start) None true.

(** A session that ends at the instant it starts. *)
Definition instant_session : object :=
  Session_object
    (mkSession "s1" "Math" (Finite 25 0) (Some t0) (Some (Some t0)) true).

(** A session with [duration: -5]. *)
Definition negative_session : object :=
  Session_object (session_at "s2" "Math" (-5) t0).

Definition good_session : object :=
  Session_object
    (mkSession "s3" "Math" (Finite 25 0) (Some t0) (Some (Some (t0 + 1500000))) true).

(** An empty storage without a capacity limit, at 2024-01-15T18:00:00Z
    in UTC. *)
Definition empty_world : World :=
  mkWorld ∅ None (t0 + 28800000) 0 (fun _ => "k3x9q2m1z") 0 [] [].

Definition math_0s : Session := session_at "a" "Math" 25 t0.
Definition math_30s : Session := session_at "b" " math " 25 (t0 + 30000).
Definition math_45s : Session := session_at "c" "MATH" 25 (t0 + 45000).
Definition math_90s : Session := session_at "d" "Math" 25 (t0 + 90000).

(** A CSV file without a [duration] column. *)
Definition csv_without_duration : File.t :=
  File.mk "sessions.csv" "text/csv" 63
    (Some "subject,startTime,completed
Math,2024-01-15T10:00:00.000Z,true
").

(** What [Papa.parse] returns for it. *)
Definition parsed_without_duration (_ : string) : PapaResults :=
  mkPapaResults
    [ {[ "subject" := "Math"; "startTime" := "2024-01-15T10:00:00.000Z";
         "completed" := "true" ]} ]
    (Some ["subject"; "startTime"; "completed"]).

(** A storage that holds the envelope of one session, with room for 2000
    code units. *)
Definition stored_world : World :=
  mkWorld {[ STORAGE_KEY := envelope_text t0 [Session_object math_0s] ]}
    (Some 2000) (t0 + 28800000) 0 (fun _ => "k3x9q2m1z") 0 [] [].




(** An envelope without a checksum. *)
Definition unsigned_metadata : object :=
  [("version", VStr "1.0.0"); ("sessionCount", VNum (Finite 2 0))].

(** The sessions array of an envelope with a [null] entry behind an
    acceptable record. *)
Definition items_with_null : list jsval :=
  [VObj [("id", VStr "s3"); ("subject", VStr "Math"); ("duration", VNum (Finite 25 0));
         ("startTime", VStr "2024-01-15T10:00:00.000Z"); ("completed", VBool true)];
   VNull].

Definition world_with_null_entry (metadata : object) : World :=
  mkWorld
    {[ STORAGE_KEY :=
         JSON.stringify_object
           [("metadata", VObj metadata); ("sessions", VArr items_with_null)] ]}
    None (t0 + 28800000) 0 (fun _ => "k3x9q2m1z") 0 [] [].

(** Completed sessions at 09:00 of the day of [empty_world], 6 days and
    40 days before its clock (18:00), and an abandoned session at 12:00. *)
Definition stats_sessions : list object :=
  [Session_object (session_at "a" "Math" 25 (t0 - 3600000));
   Session_object (session_at "b" "Physics" 25 (t0 + 28800000 - 6 * 86400000));
   Session_object (session_at "c" "Latin" 25 (t0 + 28800000 - 40 * 86400000));
   Session_object (mkSession "d" "Math" (Finite 25 0) (Some (t0 + 7200000)) None false)].

Definition stats_world : World :=
  mkWorld {[ STORAGE_KEY := envelope_text t0 stats_sessions ]}
    None (t0 + 28800000) 0 (fun _ => "k3x9q2m1z") 0 [] [].

(** The legacy array of one session, as [storage.ts] wrote it. *)
Definition legacy_text : string :=
  JSON.stringify_array [VObj (Session_object math_0s)].

Definition legacy_world (capacity : option Z) : World :=
  mkWorld {[ LEGACY_SESSIONS_KEY := legacy_text ]}
    capacity (t0 + 28800000) 0 (fun _ => "k3x9q2m1z") 0 [] [].

(** A session whose duration is [Infinity], as [parseFloat("Infinity")]
    gives for a CSV field. *)
Definition endless_session : Session :=
  mkSession "e" "Math" (Infinity false) (Some t0) None true.

(** Sessions with and without [endTime], with a fractional duration. *)
Definition mixed_sessions : list Session :=
  [mkSession "s3" "Math" (Finite 25 0) (Some t0) (Some (Some (t0 + 1500000))) true;
   mkSession "s5" " Latin " (Finite 125 1) (Some (t0 + 3600000)) None false].

(** An empty storage with room for the envelope of [math_0s] and ten code
    units more. *)
Definition tight_world : World :=
  mkWorld ∅
    (Some (JSString.length STORAGE_KEY
           + JSString.length (envelope_text (t0 + 28800000) [Session_object math_0s])
           + 10))
    (t0 + 28800000) 0 (fun _ => "k3x9q2m1z") 0 [] [].

(** A storage without room for anything. *)
Definition full_world : World :=
  mkWorld ∅ (Some 0) (t0 + 28800000) 0 (fun _ => "k3x9q2m1z") 0 [] [].

(** A storage whose envelope key holds a text that is not JSON, beside the
    legacy array of one session. *)
Definition garbled_world : World :=
  mkWorld {[ STORAGE_KEY := "{not json"; LEGACY_SESSIONS_KEY := legacy_text ]}
    None (t0 + 28800000) 0 (fun _ => "k3x9q2m1z") 0 [] [].

(** A CSV file of three rows: a complete row with an id, a row without id,
    and a row with the id of the first and a negative duration. *)
Definition csv_three_rows : File.t :=
  File.mk "Sessions.CSV" EmptyString 160 (Some "id,subject,duration,startTime,completed").

Definition parsed_three_rows (_ : string) : PapaResults :=
  mkPapaResults
    [ {[ "id" := "r1"; "subject" := "Math"; "duration" := "25";
         "startTime" := "2024-01-15T10:00:00.000Z"; "completed" := "true" ]};
      {[ "id" := " "; "subject" := " Latin "; "duration" := "12.5";
         "startTime" := "2024-01-15"; "completed" := "false" ]};
      {[ "id" := "r1"; "subject" := "Math"; "duration" := "-5";
         "startTime" := "2024-01-15T12:00:00.000Z"; "completed" := "true" ]} ]
    (Some ["id"; "subject"; "duration"; "startTime"; "completed"]).

(** A world whose store holds [math_0s], and two candidates of an import:
    one that the duplicate rule matches with it and one that it does not. *)
Definition import_candidates : list object :=
  [Session_object math_30s; Session_object (session_at "p" "Physics" 50 t0)].

End Examples.

(** * Properties *)

(** ** Generalities *)

Ltac run :=
  unfold mbind, M_bind, bind, mret, M_ret, ret, throw, lift, try_catch,
    outcome_bind, outcome_ret, obind in *.

Lemma positive_length {A} (l : list A) :
  (0 <? Z.of_nat (List.length l)) = negb (bool_decide (l = [])).
Proof. destruct l; [reflexivity | ]. rewrite bool_decide_eq_false_2 by discriminate. reflexivity. Qed.

Lemma positive_length_true {A} (l : list A) :
  l <> [] -> (0 <? Z.of_nat (List.length l)) = true.
Proof. destruct l; [congruence | reflexivity]. Qed.

Lemma zero_length {A} (l : list A) :
  (Z.of_nat (List.length l) =? 0) = bool_decide (l = []).
Proof. destruct l; [reflexivity | ]. rewrite bool_decide_eq_false_2 by discriminate. reflexivity. Qed.

Lemma isStorageAvailable_true (w : World) :
  available w -> isStorageAvailable w = (Return true, probed w).
Proof.
  unfold available, isStorageAvailable, localStorage.setItem, localStorage.removeItem.
  intros H. run. fold test_key. simpl. rewrite H. reflexivity.
Qed.

Lemma isStorageAvailable_false (w : World) :
  ~ available w -> isStorageAvailable w = (Return false, w).
Proof.
  unfold available, isStorageAvailable, localStorage.setItem.
  intros H. run. fold test_key. simpl.
  destruct (localStorage.fits _ _); [congruence | reflexivity].
Qed.

Lemma probed_lookup (w : World) (k : string) :
  k <> test_key -> storage (probed w) !! k = storage w !! k.
Proof.
  intros Hk. unfold probed. simpl.
  rewrite lookup_delete_ne by congruence. rewrite lookup_insert_ne by congruence.
  reflexivity.
Qed.

(** ** Validation *)

Section Validation.

Variables (session : object) (rowIndex : option Z) (allowMissingId : bool).

Let issues := validateSession session rowIndex allowMissingId.

Lemma blocking_app (a b : list ValidationError) :
  blocking (a ++ b) = blocking a ++ blocking b.
Proof. apply List.filter_app. Qed.

Lemma warnings_app (a b : list ValidationError) :
  warnings (a ++ b) = warnings a ++ warnings b.
Proof. apply List.filter_app. Qed.

(** The only advisory issue of a validation is the one on the order of
    [startTime] and [endTime]. *)
Lemma validateSession_warnings :
  warnings issues =
    if JS.truthy (Obj.get session "endTime")
       && bool_decide (is_Some (JS.new_Date (Obj.get session "endTime")))
       && JS.time_ge (JS.new_Date (Obj.get session "startTime"))
                     (JS.new_Date (Obj.get session "endTime"))
    then [mkValidationError warning
            (match rowIndex with
             | Some i => "Row " +:+ Digits.of_Z i +:+ ": "
             | None => EmptyString
             end +:+ "End time should be after start time")
            rowIndex (Some "endTime") VUndefined]
    else [].
Proof.
  unfold issues, validateSession. rewrite !warnings_app.
  repeat match goal with
         | |- context [if ?b then _ else _] => destruct b eqn:?
         | |- context [match ?x with Some _ => _ | None => _ end] => destruct x eqn:?
         end; simpl in *; try reflexivity; try congruence.
Qed.

End Validation.

Lemma Obj_get_set (o : object) (k k' : string) (v : jsval) :
  Obj.get (Obj.set o k v) k' = if String.eqb k' k then v else Obj.get o k'.
Proof.
  unfold Obj.set. destruct (Obj.has o k) eqn:Hhas.
  - induction o as [|[k0 v0] o IH]; simpl in *; [discriminate|].
    destruct (String.eqb_spec k k0) as [->|Hne]; simpl.
    + destruct (String.eqb k' k0); reflexivity.
    + destruct (String.eqb_spec k' k0) as [->|Hne'].
      * rewrite (proj2 (String.eqb_neq k0 k)) by congruence. reflexivity.
      * apply IH. assumption.
  - induction o as [|[k0 v0] o IH]; simpl in *.
    + destruct (String.eqb k' k); reflexivity.
    + destruct (String.eqb_spec k k0) as [->|Hne]; simpl in *; [discriminate|].
      destruct (String.eqb_spec k' k0) as [->|Hne'].
      * rewrite (proj2 (String.eqb_neq k0 k)) by congruence. reflexivity.
      * apply IH. assumption.
Qed.

Lemma validateSession_without_endTime (session : object) (rowIndex : option Z) (allowMissingId : bool) :
  JS.truthy (Obj.get session "endTime") = true ->
  is_Some (JS.new_Date (Obj.get session "endTime")) ->
  blocking (validateSession session rowIndex allowMissingId)
  = blocking (validateSession (Obj.set session "endTime" VUndefined) rowIndex allowMissingId).
Proof.
  intros Ht [e He]. unfold validateSession.
  rewrite !Obj_get_set. simpl. rewrite Ht, He.
  destruct (JS.time_ge _ _); rewrite !blocking_app; simpl; rewrite ?app_nil_r; reflexivity.
Qed.

(** C8 (amended): for a record whose [endTime] is present and valid,
    validation emits a warning exactly when [endTime] is earlier than or
    equal to a valid [startTime]; every warning is the one on [endTime]; and
    the blocking issues are those of the record without its [endTime], so
    the warning never makes the record unacceptable. *)
Theorem endTime_order_is_advisory
    (session : object) (rowIndex : option Z) (allowMissingId : bool) (e : Z) :
  JS.truthy (Obj.get session "endTime") = true ->
  JS.new_Date (Obj.get session "endTime") = Some e ->
  let issues := validateSession session rowIndex allowMissingId in
  ((exists i, In i issues /\ type i = warning)
   <-> exists s, JS.new_Date (Obj.get session "startTime") = Some s /\ e <= s)
  /\ (forall i, In i issues -> type i = warning -> column i = Some "endTime")
  /\ blocking issues
     = blocking (validateSession (Obj.set session "endTime" VUndefined)
                   rowIndex allowMissingId).
Proof.
  intros Ht He issues.
  assert (Hw : forall i, In i issues /\ type i = warning <-> In i (warnings issues)).
  { intros i. unfold warnings. rewrite List.filter_In.
    destruct (type i); simpl; intuition congruence. }
  pose proof (validateSession_warnings session rowIndex allowMissingId) as Hws.
  fold issues in Hws. rewrite Ht, He in Hws.
  rewrite bool_decide_eq_true_2 in Hws by eauto. simpl in Hws.
  split; [ | split].
  - split.
    + intros [i Hi]. apply Hw in Hi. rewrite Hws in Hi.
      destruct (JS.new_Date (Obj.get session "startTime")) as [s|]; simpl in Hi;
        [ | destruct Hi].
      exists s. split; [reflexivity | ].
      destruct (e <=? s) eqn:Hle; [lia | destruct Hi].
    + intros [s [Hs Hle]]. rewrite Hs in Hws. simpl in Hws.
      rewrite (proj2 (Z.leb_le e s) Hle) in Hws.
      eexists. apply Hw. rewrite Hws. left. reflexivity.
  - intros i Hi Hty. assert (Hin : In i (warnings issues)) by (apply Hw; auto).
    rewrite Hws in Hin. destruct (JS.time_ge _ _); simpl in Hin; [ | destruct Hin].
    destruct Hin as [<- | []]. reflexivity.
  - apply validateSession_without_endTime; eauto.
Qed.

Lemma endTime_order_is_advisory_witness :
  let session := Examples.instant_session in
  JS.truthy (Obj.get session "endTime") = true
  /\ JS.new_Date (Obj.get session "endTime") = Some Examples.t0
  /\ ((exists i, In i (validateSession session None false) /\ type i = warning)
      <-> exists s, JS.new_Date (Obj.get session "startTime") = Some s /\ Examples.t0 <= s)
  /\ blocking (validateSession session None false) = [].
Proof.
  intros session.
  split; [reflexivity | split; [reflexivity | ]].
  destruct (endTime_order_is_advisory session None false Examples.t0
              eq_refl eq_refl) as [H1 [_ H3]].
  split; [exact H1 | ]. rewrite H3. reflexivity.
Defined.

(** C8, as stated, fails: a record whose [endTime] equals its [startTime]
    receives the ordering warning. *)
Lemma endTime_equal_startTime_warned :
  let session := Examples.instant_session in
  JS.new_Date (Obj.get session "startTime") = Some Examples.t0
  /\ JS.new_Date (Obj.get session "endTime") = Some Examples.t0
  /\ validateSession session None false
     = [mkValidationError warning "End time should be after start time"
          None (Some "endTime") VUndefined].
Proof. repeat split. Qed.

(** C9: [addSession] of a record with a blocking issue throws and leaves
    the whole world, the storage and its journal included, as it was. *)
Theorem addSession_rejects_invalid (session : object) (w : World) :
  blocking (validateSession session None false) <> [] ->
  addSession session w
  = (Throw (new_Error ("Invalid session: " +:+
              JSString.join ", " (map message (validateSession session None false)))),
     w).
Proof.
  intros H. unfold addSession. rewrite positive_length_true by assumption. reflexivity.
Qed.

Lemma addSession_rejects_invalid_witness :
  blocking (validateSession Examples.negative_session None false) <> []
  /\ addSession Examples.negative_session Examples.empty_world
     = (Throw (new_Error "Invalid session: Duration must be a positive number"),
        Examples.empty_world).
Proof.
  split; [discriminate | ].
  rewrite (addSession_rejects_invalid Examples.negative_session Examples.empty_world)
    by discriminate.
  reflexivity.
Defined.

(** ** Duplicate detection *)

Lemma Session_object_subject (s : Session) :
  Obj.get (Session_object s) "subject" = VStr (subject s).
Proof. reflexivity. Qed.

Lemma Session_object_startTime (s : Session) :
  Obj.get (Session_object s) "startTime" = VDate (startTime s).
Proof. reflexivity. Qed.

Lemma is_duplicate_of_Session (candidate existing : Session) :
  is_duplicate_of (Session_object candidate) (Session_object existing)
  = Return (same_event candidate existing).
Proof.
  unfold is_duplicate_of, same_event.
  rewrite !Session_object_subject, !Session_object_startTime. simpl.
  fold (normalized_subject (subject existing)).
  fold (normalized_subject (subject candidate)).
  destruct (String.eqb _ _); reflexivity.
Qed.

Lemma find_first_Session (candidate : Session) (existing : list Session) :
  find_first (is_duplicate_of (Session_object candidate)) (map Session_object existing)
  = Return (Session_object <$> List.find (same_event candidate) existing).
Proof.
  induction existing as [|e existing IH]; [reflexivity | ].
  simpl. rewrite is_duplicate_of_Session. simpl.
  destruct (same_event candidate e); [reflexivity | exact IH].
Qed.

(** C5 (amended): [findDuplicates] reports, for each candidate in order,
    the first existing session that satisfies the duplicate rule, and
    nothing for a candidate that no existing session matches; against a
    single existing session the pair is reported exactly when the rule
    holds.  Sessions on "Math" 30 seconds apart satisfy the rule, 90 seconds
    apart they do not. *)
Theorem findDuplicates_first_match (candidates existing : list Session) :
  findDuplicates (map Session_object candidates) (map Session_object existing)
  = Return (omap (fun c => (fun e => duplicate_info e c)
                             <$> List.find (same_event c) existing)
              candidates)
  /\ (forall c e,
        findDuplicates [Session_object c] [Session_object e]
        = Return (if same_event c e then [duplicate_info e c] else []))
  /\ same_event Examples.math_30s Examples.math_0s = true
  /\ same_event Examples.math_90s Examples.math_0s = false.
Proof.
  split; [ | split; [ | split; reflexivity]].
  - induction candidates as [|c candidates IH]; [reflexivity | ].
    simpl. rewrite find_first_Session. simpl. rewrite IH. simpl.
    destruct (List.find (same_event c) existing); reflexivity.
  - intros c e. simpl. rewrite is_duplicate_of_Session. simpl.
    destruct (same_event c e); reflexivity.
Qed.

(** C5, as stated, fails: an existing session that satisfies the rule is
    not reported when an earlier existing session satisfies it too. *)
Lemma later_match_not_reported :
  same_event Examples.math_0s Examples.math_30s = true
  /\ same_event Examples.math_0s Examples.math_45s = true
  /\ findDuplicates [Session_object Examples.math_0s]
       [Session_object Examples.math_30s; Session_object Examples.math_45s]
     = Return [duplicate_info Examples.math_30s Examples.math_0s].
Proof. repeat split. Qed.

(** ** Loading never throws *)

Lemma isStorageAvailable_returns (w : World) :
  exists b w', isStorageAvailable w = (Return b, w').
Proof.
  unfold isStorageAvailable, localStorage.setItem, localStorage.removeItem. run.
  destruct (localStorage.fits _ _); eauto.
Qed.

Lemma migrateLegacyData_returns (w : World) :
  exists l w', migrateLegacyData w = (Return l, w').
Proof.
  unfold migrateLegacyData, try_catch.
  match goal with |- context [match ?m w with _ => _ end] => destruct (m w) as [[l|e] w'] end;
    eauto.
Qed.

Lemma loadSessions_returns (w : World) :
  exists l w', loadSessions w = (Return l, w').
Proof.
  unfold loadSessions. unfold mbind at 1, M_bind at 1, bind at 1.
  destruct (isStorageAvailable_returns w) as [b [w1 ->]].
  destruct b; simpl.
  - unfold try_catch.
    match goal with |- context [match ?m w1 with _ => _ end] => destruct (m w1) as [[l|e] w2] end;
      [eauto | ].
    unfold mbind, M_bind, bind, console_error.
    apply migrateLegacyData_returns.
  - unfold console_warn. run. eauto.
Qed.

(** ** CSV import *)

(** C6: when the header row lacks a required column, the preview has no
    valid row, no candidate, no duplicate and no generated id, and its
    issues are one error for each missing required column, naming it, and
    nothing else. *)
Theorem missing_required_column
    (Papa_parse : string -> PapaResults) (file : File.t) (csvContent : string)
    (w : World) (lacking : string) :
  File.size file <= MAX_FILE_SIZE ->
  JSString.endsWith (JSString.toLowerCase (File.name file)) ".csv" = true
    \/ File.type file = "text/csv" ->
  File.text file = Some csvContent ->
  let results := Papa_parse csvContent in
  let headers := default [] (fields results) in
  In lacking requiredColumns ->
  includes headers lacking = false ->
  exists preview w',
    validateCSVFile Papa_parse file w = (Return preview, w')
    /\ totalRows preview = Z.of_nat (List.length (data results))
    /\ validRows preview = 0
    /\ sampleData preview = []
    /\ duplicates preview = []
    /\ generatedIds preview = 0
    /\ errors preview
       = map missing_column_error
           (List.filter (fun col => negb (includes headers col)) requiredColumns)
    /\ In (missing_column_error lacking) (errors preview)
    /\ (forall e, In e (errors preview) -> type e = error /\ row e = None)
    /\ List.NoDup (map column (errors preview))
    /\ (forall col, In (Some col) (map column (errors preview))
                    <-> In col requiredColumns /\ includes headers col = false).
Proof.
  intros Hsize Htype Htext results headers Hreq Hlack.
  set (missing := List.filter (fun col => negb (includes headers col)) requiredColumns).
  assert (Hin : In lacking missing).
  { apply List.filter_In. rewrite Hlack. auto. }
  assert (Hne : map missing_column_error missing <> []).
  { destruct missing; [destruct Hin | discriminate]. }
  destruct (loadSessions_returns w) as [existing [w' Hload]].
  exists (mkImportPreview (Z.of_nat (List.length (data results))) 0
            (map missing_column_error missing) [] [] 0), w'.
  split.
  - unfold validateCSVFile.
    rewrite (proj2 (Z.ltb_ge _ _) Hsize).
    assert (Hty : negb (JSString.endsWith (JSString.toLowerCase (File.name file)) ".csv")
                  && negb (String.eqb (File.type file) "text/csv") = false).
    { destruct Htype as [-> | ->]; [reflexivity | ].
      rewrite String.eqb_refl. apply andb_false_r. }
    rewrite Hty, Htext. unfold try_catch, complete.
    fold results. fold headers. fold missing_column_error. fold missing.
    unfold mbind at 1, M_bind at 1, bind at 1.
    rewrite zero_length, bool_decide_eq_false_2 by assumption.
    unfold ret at 1. unfold mbind at 1, M_bind at 1, bind at 1.
    rewrite Hload. reflexivity.
  - simpl. repeat (split; [reflexivity | ]).
    split; [apply List.in_map; assumption | ].
    split; [ | split].
    + intros e He. apply List.in_map_iff in He. destruct He as [col [<- _]].
      split; reflexivity.
    + rewrite List.map_map. simpl.
      apply List.NoDup_map_NoDup_ForallPairs; [intros a b _ _; congruence | ].
      apply List.NoDup_filter. unfold requiredColumns.
      repeat (apply List.NoDup_cons; [simpl; intuition discriminate | ]).
      apply List.NoDup_nil.
    + intros col. rewrite List.map_map. simpl. rewrite List.in_map_iff. split.
      * intros [c [Hc Hm]]. injection Hc as ->. apply List.filter_In in Hm.
        destruct Hm as [Hm1 Hm2]. split; [assumption | ].
        destruct (includes headers col); [discriminate | reflexivity].
      * intros [Hc Hm]. exists col. split; [reflexivity | ].
        apply List.filter_In. rewrite Hm. auto.
Qed.

Lemma missing_required_column_witness :
  exists preview w',
    validateCSVFile Examples.parsed_without_duration Examples.csv_without_duration
      Examples.empty_world = (Return preview, w')
    /\ validRows preview = 0
    /\ sampleData preview = []
    /\ errors preview = [missing_column_error "duration"].
Proof.
  destruct (missing_required_column Examples.parsed_without_duration
              Examples.csv_without_duration
              (default EmptyString (File.text Examples.csv_without_duration))
              Examples.empty_world "duration")
    as [preview [w' [Hrun [_ [Hvalid [Hsample [_ [_ [Herrors _]]]]]]]]].
  - unfold MAX_FILE_SIZE. simpl. lia.
  - right. reflexivity.
  - reflexivity.
  - simpl. tauto.
  - reflexivity.
  - exists preview, w'. repeat split; assumption.
Defined.

(** ** Saving *)

Lemma append_nil (s : string) : EmptyString +:+ s = s.
Proof. reflexivity. Qed.

Lemma append_cons (c : ascii) (s t : string) : String c s +:+ t = String c (s +:+ t).
Proof. reflexivity. Qed.

Lemma append_assoc (a b c : string) : (a +:+ b) +:+ c = a +:+ (b +:+ c).
Proof.
  induction a as [|x a IH]; [reflexivity | ].
  rewrite !append_cons. f_equal. exact IH.
Qed.

Lemma validateSession_row (session : object) (rowIndex : Z) (allowMissingId : bool) :
  validateSession session (Some rowIndex) allowMissingId
  = map (with_row rowIndex) (validateSession session None allowMissingId).
Proof.
  unfold validateSession. rewrite !List.map_app.
  repeat match goal with
         | |- context [if ?b then _ else _] => destruct b eqn:?
         | |- context [match ?x with Some _ => _ | None => _ end] => destruct x eqn:?
         end; simpl; unfold with_row; simpl; rewrite ?append_nil, ?append_assoc; reflexivity.
Qed.

Lemma blocking_with_row (rowIndex : Z) (issues : list ValidationError) :
  blocking (map (with_row rowIndex) issues) = map (with_row rowIndex) (blocking issues).
Proof.
  induction issues as [|e issues IH]; [reflexivity | ].
  simpl. destruct (type e); simpl; rewrite IH; reflexivity.
Qed.

Lemma acceptable_row (session : object) (rowIndex : Z) :
  blocking (validateSession session (Some rowIndex) false) = [] <-> acceptable session.
Proof.
  unfold acceptable. rewrite validateSession_row, blocking_with_row.
  destruct (blocking (validateSession session None false)); simpl; split; congruence.
Qed.

Lemma blocking_from_nil (sessions : list object) (index : Z) :
  blocking_from index sessions = [] <-> Forall acceptable sessions.
Proof.
  revert index. induction sessions as [|s sessions IH]; intros index; simpl.
  - split; [constructor | reflexivity].
  - split.
    + intros H. apply app_eq_nil in H. destruct H as [H1 H2].
      constructor; [apply (acceptable_row s (index + 1)); assumption | ].
      apply (IH (index + 1)). assumption.
    + intros H. inversion H as [|? ? Hs Hrest]; subst.
      apply (acceptable_row s (index + 1)) in Hs. rewrite Hs. simpl.
      apply (IH (index + 1)). assumption.
Qed.

Lemma saveSessions_unavailable (sessions : list object) (w : World) :
  ~ available w ->
  saveSessions sessions w = (Throw (new_Error "localStorage not available"), w).
Proof.
  intros H. unfold saveSessions. unfold mbind at 1, M_bind at 1, bind at 1.
  rewrite isStorageAvailable_false by assumption. reflexivity.
Qed.

Lemma saveSessions_invalid (sessions : list object) (w : World) :
  available w ->
  ~ Forall acceptable sessions ->
  saveSessions sessions w
  = (Throw (new_Error ("Cannot save invalid sessions: "
                         +:+ JSString.join ", " (map message (blocking_from 0 sessions)))),
     probed w).
Proof.
  intros Ha Hinv. unfold saveSessions. unfold mbind at 1, M_bind at 1, bind at 1.
  rewrite isStorageAvailable_true by assumption. cbv beta iota delta [negb].
  unfold try_catch.
  rewrite positive_length_true; [reflexivity | ].
  intros Hnil. apply Hinv. apply (blocking_from_nil sessions 0). assumption.
Qed.

Lemma saveSessions_valid (sessions : list object) (w : World) :
  available w ->
  Forall acceptable sessions ->
  accepts w STORAGE_KEY (envelope_text (clock w) sessions) ->
  exists w',
    saveSessions sessions w = (Return tt, w')
    /\ storage w' = <[STORAGE_KEY := envelope_text (clock w) sessions]> (storage (probed w))
    /\ journal w'
       = journal (probed w) ++ [SetItem STORAGE_KEY (envelope_text (clock w) sessions)]
    /\ quota w' = quota w /\ clock w' = clock w /\ utc_offset w' = utc_offset w.
Proof.
  intros Ha Hok Hfit. unfold saveSessions. unfold mbind at 1, M_bind at 1, bind at 1.
  rewrite isStorageAvailable_true by assumption. cbv beta iota delta [negb].
  unfold try_catch.
  apply (blocking_from_nil sessions 0) in Hok. rewrite Hok.
  change (0 <? Z.of_nat (List.length (@nil ValidationError))) with false.
  cbv beta iota. unfold accepts in Hfit. unfold envelope_text in *.
  run. unfold Date_now, localStorage.setItem, console_warn.
  destruct (5 * 1024 * 1024 <? _); cbv beta iota zeta;
    change (clock (with_console (probed w) _)) with (clock w);
    change (storage (with_console (probed w) _)) with (storage (probed w));
    change (quota (with_console (probed w) _)) with (quota w);
    change (clock (probed w)) with (clock w);
    change (quota (probed w)) with (quota w);
    rewrite Hfit; eexists; repeat split.
Qed.

(** C1: a save of a list with an unacceptable record throws and leaves the
    storage as it was, up to the probe key of the availability test (the
    world is the one before the call or the one after the probe); a save of
    acceptable records that the medium accepts replaces the envelope by one
    whose [sessionCount] is the length of the list and whose [dataChecksum] is
    the checksum of the serialized list. *)
Theorem saveSessions_all_or_nothing (sessions : list object) (w : World) :
  (~ Forall acceptable sessions ->
   exists e w',
     saveSessions sessions w = (Throw e, w')
     /\ (w' = w \/ w' = probed w)
     /\ storage w' !! STORAGE_KEY = storage w !! STORAGE_KEY
     /\ forall k, k <> test_key -> storage w' !! k = storage w !! k)
  /\ (Forall acceptable sessions ->
      available w ->
      accepts w STORAGE_KEY (envelope_text (clock w) sessions) ->
      exists w',
        saveSessions sessions w = (Return tt, w')
        /\ storage w' !! STORAGE_KEY
           = JSON.stringify
               (VObj [("metadata",
                       VObj [("version", VStr CURRENT_VERSION);
                             ("lastModified", VDate (Some (clock w)));
                             ("sessionCount",
                              VNum (Number.of_Z (Z.of_nat (List.length sessions))));
                             ("dataChecksum",
                              VStr (generateChecksum
                                      (JSON.stringify_array (map VObj sessions))))]);
                      ("sessions", VArr (map VObj sessions))])
        /\ forall k, k <> test_key -> k <> STORAGE_KEY ->
                     storage w' !! k = storage w !! k).
Proof.
  split.
  - intros Hinv.
    destruct (localStorage.fits (quota w) (<[test_key := test_key]> (storage w))) eqn:Ha.
    + eexists; exists (probed w).
      split; [apply saveSessions_invalid; assumption | ].
      split; [right; reflexivity | ].
      split; [apply probed_lookup; discriminate | apply probed_lookup].
    + eexists; exists w.
      split; [apply saveSessions_unavailable; unfold available; congruence | ].
      split; [left; reflexivity | ]. split; reflexivity.
  - intros Hok Ha Hfit.
    destruct (saveSessions_valid sessions w Ha Hok Hfit) as [w' [Hrun [Hst _]]].
    exists w'. split; [exact Hrun | ]. rewrite Hst. split.
    + rewrite lookup_insert_eq. reflexivity.
    + intros k Hk1 Hk2. rewrite lookup_insert_ne by congruence.
      apply probed_lookup. assumption.
Qed.

Lemma saveSessions_all_or_nothing_witness :
  let w := Examples.stored_world in
  (exists e w',
     saveSessions [Examples.good_session; Examples.negative_session] w = (Throw e, w')
     /\ storage w' !! STORAGE_KEY = storage w !! STORAGE_KEY)
  /\ (exists w',
        saveSessions [Examples.good_session] w = (Return tt, w')
        /\ storage w' !! STORAGE_KEY
           = Some (envelope_text (clock w) [Examples.good_session])).
Proof.
  intros w.
  destruct (saveSessions_all_or_nothing
              [Examples.good_session; Examples.negative_session] w) as [H _].
  destruct (saveSessions_all_or_nothing [Examples.good_session] w) as [_ H'].
  split.
  - destruct H as [e [w' [Hrun [_ [Hkey _]]]]].
    + intros Hall. inversion Hall as [|? ? _ Hrest]; subst.
      inversion Hrest as [|? ? Hbad _]; subst. discriminate Hbad.
    + exists e, w'. split; assumption.
  - destruct H' as [w' [Hrun [Hkey _]]].
    + repeat constructor.
    + reflexivity.
    + reflexivity.
    + exists w'. split; assumption.
Defined.

(** ** Loading a stored envelope *)

Lemma with_logs_nil (w : World) : with_logs w [] = w.
Proof. destruct w. unfold with_logs. simpl. rewrite app_nil_r. reflexivity. Qed.

Lemma with_logs_app (w : World) (a b : list (LogLevel * string)) :
  with_logs (with_logs w a) b = with_logs w (a ++ b).
Proof. unfold with_logs. simpl. rewrite app_assoc. reflexivity. Qed.

Lemma with_console_logs (w : World) (e : LogLevel * string) :
  with_console w e = with_logs w [e].
Proof. reflexivity. Qed.

Lemma is_acceptable_row (session : object) (rowIndex : Z) :
  (0 <? Z.of_nat (List.length (blocking (validateSession session (Some rowIndex) false))))
  = negb (is_acceptable session).
Proof.
  unfold is_acceptable. rewrite validateSession_row, blocking_with_row.
  destruct (blocking (validateSession session None false)); reflexivity.
Qed.

Lemma is_acceptable_true (session : object) :
  is_acceptable session = true <-> acceptable session.
Proof.
  unfold is_acceptable, acceptable.
  destruct (blocking _); split; congruence.
Qed.

Lemma filter_valid_from_spec (sessions : list object) (index : Z) (w : World) :
  filter_valid_from index sessions w
  = (Return (accepted sessions), with_logs w (invalid_warnings index sessions)).
Proof.
  revert index w. induction sessions as [|s sessions IH]; intros index w.
  - simpl. rewrite with_logs_nil. reflexivity.
  - cbn [filter_valid_from]. rewrite is_acceptable_row.
    unfold accepted. cbn [List.filter invalid_warnings].
    destruct (is_acceptable s); cbv beta iota delta [negb]; run; unfold console_warn.
    + rewrite IH. reflexivity.
    + rewrite IH. rewrite with_console_logs, with_logs_app. reflexivity.
Qed.

Section Stored.

Variables (w : World) (stored : string) (data metadata dataChecksum : jsval)
          (items : list jsval) (revived : list object).

Hypothesis Havailable : available w.
Hypothesis Hstored : storage w !! STORAGE_KEY = Some stored.
Hypothesis Hparse : JSON.parse stored = Return data.
Hypothesis Hmetadata : JS.prop data "metadata" = Return metadata.
Hypothesis Htruthy : JS.truthy metadata = true.
Hypothesis Hsessions : JS.prop data "sessions" = Return (VArr items).
Hypothesis Hrevived : map_throwing revive items = Return revived.
Hypothesis Hchecksum : JS.prop metadata "dataChecksum" = Return dataChecksum.

Lemma stored_nonempty : stored <> EmptyString.
Proof using Hparse.
  intros H. pose proof Hparse as H'. rewrite H in H'. discriminate H'.
Qed.

(** A load of a well-formed envelope returns its acceptable records, and
    warns when the stored checksum is present and differs from the expected
    one. *)
Lemma loadSessions_stored :
  loadSessions w
  = (Return (accepted revived),
     with_logs (probed w)
       ((if JS.truthy dataChecksum
            && strict_ne_string dataChecksum (expected_checksum items)
         then [integrity_warning] else [])
        ++ invalid_warnings 0 revived)).
Proof using All.
  unfold loadSessions. unfold mbind at 1, M_bind at 1, bind at 1.
  rewrite isStorageAvailable_true by assumption. cbv beta iota delta [negb].
  unfold try_catch.
  unfold mbind at 1, M_bind at 1, bind at 1.
  unfold localStorage.getItem at 1. rewrite probed_lookup by discriminate.
  rewrite Hstored.
  pose proof stored_nonempty as Hne.
  destruct stored as [|c s]; [congruence | ].
  run. rewrite Hparse, Hmetadata, Htruthy, Hsessions.
  change (JS.truthy (VArr items)) with true. cbv beta iota delta [negb].
  unfold array_map. rewrite Hrevived, Hchecksum.
  change (default "undefined" (JSON.stringify (VArr items)))
    with (JSON.stringify_array items).
  fold (expected_checksum items).
  destruct (JS.truthy dataChecksum && _); unfold console_warn;
    rewrite filter_valid_from_spec; [ | reflexivity].
  rewrite with_console_logs, with_logs_app. reflexivity.
Qed.

End Stored.

Lemma integrity_warning_distinct (index : Z) (sessions : list object) :
  ~ In integrity_warning (invalid_warnings index sessions).
Proof.
  revert index. induction sessions as [|s sessions IH]; intros index; simpl; [tauto | ].
  rewrite List.in_app_iff. intros [H | H]; [ | exact (IH _ H)].
  destruct (is_acceptable s); [destruct H | ].
  destruct H as [H | []]. discriminate H.
Qed.


Lemma strict_ne_string_refl (s : string) : strict_ne_string (VStr s) s = false.
Proof. simpl. rewrite String.eqb_refl. reflexivity. Qed.

(** ** The environment is preserved *)

Lemma same_env_refl (w : World) : same_env w w.
Proof. repeat split. Qed.

Lemma same_env_trans (a b c : World) : same_env a b -> same_env b c -> same_env a c.
Proof. unfold same_env. intros [? [? ?]] [? [? ?]]. repeat split; congruence. Qed.

Lemma preserves_ret {A} (a : A) : preserves_env (ret a).
Proof. intros w. repeat split. Qed.

Lemma preserves_throw {A} (e : Error) : preserves_env (@throw A e).
Proof. intros w. repeat split. Qed.

Lemma preserves_lift {A} (o : outcome A) : preserves_env (lift o).
Proof. intros w. repeat split. Qed.

Lemma preserves_bind {A B} (m : M A) (f : A -> M B) :
  preserves_env m -> (forall a, preserves_env (f a)) -> preserves_env (m ≫= f).
Proof.
  intros Hm Hf w. run. specialize (Hm w).
  destruct (m w) as [[a | e] w1]; simpl in *; [ | assumption].
  eapply same_env_trans; [eassumption | apply Hf].
Qed.

Lemma preserves_try_catch {A} (m : M A) (h : Error -> M A) :
  preserves_env m -> (forall e, preserves_env (h e)) -> preserves_env (try_catch m h).
Proof.
  intros Hm Hh w. unfold try_catch. specialize (Hm w).
  destruct (m w) as [[a | e] w1]; simpl in *; [assumption | ].
  eapply same_env_trans; [eassumption | apply Hh].
Qed.

Lemma preserves_getItem (k : string) : preserves_env (localStorage.getItem k).
Proof. intros w. repeat split. Qed.

Lemma preserves_setItem (k v : string) : preserves_env (localStorage.setItem k v).
Proof.
  intros w. unfold localStorage.setItem.
  destruct (localStorage.fits _ _); repeat split.
Qed.

Lemma preserves_removeItem (k : string) : preserves_env (localStorage.removeItem k).
Proof. intros w. repeat split. Qed.

Lemma preserves_console_warn (s : string) : preserves_env (console_warn s).
Proof. intros w. repeat split. Qed.

Lemma preserves_console_error (s : string) : preserves_env (console_error s).
Proof. intros w. repeat split. Qed.

Lemma preserves_Date_now : preserves_env Date_now.
Proof. intros w. repeat split. Qed.

Ltac preserves :=
  repeat first
    [ apply preserves_ret | apply preserves_throw | apply preserves_lift
    | apply preserves_getItem | apply preserves_setItem | apply preserves_removeItem
    | apply preserves_console_warn | apply preserves_console_error
    | apply preserves_Date_now
    | apply preserves_bind | apply preserves_try_catch
    | progress intros
    | match goal with
      | |- preserves_env (if ?b then _ else _) => destruct b
      | |- preserves_env (match ?x with _ => _ end) => destruct x
      | |- preserves_env (let '(_, _) := ?x in _) => destruct x
      end ].

Lemma preserves_isStorageAvailable : preserves_env isStorageAvailable.
Proof. unfold isStorageAvailable. preserves. Qed.

Lemma preserves_migrateLegacyData : preserves_env migrateLegacyData.
Proof. unfold migrateLegacyData. preserves. Qed.

Lemma preserves_saveSessions (sessions : list object) :
  preserves_env (saveSessions sessions).
Proof.
  unfold saveSessions. apply preserves_bind; [apply preserves_isStorageAvailable | ].
  preserves.
Qed.

Lemma preserves_filter_valid_from (sessions : list object) (index : Z) :
  preserves_env (filter_valid_from index sessions).
Proof.
  intros w. rewrite filter_valid_from_spec. repeat split.
Qed.

Lemma preserves_loadSessions : preserves_env loadSessions.
Proof.
  unfold loadSessions. apply preserves_bind; [apply preserves_isStorageAvailable | ].
  intros available. destruct available; cbv beta iota delta [negb]; [ | preserves].
  apply preserves_try_catch.
  - apply preserves_bind; [apply preserves_getItem | ]. intros stored.
    assert (Hmig : preserves_env
              (migratedSessions ← migrateLegacyData;
               if 0 <? Z.of_nat (List.length migratedSessions)
               then saveSessions migratedSessions;; ret migratedSessions
               else ret [])).
    { apply preserves_bind; [apply preserves_migrateLegacyData | ]. intros l.
      destruct (0 <? _); [ | preserves].
      apply preserves_bind; [apply preserves_saveSessions | preserves]. }
    destruct stored as [[|c s]|]; try exact Hmig.
    repeat first
      [ apply preserves_filter_valid_from
      | apply preserves_bind; [preserves | intros ]
      | match goal with
        | |- preserves_env (if ?b then _ else _) => destruct b
        end
      | apply preserves_throw ].
  - intros e. apply preserves_bind; [preserves | intros; apply preserves_migrateLegacyData].
Qed.

(** ** Loaded sessions are acceptable *)

Lemma yields_ret {A} (P : A -> Prop) (a : A) : P a -> yields P (ret a).
Proof. intros H w a' w' Heq. injection Heq as <- _. assumption. Qed.

Lemma yields_throw {A} (P : A -> Prop) (e : Error) : yields P (throw e).
Proof. intros w a w' Heq. discriminate Heq. Qed.

Lemma yields_bind {A B} (P : B -> Prop) (m : M A) (f : A -> M B) :
  (forall a, yields P (f a)) -> yields P (m ≫= f).
Proof.
  intros Hf w b w'. run. destruct (m w) as [[a | e] w1]; [apply Hf | discriminate].
Qed.

Lemma yields_try_catch {A} (P : A -> Prop) (m : M A) (h : Error -> M A) :
  yields P m -> (forall e, yields P (h e)) -> yields P (try_catch m h).
Proof.
  intros Hm Hh w a w'. unfold try_catch. specialize (Hm w).
  destruct (m w) as [[a1 | e] w1]; [ | apply Hh].
  intros Heq. injection Heq as <- <-. eapply Hm. reflexivity.
Qed.

Lemma accepted_acceptable (sessions : list object) :
  Forall acceptable (accepted sessions).
Proof.
  apply List.Forall_forall. intros s Hs. apply List.filter_In in Hs.
  apply is_acceptable_true. tauto.
Qed.

Lemma validate_from_accepted (sessions : list object) (index : Z) :
  fst (validate_from index sessions) = accepted sessions.
Proof.
  revert index. induction sessions as [|s sessions IH]; intros index; [reflexivity | ].
  cbn [validate_from]. specialize (IH (index + 1)).
  destruct (validate_from (index + 1) sessions) as [valid allErrors].
  simpl in IH. subst valid. cbn [fst accepted List.filter].
  rewrite zero_length.
  pose proof (acceptable_row s (index + 1)) as Hrow.
  pose proof (is_acceptable_true s) as Hacc.
  destruct (is_acceptable s).
  - rewrite bool_decide_eq_true_2; [reflexivity | ]. apply Hrow, Hacc. reflexivity.
  - rewrite bool_decide_eq_false_2; [reflexivity | ].
    intros H. apply Hrow, Hacc in H. discriminate.
Qed.

Lemma migrateLegacyData_acceptable : yields (Forall acceptable) migrateLegacyData.
Proof.
  unfold migrateLegacyData. apply yields_try_catch.
  - apply yields_bind. intros [[|c s]|]; try (apply yields_ret; constructor).
    apply yields_bind. intros sessions. apply yields_bind. intros migrated.
    pose proof (validate_from_accepted migrated 0) as Hv.
    destruct (validate_from 0 migrated) as [valid allErrors]. simpl in Hv. subst valid.
    apply yields_bind. intros _. apply yields_bind. intros _.
    apply yields_ret. apply accepted_acceptable.
  - intros e. apply yields_bind. intros _. apply yields_ret. constructor.
Qed.

Lemma loadSessions_acceptable : yields (Forall acceptable) loadSessions.
Proof.
  unfold loadSessions. apply yields_bind. intros [|]; cbv beta iota delta [negb].
  - apply yields_try_catch.
    + apply yields_bind. intros stored.
      assert (Hmig : yields (Forall acceptable)
                (migratedSessions ← migrateLegacyData;
                 if 0 <? Z.of_nat (List.length migratedSessions)
                 then saveSessions migratedSessions;; ret migratedSessions
                 else ret [])).
      { intros w a w'. run.
        destruct (migrateLegacyData w) as [[l | e] w1] eqn:Hm; [ | discriminate].
        apply migrateLegacyData_acceptable in Hm.
        destruct (0 <? _).
        - destruct (saveSessions l w1) as [[[] | e] w2]; [ | discriminate].
          intros Heq. injection Heq as <- _. assumption.
        - intros Heq. injection Heq as <- _. constructor. }
      destruct stored as [[|c s]|]; try exact Hmig.
      apply yields_bind. intros data. apply yields_bind. intros metadata.
      destruct (JS.truthy metadata); [ | apply yields_throw].
      apply yields_bind. intros data_sessions.
      destruct (JS.truthy data_sessions); [ | apply yields_throw].
      apply yields_bind. intros sessions. apply yields_bind. intros dataChecksum.
      apply yields_bind. intros _.
      intros w a w'. rewrite filter_valid_from_spec. intros Heq. injection Heq as <- _.
      apply accepted_acceptable.
    + intros e. apply yields_bind. intros _. apply migrateLegacyData_acceptable.
  - apply yields_bind. intros _. apply yields_ret. constructor.
Qed.

(** ** Statistics *)

Lemma acceptable_completed (session : object) :
  acceptable session -> JS.is_boolean (Obj.get session "completed") = true.
Proof.
  unfold acceptable, validateSession. rewrite !blocking_app. intros H.
  repeat (apply app_eq_nil in H; destruct H as [_ H]).
  destruct (JS.is_boolean (Obj.get session "completed")); [reflexivity | discriminate H].
Qed.

Lemma count_completed (bound : Z) (sessions : list object) :
  Forall acceptable sessions ->
  Z.of_nat (List.length
    (List.filter (fun s => JS.time_ge (date_value (Obj.get s "startTime")) (Some bound))
       (List.filter (fun s => JS.truthy (Obj.get s "completed")) sessions)))
  = count_since bound sessions.
Proof.
  unfold count_since. intros Hall. f_equal. f_equal.
  induction Hall as [|s sessions Hs _ IH]; [reflexivity | ].
  apply acceptable_completed in Hs. cbn [List.filter]. unfold completed_since at 1.
  destruct (Obj.get s "completed") as [| |b| | | | |]; try discriminate Hs.
  destruct b; cbn [JS.truthy List.filter]; [ | exact IH].
  destruct (Obj.get s "startTime") as [| | | | |[t|]| |]; cbn [date_value JS.time_ge];
    rewrite ?IH; reflexivity.
Qed.

Lemma TimeClip_valid (t : Z) :
  - Date.maxTime <= t <= Date.maxTime -> Date.TimeClip t = Some t.
Proof.
  intros H. unfold Date.TimeClip.
  rewrite (proj2 (Z.leb_le (Z.abs t) Date.maxTime)) by lia. reflexivity.
Qed.

(** C7: the three counts of [getSessionStats] are the numbers of loaded
    sessions that are completed and start at or after the local midnight of
    the current day, that midnight minus 7 days, and that midnight minus 30
    days; a session that is not completed is counted in none of them. *)
Theorem getSessionStats_counts (w : World) :
  let today := Date.local_midnight (utc_offset w) (clock w) in
  - Date.maxTime + days 30 <= today <= Date.maxTime ->
  exists sessions w',
    loadSessions w = (Return sessions, w')
    /\ getSessionStats w
       = (Return (mkSessionStats (count_since today sessions)
                    (count_since (today - days 7) sessions)
                    (count_since (today - days 30) sessions)),
          w')
    /\ forall bound s,
         Obj.get s "completed" <> VBool true -> completed_since bound s = false.
Proof.
  intros today Hrange.
  destruct (loadSessions_returns w) as [sessions [w' Hload]].
  exists sessions, w'. split; [exact Hload | ]. split.
  - pose proof (loadSessions_acceptable _ _ _ Hload) as Hacc.
    pose proof (preserves_loadSessions w) as Henv. rewrite Hload in Henv.
    destruct Henv as [_ [Hclock Hoffset]]. simpl in Hclock, Hoffset.
    unfold getSessionStats. run. rewrite Hload. unfold Date_now, Date_offset.
    rewrite Hclock, Hoffset. fold today.
    unfold days in Hrange.
    rewrite (TimeClip_valid today) by lia. cbn [mbind option_bind].
    rewrite (TimeClip_valid (today - 7 * 24 * 60 * 60 * 1000)) by lia.
    rewrite (TimeClip_valid (today - 30 * 24 * 60 * 60 * 1000)) by lia.
    rewrite !count_completed by assumption. reflexivity.
  - intros bound s Hs. unfold completed_since.
    destruct (Obj.get s "completed") as [| |[|]| | | | |]; try reflexivity. congruence.
Qed.

Lemma getSessionStats_counts_witness :
  exists w', getSessionStats Examples.stats_world = (Return (mkSessionStats 1 2 2), w').
Proof.
  destruct (getSessionStats_counts Examples.stats_world) as [sessions [w' [Hload [Hstats _]]]].
  - vm_compute. split; discriminate.
  - exists w'. rewrite Hstats.
    assert (Hs : Return sessions = fst (loadSessions Examples.stats_world))
      by (rewrite Hload; reflexivity).
    vm_compute in Hs. injection Hs as ->. reflexivity.
Defined.

(** ** Legacy migration *)

Section Migration.

Variables (w : World) (legacy : string) (items : list jsval) (revived : list object).

Hypothesis Hlegacy : storage w !! LEGACY_SESSIONS_KEY = Some legacy.
Hypothesis Hparse : JSON.parse legacy = Return (VArr items).
Hypothesis Hrevived : map_throwing revive items = Return revived.

Lemma migrateLegacyData_migrates :
  migrateLegacyData (probed w) = (Return (accepted revived), migrated_world w revived).
Proof using All.
  unfold migrateLegacyData, try_catch.
  unfold mbind at 1, M_bind at 1, bind at 1.
  unfold localStorage.getItem at 1. rewrite probed_lookup by discriminate.
  rewrite Hlegacy.
  assert (Hne : legacy <> EmptyString).
  { intros H. pose proof Hparse as H'. rewrite H in H'. discriminate H'. }
  destruct legacy as [|c s]; [congruence | ].
  run. rewrite Hparse. unfold array_map. rewrite Hrevived.
  pose proof (validate_from_accepted revived 0) as Hv.
  unfold migrated_world.
  destruct (validate_from 0 revived) as [valid allErrors]. simpl in Hv. subst valid.
  cbn [snd]. unfold localStorage.removeItem, console_warn.
  destruct (0 <? Z.of_nat (List.length allErrors)).
  - reflexivity.
  - rewrite with_logs_nil. reflexivity.
Qed.

Hypothesis Havailable : available w.
Hypothesis Hnone : storage w !! STORAGE_KEY = None.
Hypothesis Hsome : accepted revived <> [].

Let w1 := migrated_world w revived.
Let text := envelope_text (clock w) (accepted revived).

Hypothesis Havailable1 : available w1.
Hypothesis Haccepts : accepts w1 STORAGE_KEY text.

Lemma loadSessions_migrates :
  exists w',
    loadSessions w = (Return (accepted revived), w')
    /\ journal w'
       = journal w
         ++ [SetItem test_key test_key; RemoveItem test_key;
             RemoveItem LEGACY_SESSIONS_KEY;
             SetItem test_key test_key; RemoveItem test_key;
             SetItem STORAGE_KEY text]
    /\ storage w' !! LEGACY_SESSIONS_KEY = None
    /\ storage w' !! STORAGE_KEY = Some text.
Proof using All.
  assert (Hclock : clock w1 = clock w) by reflexivity.
  destruct (saveSessions_valid (accepted revived) w1 Havailable1
              (accepted_acceptable revived))
    as [w' [Hsave [Hst [Hj _]]]].
  { rewrite Hclock. exact Haccepts. }
  exists w'. split; [ | split; [ | split]].
  - unfold loadSessions. unfold mbind at 1, M_bind at 1, bind at 1.
    rewrite isStorageAvailable_true by assumption. cbv beta iota delta [negb].
    unfold try_catch.
    unfold mbind at 1, M_bind at 1, bind at 1.
    unfold localStorage.getItem at 1. rewrite probed_lookup by discriminate.
    rewrite Hnone.
    unfold mbind at 1, M_bind at 1, bind at 1.
    rewrite migrateLegacyData_migrates.
    rewrite positive_length_true by assumption.
    fold w1. run. rewrite Hsave. reflexivity.
  - rewrite Hj, Hclock. fold text. unfold w1, migrated_world, probed. simpl.
    rewrite <- !app_assoc. reflexivity.
  - rewrite Hst. rewrite lookup_insert_ne by discriminate.
    rewrite probed_lookup by discriminate.
    unfold w1, migrated_world. simpl. apply lookup_delete_eq.
  - rewrite Hst. rewrite lookup_insert_eq. rewrite Hclock. reflexivity.
Qed.

End Migration.

(** C3: the code deletes the legacy key before the migrated records are
    written.  [migrateLegacyData] removes the key itself, and [loadSessions]
    saves only after it has returned: after the third mutation of a migrating
    load the storage holds neither the legacy key nor an envelope.  When the
    medium then refuses the write (room for 200 code units: enough for the
    probe, not for the envelope), the load returns no session and ends in
    that state, the legacy sessions being stored nowhere. *)
Lemma legacy_deleted_before_write :
  (let w := Examples.legacy_world None in
   let w' := snd (loadSessions w) in
   let reached := storage_after (storage w) (take 3 (journal w')) in
   storage w !! LEGACY_SESSIONS_KEY = Some Examples.legacy_text
   /\ take 3 (journal w')
      = [SetItem test_key test_key; RemoveItem test_key;
         RemoveItem LEGACY_SESSIONS_KEY]
   /\ reached !! LEGACY_SESSIONS_KEY = None
   /\ reached !! STORAGE_KEY = None)
  /\ (let w := Examples.legacy_world (Some 200) in
      let w' := snd (loadSessions w) in
      available w
      /\ fst (loadSessions w) = Return []
      /\ storage w' !! LEGACY_SESSIONS_KEY = None
      /\ storage w' !! STORAGE_KEY = None).
Proof. vm_compute. repeat split. Qed.

(** ** Strings *)

Lemma append_nil_r (s : string) : s +:+ EmptyString = s.
Proof. induction s as [|c s IH]; [reflexivity | rewrite append_cons, IH; reflexivity]. Qed.

Lemma length_append (a b : string) :
  String.length (a +:+ b) = (String.length a + String.length b)%nat.
Proof.
  induction a as [|c a IH]; [reflexivity | ].
  rewrite append_cons. simpl. rewrite IH. reflexivity.
Qed.

(** ** Decimal digits *)

Lemma digit_char_digit (d : Z) :
  0 <= d < 10 ->
  Digits.is_digit (Digits.digit_char d) = true
  /\ Digits.digit_val (Digits.digit_char d) = d.
Proof.
  intros H. rewrite <- (Z2Nat.id d) by lia.
  assert (Hk : (Z.to_nat d < 10)%nat) by lia.
  revert Hk. generalize (Z.to_nat d). intros k Hk.
  do 10 (destruct k as [|k]; [split; reflexivity | ]). lia.
Qed.

Lemma to_Z_acc_append (s t : string) (acc : Z) :
  Digits.to_Z_acc (s +:+ t) acc = Digits.to_Z_acc t (Digits.to_Z_acc s acc).
Proof.
  revert acc. induction s as [|c s IH]; intros acc; [reflexivity | ].
  rewrite append_cons. simpl. apply IH.
Qed.

Lemma all_digits_append (s t : string) :
  Digits.all_digits (s +:+ t) = Digits.all_digits s && Digits.all_digits t.
Proof.
  induction s as [|c s IH]; [reflexivity | ].
  rewrite append_cons. simpl. rewrite IH. apply andb_assoc.
Qed.

Lemma digits_aux_acc (fuel : nat) (n : Z) (acc : string) :
  Digits.digits_aux 10 fuel n acc = Digits.digits_aux 10 fuel n EmptyString +:+ acc.
Proof.
  revert n acc. induction fuel as [|fuel IH]; intros n acc; [reflexivity | ].
  simpl. destruct (n <? 10); [reflexivity | ].
  rewrite (IH (n / 10) (String _ acc)), (IH (n / 10) (String _ EmptyString)).
  rewrite append_assoc. reflexivity.
Qed.

(** The decimal digits of [n], given enough fuel. *)
Lemma digits_aux_spec (fuel : nat) (n : Z) :
  (0 < fuel)%nat ->
  0 <= n < 10 ^ Z.of_nat fuel ->
  let ds := Digits.digits_aux 10 fuel n EmptyString in
  Digits.all_digits ds = true
  /\ (forall acc, Digits.to_Z_acc ds acc = acc * 10 ^ Z.of_nat (String.length ds) + n)
  /\ (String.length ds <= fuel)%nat
  /\ (0 < String.length ds)%nat
  /\ (forall s, ds = String "0" s -> n = 0 /\ s = EmptyString)
  /\ (forall d, (0 < d)%nat -> n < 10 ^ Z.of_nat d -> (String.length ds <= d)%nat).
Proof.
  revert n. induction fuel as [|fuel IH]; intros n Hfuel Hn.
  - lia.
  - cbn [Digits.digits_aux]. cbv zeta.
    destruct (Z.ltb_spec n 10) as [Hlt | Hge].
    + destruct (digit_char_digit (n mod 10)) as [Hd Hv];
        [apply Z.mod_pos_bound; lia | ].
      rewrite Z.mod_small in * by lia.
      split; [ | split; [ | split; [ | split; [ | split]]]].
      * simpl. rewrite Hd. reflexivity.
      * intros acc. simpl. rewrite Hv. lia.
      * simpl. lia.
      * simpl. lia.
      * intros s Hs. injection Hs as Hc <-. split; [ | reflexivity].
        rewrite <- Hv, Hc. reflexivity.
      * intros d Hd0 _. simpl. lia.
    + rewrite digits_aux_acc.
      assert (Hq : 0 <= n / 10 < 10 ^ Z.of_nat fuel).
      { split; [apply Z.div_pos; lia | ].
        apply Z.div_lt_upper_bound; [lia | ].
        replace (Z.of_nat (S fuel)) with (Z.of_nat fuel + 1) in Hn by lia.
        rewrite Z.pow_add_r in Hn by lia. lia. }
      assert (Hf : (0 < fuel)%nat).
      { destruct fuel; [ | lia]. simpl in Hq. assert (n / 10 > 0); [ | lia].
        apply Z.lt_gt, Z.div_str_pos. lia. }
      destruct (IH (n / 10) Hf Hq) as [Hall [Hval [Hlen [Hpos [Hzero Hbound]]]]].
      set (ds := Digits.digits_aux 10 fuel (n / 10) EmptyString) in *.
      destruct (digit_char_digit (n mod 10)) as [Hd Hv];
        [apply Z.mod_pos_bound; lia | ].
      split; [ | split; [ | split; [ | split; [ | split]]]].
      * rewrite all_digits_append, Hall. simpl. rewrite Hd. reflexivity.
      * intros acc. rewrite to_Z_acc_append, Hval. simpl. rewrite Hv.
        rewrite length_append. simpl.
        replace (Z.of_nat (String.length ds + 1)) with (Z.of_nat (String.length ds) + 1)
          by lia.
        rewrite Z.pow_add_r by lia.
        pose proof (Z.div_mod n 10 ltac:(lia)). lia.
      * rewrite length_append. simpl. lia.
      * rewrite length_append. simpl. lia.
      * intros s Hs. destruct ds as [|c ds']; [simpl in Hpos; lia | ].
        rewrite append_cons in Hs. injection Hs as -> _.
        destruct (Hzero ds' eq_refl) as [Hz _].
        assert (n / 10 > 0) by (apply Z.lt_gt, Z.div_str_pos; lia). lia.
      * intros d Hd0 Hnd. rewrite length_append. simpl.
        destruct d as [|[|d]]; [lia | simpl in Hnd; lia | ].
        assert (String.length ds <= S d)%nat; [ | lia].
        apply Hbound; [lia | ].
        apply Z.div_lt_upper_bound; [lia | ].
        replace (Z.of_nat (S (S d))) with (Z.of_nat (S d) + 1) in Hnd by lia.
        rewrite Z.pow_add_r in Hnd by lia. lia.
Qed.

Lemma of_nonneg_spec (n : Z) :
  0 <= n ->
  let ds := Digits.of_nonneg n in
  Digits.all_digits ds = true
  /\ (forall acc, Digits.to_Z_acc ds acc = acc * 10 ^ Z.of_nat (String.length ds) + n)
  /\ (0 < String.length ds)%nat
  /\ (forall s, ds = String "0" s -> n = 0 /\ s = EmptyString)
  /\ (forall d, (0 < d)%nat -> n < 10 ^ Z.of_nat d -> (String.length ds <= d)%nat).
Proof.
  intros Hn. unfold Digits.of_nonneg, Digits.of_Z_radix.
  destruct (digits_aux_spec (S (Z.to_nat (Z.log2 n))) n) as [H1 [H2 [_ [H4 [H5 H6]]]]];
    [lia | | tauto].
  split; [assumption | ].
  destruct (Z.eq_dec n 0) as [-> | Hnz]; [simpl; lia | ].
  destruct (Z.log2_spec n ltac:(lia)) as [_ Hup].
  assert (Hlog : 0 <= Z.log2 n) by apply Z.log2_nonneg.
  replace (Z.of_nat (S (Z.to_nat (Z.log2 n)))) with (Z.succ (Z.log2 n)) by lia.
  eapply Z.lt_le_trans; [exact Hup | ].
  apply Z.pow_le_mono_l. lia.
Qed.

Lemma to_Z_of_nonneg (n : Z) : 0 <= n -> Digits.to_Z (Digits.of_nonneg n) = n.
Proof.
  intros Hn. destruct (of_nonneg_spec n Hn) as [_ [H _]].
  unfold Digits.to_Z. rewrite H. lia.
Qed.

Lemma int_ok_of_nonneg (n : Z) : 0 <= n -> JSON.int_ok (Digits.of_nonneg n) = true.
Proof.
  intros Hn. destruct (of_nonneg_spec n Hn) as [_ [_ [Hpos [Hzero _]]]].
  destruct (Digits.of_nonneg n) as [|c s]; [simpl in Hpos; lia | ].
  unfold JSON.int_ok.
  destruct (Ascii.eqb_spec c "0") as [-> | Hc].
  - destruct (Hzero s eq_refl) as [_ ->]. reflexivity.
  - destruct c as [[|] [|] [|] [|] [|] [|] [|] [|]]; try reflexivity;
      destruct s; try reflexivity; congruence.
Qed.

(** ** Reading digits back *)

Lemma span_digits_append (ds rest : string) :
  Digits.all_digits ds = true ->
  match rest with
  | EmptyString => True
  | String c _ => Digits.is_digit c = false
  end ->
  JSON.span_digits (ds +:+ rest) = (ds, rest).
Proof.
  intros Hds Hrest. induction ds as [|c ds IH].
  - rewrite append_nil. destruct rest as [|c r]; [reflexivity | ].
    simpl. rewrite Hrest. reflexivity.
  - rewrite append_cons. simpl in *.
    apply andb_true_iff in Hds. destruct Hds as [Hc Hds].
    rewrite Hc, (IH Hds). reflexivity.
Qed.

Lemma take_digits_append (ds rest : string) (acc : Z) :
  Digits.all_digits ds = true ->
  Date.take_digits (String.length ds) (ds +:+ rest) acc
  = Some (Digits.to_Z_acc ds acc, rest).
Proof.
  revert acc. induction ds as [|c ds IH]; intros acc Hds; [reflexivity | ].
  rewrite append_cons. simpl in *.
  apply andb_true_iff in Hds. destruct Hds as [Hc Hds].
  rewrite Hc. apply IH. assumption.
Qed.

Lemma zeros_digits (k : nat) :
  Digits.all_digits (string_of_list_ascii (repeat "0"%char k)) = true
  /\ String.length (string_of_list_ascii (repeat "0"%char k)) = k
  /\ forall acc, acc = 0 ->
       Digits.to_Z_acc (string_of_list_ascii (repeat "0"%char k)) acc = 0.
Proof.
  induction k as [|k [IH1 [IH2 IH3]]]; simpl; [repeat split; auto | ].
  split; [exact IH1 | ]. split; [congruence | ].
  intros acc ->. apply IH3. reflexivity.
Qed.

(** [n] written with exactly [k] digits. *)
Lemma pad_spec (k : nat) (n : Z) :
  (0 < k)%nat -> 0 <= n < 10 ^ Z.of_nat k ->
  let ds := Digits.pad k (Digits.of_nonneg n) in
  Digits.all_digits ds = true
  /\ String.length ds = k
  /\ Digits.to_Z_acc ds 0 = n.
Proof.
  intros Hk Hn. destruct (of_nonneg_spec n ltac:(lia)) as [H1 [H2 [_ [_ H5]]]].
  specialize (H5 k Hk ltac:(lia)). unfold Digits.pad.
  destruct (zeros_digits (k - String.length (Digits.of_nonneg n))) as [Z1 [Z2 Z3]].
  split; [ | split].
  - rewrite all_digits_append, Z1, H1. reflexivity.
  - rewrite length_append, Z2. lia.
  - rewrite to_Z_acc_append, Z3 by reflexivity. rewrite H2. lia.
Qed.

(** ** Dates *)

Lemma check_range_spec (check : Z -> bool) (n : nat) (z : Z) :
  check_range check n z = true ->
  forall k, z <= k < z + Z.of_nat n -> check k = true.
Proof.
  revert z. induction n as [|n IH]; intros z H k Hk; [lia | ].
  simpl in H. apply andb_true_iff in H. destruct H as [Hz Hrest].
  destruct (Z.eq_dec k z) as [-> | Hne]; [assumption | ].
  apply (IH (z + 1) Hrest). lia.
Qed.

Lemma era_days_checked : check_range check_era_day (Z.to_nat 146097) 0 = true.
Proof. vm_compute. reflexivity. Qed.

Lemma civil_of_era_day_spec (doe : Z) :
  0 <= doe < 146097 ->
  let '(yoe, m, d) := Date.civil_of_era_day doe in
  0 <= yoe <= 399 /\ 1 <= m <= 12 /\ 1 <= d <= 31
  /\ Date.era_day_of_civil yoe m d = doe.
Proof.
  intros H.
  pose proof (check_range_spec _ _ _ era_days_checked doe ltac:(lia)) as Hc.
  unfold check_era_day in Hc.
  destruct (Date.civil_of_era_day doe) as [[yoe m] d].
  repeat (apply andb_true_iff in Hc; destruct Hc as [Hc ?]).
  lia.
Qed.

Lemma civil_from_days_spec (z : Z) :
  let '(y, m, d) := Date.civil_from_days z in
  Date.days_from_civil y m d = z
  /\ 1 <= m <= 12 /\ 1 <= d <= 31
  /\ (z + 719468) / 146097 * 400 <= y <= (z + 719468) / 146097 * 400 + 400.
Proof.
  unfold Date.civil_from_days.
  pose proof (Z.mod_pos_bound (z + 719468) 146097 ltac:(lia)) as Hdoe.
  pose proof (civil_of_era_day_spec _ Hdoe) as Hc.
  destruct (Date.civil_of_era_day ((z + 719468) mod 146097)) as [[yoe m] d].
  destruct Hc as [Hyoe [Hm [Hd Hback]]].
  set (era := (z + 719468) / 146097) in *.
  assert (Hy : forall y', y' = yoe + era * 400 -> y' / 400 = era /\ y' mod 400 = yoe).
  { intros y' ->. rewrite Z.div_add, Z.mod_add by lia.
    rewrite Z.div_small, Z.mod_small by lia. lia. }
  unfold Date.days_from_civil.
  assert (Hz : era * 146097 + (z + 719468) mod 146097 = z + 719468).
  { unfold era. pose proof (Z.div_mod (z + 719468) 146097 ltac:(lia)). lia. }
  destruct (Z.leb_spec m 2).
  - destruct (Hy (yoe + era * 400 + 1 - 1) ltac:(lia)) as [-> ->].
    rewrite Hback. lia.
  - destruct (Hy (yoe + era * 400) eq_refl) as [-> ->].
    rewrite Hback. lia.
Qed.

Lemma take_pad (k : nat) (n : Z) (rest : string) :
  (0 < k)%nat -> 0 <= n < 10 ^ Z.of_nat k ->
  Date.take_digits k (Digits.pad k (Digits.of_nonneg n) +:+ rest) 0 = Some (n, rest).
Proof.
  intros Hk Hn. destruct (pad_spec k n Hk Hn) as [H1 [H2 H3]].
  rewrite <- H2 at 1. rewrite take_digits_append by assumption. rewrite H3. reflexivity.
Qed.

Lemma digit_not_sign (c : ascii) :
  Digits.is_digit c = true -> Ascii.eqb c "+" = false /\ Ascii.eqb c "-" = false.
Proof.
  intros H. split.
  - destruct (Ascii.eqb_spec c "+") as [-> | _]; [discriminate H | reflexivity].
  - destruct (Ascii.eqb_spec c "-") as [-> | _]; [discriminate H | reflexivity].
Qed.

Lemma parse_year_string (y : Z) (rest : string) :
  - 999999 <= y <= 999999 ->
  Date.parse_year (Date.year_string y +:+ rest) = Some (y, rest).
Proof.
  intros Hy. unfold Date.year_string.
  destruct ((0 <=? y) && (y <=? 9999)) eqn:Hsmall.
  - apply andb_true_iff in Hsmall. destruct Hsmall as [H0 H1].
    apply Z.leb_le in H0, H1.
    pose proof (take_pad 4 y rest ltac:(lia) ltac:(simpl; lia)) as Htake.
    destruct (pad_spec 4 y ltac:(lia) ltac:(simpl; lia)) as [Hall [Hlen _]].
    destruct (Digits.pad 4 (Digits.of_nonneg y)) as [|c s]; [discriminate Hlen | ].
    simpl in Hall. apply andb_true_iff in Hall. destruct Hall as [Hc _].
    destruct (digit_not_sign c Hc) as [Hplus Hminus].
    rewrite append_cons in *. unfold Date.parse_year. rewrite Hplus, Hminus.
    exact Htake.
  - apply andb_false_iff in Hsmall.
    assert (Habs : 0 <= Z.abs y < 10 ^ Z.of_nat 6) by (simpl; lia).
    pose proof (take_pad 6 (Z.abs y) rest ltac:(lia) Habs) as Htake.
    rewrite append_cons. unfold Date.parse_year.
    destruct (Z.ltb_spec y 0) as [Hneg | Hpos].
    + cbn [Ascii.eqb Bool.eqb]. rewrite Htake. cbn [mbind option_bind].
      destruct (Z.eqb_spec (Z.abs y) 0); [lia | ]. f_equal. f_equal. lia.
    + cbn [Ascii.eqb Bool.eqb]. rewrite Htake. f_equal. f_equal.
      destruct Hsmall as [H | H]; [apply Z.leb_gt in H | apply Z.leb_gt in H]; lia.
Qed.

Ltac Zify.zify_post_hook ::= Z.to_euclidean_division_equations.

Lemma time_of_day_fields (ms : Z) :
  0 <= ms < Date.msPerDay ->
  0 <= ms / 3600000 <= 23 /\ 0 <= ms / 60000 mod 60 <= 59
  /\ 0 <= ms / 1000 mod 60 <= 59 /\ 0 <= ms mod 1000 <= 999
  /\ ms / 3600000 * 3600000 + ms / 60000 mod 60 * 60000
     + ms / 1000 mod 60 * 1000 + ms mod 1000 = ms.
Proof. unfold Date.msPerDay. intros H. lia. Qed.

Lemma civil_year_bound (t : Z) :
  Z.abs t <= Date.maxTime ->
  - 999998 <= (t / Date.msPerDay + 719468) / 146097 * 400
  /\ (t / Date.msPerDay + 719468) / 146097 * 400 + 400 <= 999999.
Proof. unfold Date.maxTime, Date.msPerDay. intros H. lia. Qed.

Lemma days_and_time (t : Z) :
  t / Date.msPerDay * Date.msPerDay + t mod Date.msPerDay = t
  /\ 0 <= t mod Date.msPerDay < Date.msPerDay.
Proof. unfold Date.msPerDay. lia. Qed.

Ltac Zify.zify_post_hook ::= idtac.

Lemma parse_time_fields (h mi sec ms : Z) :
  0 <= h <= 23 -> 0 <= mi <= 59 -> 0 <= sec <= 59 -> 0 <= ms <= 999 ->
  Date.parse_time
    (Date.pad2 h +:+ ":" +:+ Date.pad2 mi +:+ ":" +:+ Date.pad2 sec +:+ "."
       +:+ Date.pad3 ms +:+ "Z")
  = Some (h * 3600000 + mi * 60000 + sec * 1000 + ms).
Proof.
  intros Hh Hmi Hsec Hms. unfold Date.parse_time, Date.pad2, Date.pad3.
  rewrite !append_cons, !append_nil.
  rewrite (take_pad 2 h) by (simpl; lia).
  cbn [mbind option_bind Date.expect Ascii.eqb Bool.eqb].
  rewrite (take_pad 2 mi) by (simpl; lia).
  cbn [mbind option_bind Date.expect Ascii.eqb Bool.eqb].
  rewrite (take_pad 2 sec) by (simpl; lia).
  cbn [mbind option_bind Date.expect Ascii.eqb Bool.eqb].
  rewrite (take_pad 3 ms) by (simpl; lia).
  cbn [mbind option_bind Date.expect Ascii.eqb Bool.eqb].
  rewrite (proj2 (Z.leb_le h 23)), (proj2 (Z.leb_le mi 59)), (proj2 (Z.leb_le sec 59))
    by lia.
  reflexivity.
Qed.

(** A time value is read back from its ISO string. *)
Lemma parse_toISOString (t : Z) :
  Z.abs t <= Date.maxTime -> Date.parse (Date.toISOString t) = Some t.
Proof.
  intros Ht. unfold Date.toISOString.
  pose proof (civil_from_days_spec (t / Date.msPerDay)) as Hc.
  pose proof (civil_year_bound t Ht) as Hyear.
  destruct (days_and_time t) as [Hsplit Hms].
  destruct (time_of_day_fields _ Hms) as [Hh [Hmi [Hsec [Hmilli Htod]]]].
  destruct (Date.civil_from_days (t / Date.msPerDay)) as [[y m] d] eqn:Hcivil.
  destruct Hc as [Hdays [Hm [Hd Hy]]].
  unfold Date.parse. rewrite !append_cons, !append_nil.
  rewrite parse_year_string by lia.
  cbn [mbind option_bind Date.expect Ascii.eqb Bool.eqb].
  unfold Date.pad2 at 1. rewrite (take_pad 2 m) by (simpl; lia).
  cbn [mbind option_bind Date.expect Ascii.eqb Bool.eqb].
  unfold Date.pad2 at 1. rewrite (take_pad 2 d) by (simpl; lia).
  cbn [mbind option_bind Date.expect Ascii.eqb Bool.eqb].
  pose proof (parse_time_fields _ _ _ _ Hh Hmi Hsec Hmilli) as Htime.
  rewrite !append_cons, !append_nil in Htime. rewrite Htime.
  cbn [mbind option_bind].
  rewrite Hdays, Hcivil.
  rewrite (proj2 (Z.leb_le 1 m)), (proj2 (Z.leb_le m 12)), (proj2 (Z.leb_le 1 d)) by lia.
  rewrite bool_decide_eq_true_2 by reflexivity. cbn [andb].
  rewrite Htod, Hsplit. unfold Date.TimeClip.
  rewrite (proj2 (Z.leb_le _ _) Ht). reflexivity.
Qed.

(** ** JSON texts of strings and numbers *)

Lemma parse_string_escape (c : ascii) (t : string) :
  JSON.parse_string (JSON.escape c +:+ t)
  = '(u, r) ← JSON.parse_string t; Some (String c u, r).
Proof. destruct c as [[|] [|] [|] [|] [|] [|] [|] [|]]; reflexivity. Qed.

Lemma parse_string_quote (s rest : string) :
  JSON.parse_string (JSON.escape_all s +:+ String JSON.dquote rest) = Some (s, rest).
Proof.
  induction s as [|c s IH]; [reflexivity | ].
  simpl. rewrite append_assoc, parse_string_escape, IH. reflexivity.
Qed.

Lemma to_Z_acc_shift (s : string) (acc : Z) :
  Digits.to_Z_acc s acc
  = acc * 10 ^ Z.of_nat (String.length s) + Digits.to_Z_acc s 0.
Proof.
  revert acc. induction s as [|c s IH]; intros acc; [simpl; lia | ].
  simpl Digits.to_Z_acc. rewrite (IH (10 * acc + _)), (IH (10 * 0 + _)).
  replace (Z.of_nat (String.length (String c s))) with (Z.of_nat (String.length s) + 1)
    by (simpl; lia).
  rewrite Z.pow_add_r by lia. lia.
Qed.

Lemma normalize_spec (m : Z) (d : nat) :
  let '(m', d') := Number.normalize m d in d' = O \/ m' mod 10 <> 0.
Proof.
  revert m. induction d as [|d IH]; intros m; simpl; [left; reflexivity | ].
  destruct (Z.eqb_spec (m mod 10) 0); [apply IH | right; assumption].
Qed.

Lemma normalize_sign (m : Z) (d : nat) :
  (fst (Number.normalize m d) <=? 0) = (m <=? 0).
Proof.
  revert m. induction d as [|d IH]; intros m; simpl; [reflexivity | ].
  destruct (Z.eqb_spec (m mod 10) 0) as [H | H]; [ | reflexivity].
  rewrite IH. pose proof (Z.div_mod m 10 ltac:(lia)).
  destruct (Z.leb_spec (m / 10) 0), (Z.leb_spec m 0); try reflexivity; lia.
Qed.

Lemma canon_idem (n : number) : Number.canon (Number.canon n) = Number.canon n.
Proof.
  destruct n as [| |m d]; try reflexivity. simpl.
  pose proof (normalize_spec m d) as H.
  destruct (Number.normalize m d) as [m' d']. simpl.
  destruct d' as [|d']; [reflexivity | ].
  destruct H as [H | H]; [discriminate | ]. simpl.
  destruct (Z.eqb_spec (m' mod 10) 0); [contradiction | reflexivity].
Qed.

Lemma delimited_not_digit (rest : string) :
  delimited rest ->
  match rest with
  | EmptyString => True
  | String c _ => Digits.is_digit c = false
  end.
Proof. destruct rest as [|c r]; [trivial | ]. intros [-> | [-> | ->]]; reflexivity. Qed.

Lemma delimited_starts (rest : string) :
  delimited rest ->
  JSON.starts "." rest = false /\ JSON.starts "e" rest = false
  /\ JSON.starts "E" rest = false /\ JSON.skip_ws rest = rest.
Proof.
  destruct rest as [|c r]; [repeat split | ].
  intros [-> | [-> | ->]]; repeat split.
Qed.

Lemma parse_number_tail (rest : string) :
  delimited rest ->
  JSON.parse_fraction rest = Some (EmptyString, rest)
  /\ JSON.parse_exponent rest = Some (0, rest).
Proof.
  intros H. destruct (delimited_starts rest H) as [Hdot [He [HE _]]].
  unfold JSON.parse_fraction, JSON.parse_exponent. rewrite Hdot, He, HE. split; reflexivity.
Qed.

Lemma starts_digits (c : ascii) (n : Z) (rest : string) :
  0 <= n -> Digits.is_digit c = false ->
  JSON.starts c (Digits.of_nonneg n +:+ rest) = false.
Proof.
  intros Hn Hc. destruct (of_nonneg_spec n Hn) as [Hall [_ [Hpos _]]].
  destruct (Digits.of_nonneg n) as [|c' s]; [simpl in Hpos; lia | ].
  rewrite append_cons. simpl in *. apply andb_true_iff in Hall. destruct Hall as [Hc' _].
  destruct (Ascii.eqb_spec c' c) as [-> | _]; [congruence | reflexivity].
Qed.

(** The text of an integer is read back. *)
Lemma parse_number_integer (m : Z) (rest : string) :
  delimited rest ->
  JSON.parse_number (Digits.of_Z m +:+ rest) = Some (Finite m 0, rest).
Proof.
  intros Hrest. destruct (parse_number_tail rest Hrest) as [Hfrac Hexp].
  pose proof (delimited_not_digit rest Hrest) as Hnd.
  unfold Digits.of_Z, JSON.parse_number.
  destruct (Z.ltb_spec m 0) as [Hneg | Hpos].
  - rewrite append_cons. cbn [JSON.starts JSON.tail Ascii.eqb Bool.eqb].
    destruct (of_nonneg_spec (- m) ltac:(lia)) as [Hall _].
    rewrite span_digits_append by assumption.
    rewrite int_ok_of_nonneg by lia. rewrite Hfrac. cbn [mbind option_bind].
    rewrite Hexp. cbn [mbind option_bind].
    rewrite append_nil_r, to_Z_of_nonneg by lia.
    unfold JSON.scale. simpl.
    change (10 ^ (- (Z.of_nat 0 - 0))) with 1. do 3 f_equal. lia.
  - rewrite starts_digits by (lia || reflexivity).
    destruct (of_nonneg_spec m ltac:(lia)) as [Hall _].
    rewrite span_digits_append by assumption.
    rewrite int_ok_of_nonneg by lia. rewrite Hfrac. cbn [mbind option_bind].
    rewrite Hexp. cbn [mbind option_bind].
    rewrite append_nil_r, to_Z_of_nonneg by lia.
    unfold JSON.scale. simpl.
    change (10 ^ (- (Z.of_nat 0 - 0))) with 1. do 3 f_equal. lia.
Qed.

(** The text of a decimal fraction is read back. *)
Lemma parse_number_decimal (m : Z) (d : nat) (rest : string) :
  delimited rest ->
  m mod 10 <> 0 ->
  let p := 10 ^ Z.of_nat (S d) in
  JSON.parse_number
    (((if m <? 0 then "-" else EmptyString)
        +:+ Digits.of_nonneg (Z.abs m / p)
        +:+ "." +:+ Digits.pad (S d) (Digits.of_nonneg (Z.abs m mod p))) +:+ rest)
  = Some (Finite m (S d), rest).
Proof.
  intros Hrest Hm p.
  assert (Hp : 0 < p) by (apply Z.pow_pos_nonneg; lia).
  assert (Hq : 0 <= Z.abs m / p) by (apply Z.div_pos; lia).
  pose proof (Z.mod_pos_bound (Z.abs m) p Hp) as Hr.
  destruct (parse_number_tail rest Hrest) as [Hfrac Hexp].
  destruct (of_nonneg_spec _ Hq) as [Hall _].
  destruct (pad_spec (S d) (Z.abs m mod p) ltac:(lia) Hr) as [Hpall [Hplen Hpval]].
  set (ip := Digits.of_nonneg (Z.abs m / p)) in *.
  set (fp := Digits.pad (S d) (Digits.of_nonneg (Z.abs m mod p))) in *.
  assert (Hspan : JSON.span_digits (ip +:+ "." +:+ fp +:+ rest)
                  = (ip, "." +:+ fp +:+ rest)).
  { apply span_digits_append; [assumption | reflexivity]. }
  assert (Hval : Digits.to_Z (ip +:+ fp) = Z.abs m).
  { unfold Digits.to_Z. rewrite to_Z_acc_append, to_Z_acc_shift, Hpval, Hplen.
    fold (Digits.to_Z ip). unfold ip. rewrite to_Z_of_nonneg by assumption.
    fold p. pose proof (Z.div_mod (Z.abs m) p ltac:(lia)). lia. }
  assert (Hne : JSON.nonempty fp = true).
  { destruct fp; [discriminate Hplen | reflexivity]. }
  assert (Hcanon : forall k, Z.abs k = Z.abs m ->
            Number.canon (Finite k (S d)) = Finite k (S d)).
  { intros k Hk. simpl.
    destruct (Z.eqb_spec (k mod 10) 0) as [H | H]; [ | reflexivity].
    exfalso. apply Hm. apply Z.mod_divide in H; [ | lia].
    apply Z.mod_divide; [lia | ]. destruct H as [j Hj].
    exists (j * Z.sgn k * Z.sgn m).
    pose proof (Z.abs_sgn m). pose proof (Z.abs_sgn k).
    pose proof (Z.sgn_abs m). pose proof (Z.sgn_abs k). nia. }
  assert (Hfp : JSON.parse_fraction ("." +:+ fp +:+ rest) = Some (fp, rest)).
  { unfold JSON.parse_fraction. rewrite append_cons, append_nil.
    cbn [JSON.starts JSON.tail Ascii.eqb Bool.eqb].
    rewrite span_digits_append by (assumption || apply delimited_not_digit; assumption).
    rewrite Hne. reflexivity. }
  assert (Hscale : forall k, Z.abs k = Z.abs m ->
            JSON.scale k (String.length fp) 0 = Finite k (S d)).
  { intros k Hk. unfold JSON.scale. rewrite Hplen.
    replace (Z.of_nat (S d) - 0 <=? 0) with false by (symmetry; apply Z.leb_gt; lia).
    replace (Z.to_nat (Z.of_nat (S d) - 0)) with (S d) by lia.
    apply Hcanon. assumption. }
  assert (Hok : JSON.int_ok ip = true) by (apply int_ok_of_nonneg; assumption).
  unfold JSON.parse_number.
  destruct (Z.ltb_spec m 0) as [Hneg | Hpos].
  - rewrite !append_assoc, append_cons, append_nil.
    cbn [JSON.starts JSON.tail Ascii.eqb Bool.eqb].
    rewrite Hspan, Hok, Hfp. cbn [mbind option_bind]. rewrite Hexp.
    cbn [mbind option_bind]. rewrite Hval, Hscale by lia. do 3 f_equal. lia.
  - rewrite append_nil, !append_assoc.
    unfold ip at 1. rewrite starts_digits by (assumption || reflexivity). fold ip.
    rewrite Hspan, Hok, Hfp. cbn [mbind option_bind]. rewrite Hexp.
    cbn [mbind option_bind]. rewrite Hval, Hscale by lia. do 3 f_equal. lia.
Qed.

Lemma parse_number_text (m : Z) (d : nat) (rest : string) :
  delimited rest ->
  JSON.parse_number (JSON.number_text (Finite m d) +:+ rest)
  = Some (Number.canon (Finite m d), rest).
Proof.
  intros Hrest. unfold JSON.number_text, Number.toString. simpl Number.canon.
  pose proof (normalize_spec m d) as Hn.
  destruct (Number.normalize m d) as [m' [|d']].
  - apply parse_number_integer. assumption.
  - destruct Hn as [Hn | Hn]; [discriminate | ].
    apply parse_number_decimal; assumption.
Qed.

(** ** JSON texts of values *)

Lemma jsval_induction (P : jsval -> Prop) :
  P VUndefined -> P VNull -> (forall b, P (VBool b)) -> (forall n, P (VNum n)) ->
  (forall s, P (VStr s)) -> (forall t, P (VDate t)) ->
  (forall items, Forall P items -> P (VArr items)) ->
  (forall props, Forall (fun kv => P (snd kv)) props -> P (VObj props)) ->
  forall v, P v.
Proof.
  intros Hu Hn Hb Hnum Hs Hd Ha Ho.
  fix IH 1. intros [| |b|n|s|t|items|props].
  - exact Hu.
  - exact Hn.
  - apply Hb.
  - apply Hnum.
  - apply Hs.
  - apply Hd.
  - apply Ha. induction items as [|x items IHitems].
    + constructor.
    + constructor; [apply IH | exact IHitems].
  - apply Ho. induction props as [|[k x] props IHprops].
    + constructor.
    + constructor; [apply IH | exact IHprops].
Qed.

Lemma stringify_VArr (items : list jsval) :
  JSON.stringify (VArr items) = Some ("[" +:+ JSON.commas (map text_of items) +:+ "]").
Proof.
  reflexivity.
Qed.

Lemma stringify_VObj (props : object) :
  JSON.stringify (VObj props)
  = Some ("{" +:+ JSON.commas (map member_text (defined props)) +:+ "}").
Proof.
  simpl.
  match goal with
  | |- Some (_ +:+ JSON.commas ?X +:+ _) = _ =>
      assert (H : X = map member_text (defined props))
  end.
  { induction props as [|[k x] props IH]; [reflexivity | ].
    unfold defined. cbn [List.filter snd]. fold (defined props).
    destruct x; simpl; rewrite IH; reflexivity. }
  rewrite H. reflexivity.
Qed.

Lemma toJSON_VObj (props : object) :
  toJSON (VObj props)
  = VObj (map (fun kv => (fst kv, toJSON (snd kv))) (defined props)).
Proof.
  simpl.
  match goal with
  | |- VObj ?X = _ =>
      assert (H : X = map (fun kv => (fst kv, toJSON (snd kv))) (defined props))
  end.
  { induction props as [|[k x] props IH]; [reflexivity | ].
    unfold defined. cbn [List.filter snd]. fold (defined props).
    destruct (is_undefined x); simpl; rewrite IH; reflexivity. }
  rewrite H. reflexivity.
Qed.

Lemma serializable_VArr (items : list jsval) :
  serializable (VArr items) <-> Forall serializable items.
Proof.
  simpl. induction items as [|x items IH]; [split; constructor | ].
  split.
  - intros [Hx Hrest]. constructor; [assumption | apply IH; assumption].
  - intros H. inversion H; subst. split; [assumption | apply IH; assumption].
Qed.

Lemma serializable_VObj (props : object) :
  serializable (VObj props)
  <-> List.NoDup (map fst (defined props))
      /\ Forall (fun kv => serializable (snd kv)) props.
Proof.
  simpl. apply and_iff_compat_l.
  induction props as [|[k x] props IH]; [split; constructor | ].
  split.
  - intros [Hx Hrest]. constructor; [assumption | apply IH; assumption].
  - intros H. inversion H; subst. split; [assumption | apply IH; assumption].
Qed.

Lemma number_text_head (m : Z) (d : nat) :
  exists c s, JSON.number_text (Finite m d) = String c s
              /\ (c = "-"%char \/ Digits.is_digit c = true).
Proof.
  assert (Hdigits : forall n t, 0 <= n ->
            exists c s, Digits.of_nonneg n +:+ t = String c s /\ Digits.is_digit c = true).
  { intros n t Hn. destruct (of_nonneg_spec n Hn) as [Hall [_ [Hpos _]]].
    destruct (Digits.of_nonneg n) as [|c s]; [simpl in Hpos; lia | ].
    simpl in Hall. apply andb_true_iff in Hall. destruct Hall as [Hc _].
    exists c. eexists. rewrite append_cons. split; [reflexivity | assumption]. }
  unfold JSON.number_text, Number.toString. simpl Number.canon.
  destruct (Number.normalize m d) as [m' [|d']].
  - unfold Digits.of_Z. destruct (Z.ltb_spec m' 0).
    + eexists. eexists. split; [reflexivity | left; reflexivity].
    + destruct (Hdigits m' EmptyString ltac:(lia)) as [c [s [Heq Hc]]].
      rewrite append_nil_r in Heq. exists c, s. split; [assumption | right; assumption].
  - destruct (Z.ltb_spec m' 0).
    + rewrite append_cons. eexists. eexists. split; [reflexivity | left; reflexivity].
    + rewrite append_nil.
      assert (Hq : 0 <= Z.abs m' / 10 ^ Z.of_nat (S d')).
      { apply Z.div_pos; [lia | apply Z.pow_pos_nonneg; lia]. }
      destruct (Hdigits _ ("." +:+ Digits.pad (S d')
                             (Digits.of_nonneg (Z.abs m' mod 10 ^ Z.of_nat (S d')))) Hq)
        as [c [s [Heq Hc]]].
      exists c, s. split; [exact Heq | right; assumption].
Qed.

(** A value starts with a character that is neither white space nor a
    closing bracket. *)
Lemma text_of_head (v : jsval) :
  exists c s, text_of v = String c s
              /\ JSON.is_ws c = false /\ Ascii.eqb c "]" = false.
Proof.
  destruct v as [| |[|]|[| |m d]|s|[t|]|items|props];
    try (eexists; eexists; split; [reflexivity | split; reflexivity]).
  destruct (number_text_head m d) as [c [s [Heq Hc]]].
  exists c, s. split; [exact Heq | ].
  destruct Hc as [-> | Hc]; [split; reflexivity | ].
  destruct c as [[|] [|] [|] [|] [|] [|] [|] [|]]; try discriminate Hc; split; reflexivity.
Qed.

(** A text that starts with a sign or a digit is read as a number. *)
Lemma parse_value_number (fuel : nat) (c : ascii) (s : string) :
  c = "-"%char \/ Digits.is_digit c = true ->
  JSON.parse_value (S fuel) (String c s)
  = '(n, r) ← JSON.parse_number (String c s); Some (VNum n, r).
Proof.
  intros [-> | Hc]; [reflexivity | ].
  destruct c as [[|] [|] [|] [|] [|] [|] [|] [|]]; try discriminate Hc; reflexivity.
Qed.

Lemma parse_value_null (fuel : nat) (rest : string) :
  JSON.parse_value (S fuel) ("null" +:+ rest) = Some (VNull, rest).
Proof. reflexivity. Qed.

Lemma parse_value_bool (fuel : nat) (b : bool) (rest : string) :
  JSON.parse_value (S fuel) ((if b then "true" else "false") +:+ rest)
  = Some (VBool b, rest).
Proof. destruct b; reflexivity. Qed.

Lemma parse_value_dquote (fuel : nat) (x : string) :
  JSON.parse_value (S fuel) (String JSON.dquote x)
  = '(t, r) ← JSON.parse_string x; Some (VStr t, r).
Proof. reflexivity. Qed.

Lemma parse_value_quote (fuel : nat) (s rest : string) :
  JSON.parse_value (S fuel) (JSON.quote s +:+ rest) = Some (VStr s, rest).
Proof.
  unfold JSON.quote. rewrite append_cons, append_assoc, append_cons, append_nil.
  rewrite parse_value_dquote, parse_string_quote. reflexivity.
Qed.

Lemma parse_elements_S (fuel : nat) (s : string) :
  JSON.parse_elements (S fuel) s
  = '(v, r) ← JSON.parse_value fuel s;
    if JSON.starts "," (JSON.skip_ws r)
    then '(l, r) ← JSON.parse_elements fuel (JSON.tail (JSON.skip_ws r)); Some (v :: l, r)
    else if JSON.starts "]" (JSON.skip_ws r) then Some ([v], JSON.tail (JSON.skip_ws r))
    else None.
Proof. reflexivity. Qed.

Lemma parse_members_S (fuel : nat) (s : string) :
  JSON.parse_members (S fuel) (String JSON.dquote s)
  = '(k, r) ← JSON.parse_string s;
    r ← JSON.expect ":" (JSON.skip_ws r);
    '(v, r) ← JSON.parse_value fuel r;
    if JSON.starts "," (JSON.skip_ws r)
    then '(l, r) ← JSON.parse_members fuel (JSON.tail (JSON.skip_ws r));
         Some ((k, v) :: l, r)
    else if JSON.starts "}" (JSON.skip_ws r)
    then Some ([(k, v)], JSON.tail (JSON.skip_ws r))
    else None.
Proof. reflexivity. Qed.

Lemma parse_value_array (fuel : nat) (r : string) :
  JSON.parse_value (S fuel) (String "[" r)
  = if JSON.starts "]" (JSON.skip_ws r) then Some (VArr [], JSON.tail (JSON.skip_ws r))
    else '(l, r) ← JSON.parse_elements fuel r; Some (VArr l, r).
Proof. reflexivity. Qed.

Lemma parse_value_object (fuel : nat) (r : string) :
  JSON.parse_value (S fuel) (String "{" r)
  = if JSON.starts "}" (JSON.skip_ws r) then Some (VObj [], JSON.tail (JSON.skip_ws r))
    else '(l, r) ← JSON.parse_members fuel r; Some (VObj (JSON.object_of l), r).
Proof. reflexivity. Qed.

Lemma skip_ws_head (c : ascii) (s : string) :
  JSON.is_ws c = false -> JSON.skip_ws (String c s) = String c s.
Proof. intros H. simpl. rewrite H. reflexivity. Qed.

Lemma commas_cons (t u : string) (l : list string) :
  JSON.commas (t :: u :: l) = t +:+ "," +:+ JSON.commas (u :: l).
Proof. reflexivity. Qed.

Lemma parse_elements_texts (items : list jsval) :
  items <> [] ->
  Forall reads_back items ->
  forall fuel rest,
    (2 * String.length (JSON.commas (map text_of items)) + 2 <= fuel)%nat ->
    JSON.parse_elements fuel (JSON.commas (map text_of items) +:+ "]" +:+ rest)
    = Some (map toJSON items, rest).
Proof.
  intros Hne Hall. induction Hall as [|x items Hx Hall IH]; [congruence | ].
  intros fuel rest Hfuel. destruct fuel as [|fuel]; [lia | ].
  rewrite parse_elements_S. destruct items as [|y items].
  - cbn [map JSON.commas] in *.
    rewrite (Hx fuel ("]" +:+ rest)) by (lia || (right; left; reflexivity)).
    reflexivity.
  - cbn [map] in *. rewrite commas_cons in *.
    rewrite !length_append in Hfuel. change (String.length ",") with 1%nat in Hfuel.
    rewrite !append_assoc.
    rewrite (Hx fuel) by (lia || (left; reflexivity)).
    cbn [mbind option_bind]. rewrite append_cons, append_nil.
    rewrite skip_ws_head by reflexivity.
    cbn [JSON.starts JSON.tail].
    change (Ascii.eqb "," ",") with true. cbv iota.
    rewrite IH by (discriminate || lia).
    reflexivity.
Qed.

Lemma parse_members_texts (props : object) :
  props <> [] ->
  Forall (fun kv => reads_back (snd kv)) props ->
  forall fuel rest,
    (2 * String.length (JSON.commas (map member_text props)) + 2 <= fuel)%nat ->
    JSON.parse_members fuel (JSON.commas (map member_text props) +:+ "}" +:+ rest)
    = Some (map (fun kv => (fst kv, toJSON (snd kv))) props, rest).
Proof.
  intros Hne Hall. induction Hall as [|[k x] props Hx Hall IH]; [congruence | ].
  intros fuel rest Hfuel. destruct fuel as [|fuel]; [lia | ].
  cbn [snd] in Hx.
  assert (Hmember : forall tail_text,
            JSON.parse_members (S fuel) (member_text (k, x) +:+ tail_text)
            = '(v, r) ← JSON.parse_value fuel (text_of x +:+ tail_text);
              if JSON.starts "," (JSON.skip_ws r)
              then '(l, r) ← JSON.parse_members fuel (JSON.tail (JSON.skip_ws r));
                   Some ((k, v) :: l, r)
              else if JSON.starts "}" (JSON.skip_ws r)
              then Some ([(k, v)], JSON.tail (JSON.skip_ws r))
              else None).
  { intros tail_text. unfold member_text, JSON.quote. cbn [fst snd].
    rewrite !append_cons, !append_assoc, !append_cons, !append_nil.
    rewrite parse_members_S, parse_string_quote. cbn [mbind option_bind].
    rewrite skip_ws_head by reflexivity. reflexivity. }
  assert (Hlen : (String.length (text_of x) + 3 <= String.length (member_text (k, x)))%nat).
  { unfold member_text, JSON.quote. cbn [fst snd].
    repeat first [rewrite length_append | rewrite append_cons
                 | progress cbn [String.length]].
    lia. }
  destruct props as [|y props].
  - cbn [map JSON.commas] in *. rewrite Hmember.
    rewrite (Hx fuel ("}" +:+ rest)) by (lia || (right; right; reflexivity)).
    reflexivity.
  - cbn [map] in *. rewrite commas_cons in *.
    rewrite !length_append in Hfuel. change (String.length ",") with 1%nat in Hfuel.
    rewrite !append_assoc. rewrite Hmember.
    rewrite (Hx fuel) by (lia || (left; reflexivity)).
    cbn [mbind option_bind]. rewrite append_cons, append_nil.
    rewrite skip_ws_head by reflexivity.
    cbn [JSON.starts JSON.tail].
    change (Ascii.eqb "," ",") with true. cbv iota.
    rewrite IH by (discriminate || lia).
    reflexivity.
Qed.

Lemma Obj_has_keys (o : object) (k : string) :
  Obj.has o k = true <-> In k (map fst o).
Proof.
  induction o as [|[k' v] o IH]; simpl; [split; [discriminate | tauto] | ].
  rewrite orb_true_iff, IH. split.
  - intros [H | H]; [left; symmetry; apply String.eqb_eq; exact H | right; exact H].
  - intros [H | H]; [left; apply String.eqb_eq; congruence | right; exact H].
Qed.

Lemma object_of_app (members acc : object) :
  List.NoDup (map fst (acc ++ members)) ->
  fold_left (fun o '(k, v) => Obj.set o k v) members acc = acc ++ members.
Proof.
  revert acc. induction members as [|[k v] members IH]; intros acc Hnd.
  - simpl. rewrite app_nil_r. reflexivity.
  - simpl. unfold Obj.set at 2.
    assert (Hhas : Obj.has acc k = false).
    { destruct (Obj.has acc k) eqn:H; [ | reflexivity].
      apply Obj_has_keys in H. rewrite List.map_app in Hnd.
      apply List.NoDup_remove_2 in Hnd. exfalso. apply Hnd.
      apply List.in_or_app. left. exact H. }
    rewrite Hhas. rewrite IH; rewrite <- app_assoc; [reflexivity | exact Hnd].
Qed.

Lemma object_of_nodup (members : object) :
  List.NoDup (map fst members) -> JSON.object_of members = members.
Proof. intros H. unfold JSON.object_of. apply (object_of_app members []). exact H. Qed.

Lemma Forall_defined (P : string * jsval -> Prop) (props : object) :
  Forall P props -> Forall P (defined props).
Proof.
  intros H. apply List.Forall_forall. intros kv Hin.
  apply List.filter_In in Hin. destruct Hin as [Hin _].
  revert kv Hin. apply List.Forall_forall. exact H.
Qed.

Lemma text_of_VArr (items : list jsval) :
  text_of (VArr items) = "[" +:+ JSON.commas (map text_of items) +:+ "]".
Proof. reflexivity. Qed.

Lemma text_of_VObj (props : object) :
  text_of (VObj props) = "{" +:+ JSON.commas (map member_text (defined props)) +:+ "}".
Proof. unfold text_of. rewrite stringify_VObj. reflexivity. Qed.

Lemma reads_back_serializable (v : jsval) : serializable v -> reads_back v.
Proof.
  induction v as [| |b|n|s|t|items IH|props IH] using jsval_induction;
    intros Hser fuel rest Hfuel Hrest;
    (destruct fuel as [|fuel]; [lia | ]).
  - apply parse_value_null.
  - apply parse_value_null.
  - apply parse_value_bool.
  - destruct n as [| |m d]; try apply parse_value_null.
    change (text_of (VNum (Finite m d))) with (JSON.number_text (Finite m d)) in *.
    cbn [toJSON].
    destruct (number_text_head m d) as [c [s [Heq Hc]]].
    pose proof (parse_number_text m d rest Hrest) as Hnum.
    rewrite Heq in *. rewrite append_cons in *.
    rewrite parse_value_number by assumption. rewrite Hnum. reflexivity.
  - apply parse_value_quote.
  - destruct t as [t|]; [apply parse_value_quote | apply parse_value_null].
  - rewrite text_of_VArr in *. cbn [toJSON].
    rewrite !length_append in Hfuel. cbn [String.length] in Hfuel.
    rewrite !append_cons, !append_nil, !append_assoc.
    rewrite parse_value_array.
    apply serializable_VArr in Hser.
    assert (Hall : Forall reads_back items).
    { clear - IH Hser. induction IH as [|x items Hx _ IHitems]; [constructor | ].
      inversion Hser; subst. constructor; [apply Hx; assumption | apply IHitems; assumption]. }
    destruct items as [|x items].
    + reflexivity.
    + destruct (text_of_head x) as [c [s [Hhead [Hws Hclose]]]].
      assert (Hstart : forall u,
                JSON.commas (map text_of (x :: items)) +:+ u
                = String c (JSON.tail (JSON.commas (map text_of (x :: items)) +:+ u))).
      { intros u. destruct items as [|y items]; cbn [map JSON.commas];
          rewrite Hhead, !append_cons; reflexivity. }
      rewrite (Hstart ("]" +:+ rest)) at 1. rewrite skip_ws_head by assumption.
      cbn [JSON.starts]. rewrite Hclose.
      rewrite parse_elements_texts; [reflexivity | discriminate | assumption | lia].
  - rewrite text_of_VObj in *. rewrite toJSON_VObj.
    rewrite !length_append in Hfuel. cbn [String.length] in Hfuel.
    rewrite !append_cons, !append_nil, !append_assoc.
    rewrite parse_value_object.
    apply serializable_VObj in Hser. destruct Hser as [Hnodup Hser].
    assert (Hall : Forall (fun kv => reads_back (snd kv)) (defined props)).
    { apply Forall_defined. clear - IH Hser.
      induction IH as [|kv props Hx _ IHprops]; [constructor | ].
      inversion Hser; subst. constructor; [apply Hx; assumption | apply IHprops; assumption]. }
    destruct (defined props) as [|[k x] members] eqn:Hdef.
    + reflexivity.
    + assert (Hstart : forall u,
                JSON.commas (map member_text ((k, x) :: members)) +:+ u
                = String JSON.dquote
                    (JSON.tail (JSON.commas (map member_text ((k, x) :: members)) +:+ u))).
      { intros u. destruct members as [|y members]; cbn [map JSON.commas];
          unfold member_text at 1, JSON.quote; rewrite !append_cons; reflexivity. }
      rewrite (Hstart ("}" +:+ rest)) at 1. rewrite skip_ws_head by reflexivity.
      cbn [JSON.starts]. change (Ascii.eqb JSON.dquote "}") with false. cbv iota.
      rewrite parse_members_texts; [ | discriminate | assumption | ].
      * cbn [mbind option_bind]. rewrite object_of_nodup; [reflexivity | ].
        rewrite List.map_map. cbn [fst]. exact Hnodup.
      * lia.
Qed.

(** [JSON.parse] reads the text of a value back. *)
Lemma parse_stringify (v : jsval) (text : string) :
  serializable v ->
  JSON.stringify v = Some text ->
  JSON.parse text = Return (toJSON v).
Proof.
  intros Hser Htext.
  pose proof (reads_back_serializable v Hser
                (2 * String.length text + 2)%nat EmptyString) as H.
  assert (Ht : text_of v = text) by (unfold text_of; rewrite Htext; reflexivity).
  rewrite Ht, append_nil_r in H. unfold JSON.parse. rewrite H by (lia || exact I).
  reflexivity.
Qed.

(** ** Round trip *)

Lemma blocking_one (c : bool) (e : ValidationError) :
  type e = error ->
  blocking (if c then [e] else []) = if c then [e] else [].
Proof. intros H. destruct c; [ | reflexivity]. simpl. rewrite H. reflexivity. Qed.

Lemma is_acceptable_passes (session : object) :
  is_acceptable session = passes session.
Proof.
  unfold is_acceptable, passes, validateSession. rewrite !blocking_app.
  cbn [negb andb orb].
  destruct (JS.truthy (Obj.get session "id")), (JS.is_string (Obj.get session "id"));
    cbn [negb andb orb blocking List.filter type Severity_eqb app]; try reflexivity.
  destruct (JS.truthy (Obj.get session "subject"));
    cbn [negb andb orb blocking List.filter type Severity_eqb app]; try reflexivity.
  destruct (Obj.get session "subject") as [| | | |s| | |];
    cbn [negb andb orb blocking List.filter type Severity_eqb app]; try reflexivity.
  destruct (JSString.length (JSString.trim s) =? 0);
    cbn [negb andb orb blocking List.filter type Severity_eqb app]; try reflexivity.
  destruct (Obj.get session "duration") as [| | |n| | | |];
    cbn [negb andb orb blocking List.filter type Severity_eqb app]; try reflexivity.
  destruct (Number.le_zero n);
    cbn [negb andb orb blocking List.filter type Severity_eqb app]; try reflexivity.
  destruct (JS.new_Date (Obj.get session "startTime")) as [start|];
    cbn [negb andb orb blocking List.filter type Severity_eqb app]; try reflexivity.
  rewrite bool_decide_eq_true_2 by eauto. cbn [andb].
  destruct (JS.truthy (Obj.get session "endTime")).
  - destruct (JS.new_Date (Obj.get session "endTime")) as [e|].
    + rewrite bool_decide_eq_true_2 by eauto.
      destruct (JS.time_ge (Some start) (Some e)), (JS.is_boolean (Obj.get session "completed"));
        reflexivity.
    + rewrite bool_decide_eq_false_2 by (intros [? ?]; discriminate). reflexivity.
  - destruct (JS.is_boolean (Obj.get session "completed")); reflexivity.
Qed.

Lemma toISOString_nonempty (t : Z) :
  Z.abs t <= Date.maxTime -> String.eqb (Date.toISOString t) EmptyString = false.
Proof.
  intros Ht. pose proof (parse_toISOString t Ht) as H.
  destruct (Date.toISOString t); [discriminate H | reflexivity].
Qed.

Lemma TimeClip_Some (t u : Z) :
  Date.TimeClip t = Some u -> u = t /\ Z.abs t <= Date.maxTime.
Proof.
  unfold Date.TimeClip.
  destruct (Z.leb_spec (Z.abs t) Date.maxTime) as [Hle | Hgt]; [ | discriminate].
  intros Heq. injection Heq as <-. split; [reflexivity | assumption].
Qed.

Lemma valid_date (t : option Z) :
  is_Some (t ≫= Date.TimeClip) -> exists u, t = Some u /\ Z.abs u <= Date.maxTime.
Proof.
  intros [u Hu]. destruct t as [t|]; [ | discriminate Hu]. simpl in Hu.
  apply TimeClip_Some in Hu. destruct Hu as [-> Hu]. eauto.
Qed.

(** What a good session looks like. *)
Lemma passes_Session (s : Session) :
  passes (Session_object s) = true ->
  (exists t, startTime s = Some t /\ Z.abs t <= Date.maxTime)
  /\ (endTime s = None \/ exists e, endTime s = Some (Some e) /\ Z.abs e <= Date.maxTime)
  /\ Number.le_zero (duration s) = false.
Proof.
  destruct s as [sid ssubject dur start [e|] done]; unfold passes, Session_object;
    cbn [Obj.get String.eqb Ascii.eqb Bool.eqb app
         id subject duration startTime
         endTime completed JS.new_Date JS.truthy JS.is_boolean];
    intros H; repeat (apply andb_true_iff in H; destruct H as [H ?]).
  - repeat match goal with
           | H : bool_decide _ = true |- _ => apply bool_decide_eq_true in H; apply valid_date in H
           end.
    split; [assumption | ]. split; [right | ].
    + destruct H1 as [u [-> Hu]]. eauto.
    + destruct (Number.le_zero dur); [discriminate | reflexivity].
  - repeat match goal with
           | H : bool_decide _ = true |- _ => apply bool_decide_eq_true in H; apply valid_date in H
           end.
    split; [assumption | ]. split; [left; reflexivity | ].
    destruct (Number.le_zero dur); [discriminate | reflexivity].
Qed.

Lemma new_Date_text (iso : string) (t : Z) :
  Date.parse iso = Some t ->
  JS.new_Date (VStr iso) = Some t.
Proof. intros H. exact H. Qed.

(** A saved session comes back from its JSON value. *)
Lemma revive_saved (s : Session) :
  passes (Session_object s) = true ->
  is_finite (duration s) = true ->
  revive (toJSON (VObj (Session_object s))) = Return (reloaded s)
  /\ passes (reloaded s) = true
  /\ same_fields (reloaded s) s
  /\ serializable (VObj (Session_object s)).
Proof.
  intros Hpass Hfin.
  destruct (passes_Session s Hpass) as [[t [Hstart Ht]] [Hend Hdur]].
  pose proof (parse_toISOString t Ht) as Hparse.
  pose proof (toISOString_nonempty t Ht) as Hne.
  destruct s as [sid ssubject dur start endT done].
  cbn [id subject duration startTime
       endTime completed] in *.
  subst start. destruct dur as [| |m d]; try discriminate Hfin.
  assert (Hcanon : Number.le_zero (Number.canon (Finite m d)) = false).
  { simpl. pose proof (normalize_sign m d) as Hs.
    destruct (Number.normalize m d) as [m' d']. simpl in *. congruence. }
  set (n := Number.canon (Finite m d)) in *.
  destruct Hend as [-> | [e [-> He]]].
  - unfold Session_object, reloaded, revive, passes, same_fields.
    cbn [id subject duration startTime
         endTime completed app].
    rewrite toJSON_VObj.
    cbn [defined List.filter snd fst is_undefined negb map toJSON].
    fold n. set (iso := Date.toISOString t) in *.
    split; [ | split; [ | split]].
    + cbn [JS.prop JS.spread Obj.get String.eqb Ascii.eqb Bool.eqb
           mbind outcome_bind obind JS.truthy].
      rewrite (new_Date_text iso t Hparse). reflexivity.
    + unfold passes in Hpass. revert Hpass.
      cbn [Obj.get String.eqb Ascii.eqb Bool.eqb JS.truthy JS.is_string JS.is_boolean
           JS.new_Date Session_object app
           id subject duration startTime
           endTime completed].
      rewrite Hcanon. intros Hpass.
      repeat match goal with
             | H : _ && _ = true |- _ => apply andb_true_iff in H; destruct H
             end.
      repeat (apply andb_true_iff; split); first [assumption | reflexivity].
    + repeat split.
    + apply serializable_VObj. split; [ | repeat constructor].
      cbn [defined List.filter snd fst is_undefined negb map].
      repeat (apply List.NoDup_cons; [simpl; intuition discriminate | ]).
      apply List.NoDup_nil.
  - pose proof (parse_toISOString e He) as Hparse_e.
    pose proof (toISOString_nonempty e He) as Hne_e.
    unfold Session_object, reloaded, revive, passes, same_fields.
    cbn [id subject duration startTime
         endTime completed app].
    rewrite toJSON_VObj.
    cbn [defined List.filter snd fst is_undefined negb map toJSON].
    fold n. set (iso := Date.toISOString t) in *. set (iso_e := Date.toISOString e) in *.
    split; [ | split; [ | split]].
    + cbn [JS.prop JS.spread Obj.get String.eqb Ascii.eqb Bool.eqb
           mbind outcome_bind obind JS.truthy].
      rewrite Hne_e. cbn [negb].
      rewrite (new_Date_text iso t Hparse), (new_Date_text iso_e e Hparse_e).
      reflexivity.
    + unfold passes in Hpass. revert Hpass.
      cbn [Obj.get String.eqb Ascii.eqb Bool.eqb JS.truthy JS.is_string JS.is_boolean
           JS.new_Date Session_object app
           id subject duration startTime
           endTime completed].
      rewrite Hcanon. intros Hpass.
      repeat match goal with
             | H : _ && _ = true |- _ => apply andb_true_iff in H; destruct H
             end.
      repeat (apply andb_true_iff; split); first [assumption | reflexivity].
    + repeat split.
    + apply serializable_VObj. split; [ | repeat constructor].
      cbn [defined List.filter snd fst is_undefined negb map].
      repeat (apply List.NoDup_cons; [simpl; intuition discriminate | ]).
      apply List.NoDup_nil.
Qed.

Lemma stringify_object_Some (o : object) :
  JSON.stringify (VObj o) = Some (JSON.stringify_object o).
Proof. unfold JSON.stringify_object. rewrite stringify_VObj. reflexivity. Qed.

Lemma revive_all_saved (sessions : list Session) :
  Forall (fun s => passes (Session_object s) = true) sessions ->
  Forall (fun s => is_finite (duration s) = true) sessions ->
  map_throwing revive (map toJSON (map VObj (map Session_object sessions)))
  = Return (map reloaded sessions)
  /\ accepted (map reloaded sessions) = map reloaded sessions
  /\ Forall2 same_fields (map reloaded sessions) sessions
  /\ Forall serializable (map VObj (map Session_object sessions)).
Proof.
  intros Hpass Hfin. induction Hpass as [|s sessions Hs _ IH].
  - repeat split; constructor.
  - inversion Hfin as [|? ? Hf Hfin']; subst.
    destruct (IH Hfin') as [IH1 [IH2 [IH3 IH4]]].
    destruct (revive_saved s Hs Hf) as [R1 [R2 [R3 R4]]].
    split; [ | split; [ | split]].
    + cbn [map map_throwing]. rewrite R1. cbn [mbind outcome_bind obind].
      rewrite IH1. reflexivity.
    + cbn [map]. unfold accepted in *. cbn [List.filter].
      rewrite is_acceptable_passes, R2, IH2. reflexivity.
    + constructor; assumption.
    + constructor; assumption.
Qed.

(** C2 (amended): for acceptable sessions with finite durations, on a
    medium that accepts the write of the envelope and, with the envelope
    stored, the probe write with which the load starts, [saveSessions] then
    [loadSessions] return as many records, in the same order, each with the
    [id], [subject], [duration], [completed], [startTime] and [endTime] of
    the original. *)
Theorem save_then_load (sessions : list Session) (w : World) :
  let objects := map Session_object sessions in
  let text := envelope_text (clock w) objects in
  Forall (fun s => acceptable (Session_object s)) sessions ->
  Forall (fun s => is_finite (duration s) = true) sessions ->
  available w ->
  localStorage.fits (quota w) (saved w text) = true ->
  localStorage.fits (quota w) (<[test_key := test_key]> (saved w text)) = true ->
  exists w1 w2 loaded,
    saveSessions objects w = (Return tt, w1)
    /\ loadSessions w1 = (Return loaded, w2)
    /\ Forall2 same_fields loaded sessions.
Proof.
  intros objects text Hacc Hfin Havail Hfit Hprobe.
  assert (Hpass : Forall (fun s => passes (Session_object s) = true) sessions).
  { eapply List.Forall_impl; [ | exact Hacc]. intros s Hs.
    rewrite <- is_acceptable_passes. apply is_acceptable_true. exact Hs. }
  destruct (revive_all_saved sessions Hpass Hfin) as [Hrevive [Haccepted [Hfields Hser]]].
  assert (Hobjects : Forall acceptable objects).
  { unfold objects. apply List.Forall_map. exact Hacc. }
  destruct (saveSessions_valid objects w Havail Hobjects Hfit)
    as [w1 [Hsave [Hstorage [_ [Hquota _]]]]].
  fold text in Hstorage.
  set (now := clock w) in *.
  set (metadata := toJSON (VObj (metadata_object now objects))).
  assert (Hparse : JSON.parse text
                   = Return (VObj [("metadata", metadata);
                                   ("sessions", VArr (map toJSON (map VObj objects)))])).
  { rewrite (parse_stringify (VObj (storageData_object now objects)) text).
    - rewrite toJSON_VObj. reflexivity.
    - apply serializable_VObj. split.
      + cbn [storageData_object defined List.filter snd fst is_undefined negb map].
        repeat (apply List.NoDup_cons; [simpl; intuition discriminate | ]).
        apply List.NoDup_nil.
      + constructor; [ | constructor; [ | constructor]].
        * apply serializable_VObj. split; [ | repeat constructor].
          cbn [metadata_object defined List.filter snd fst is_undefined negb map].
          repeat (apply List.NoDup_cons; [simpl; intuition discriminate | ]).
          apply List.NoDup_nil.
        * apply serializable_VArr. exact Hser.
    - apply stringify_object_Some. }
  assert (Hload : exists w2, loadSessions w1 = (Return (accepted (map reloaded sessions)), w2)).
  { eexists.
    apply (loadSessions_stored w1 text
             (VObj [("metadata", metadata);
                    ("sessions", VArr (map toJSON (map VObj objects)))]) metadata
             (VStr (generateChecksum (JSON.stringify_array (map VObj objects))))
             (map toJSON (map VObj objects)) (map reloaded sessions)).
    - unfold available. rewrite Hquota, Hstorage. exact Hprobe.
    - rewrite Hstorage. apply lookup_insert_eq.
    - exact Hparse.
    - reflexivity.
    - unfold metadata. rewrite toJSON_VObj. reflexivity.
    - reflexivity.
    - exact Hrevive.
    - unfold metadata. rewrite toJSON_VObj. reflexivity. }
  destruct Hload as [w2 Hload]. rewrite Haccepted in Hload.
  exists w1, w2, (map reloaded sessions). repeat split; assumption.
Qed.

Lemma save_then_load_witness :
  exists w1 w2 loaded,
    saveSessions (map Session_object Examples.mixed_sessions) Examples.stored_world
    = (Return tt, w1)
    /\ loadSessions w1 = (Return loaded, w2)
    /\ Forall2 same_fields loaded Examples.mixed_sessions.
Proof.
  apply (save_then_load Examples.mixed_sessions Examples.stored_world).
  - repeat constructor.
  - repeat constructor.
  - vm_compute. reflexivity.
  - vm_compute. reflexivity.
  - vm_compute. reflexivity.
Defined.

(** C2, as stated, fails in two ways.  A session whose duration is
    [Infinity] has no blocking issue and is saved, with its duration written
    as [null]; the load that follows drops it.  And on a medium with room for
    the envelope but not for the probe entry of [isStorageAvailable] beside
    it, the save of an acceptable session returns, and the load that follows
    finds the medium unavailable and returns no session. *)
Lemma saved_sessions_not_reloaded :
  (let objects := [Session_object Examples.endless_session] in
   let w := Examples.empty_world in
   validateSession (Session_object Examples.endless_session) None false = []
   /\ fst (saveSessions objects w) = Return tt
   /\ fst (loadSessions (snd (saveSessions objects w))) = Return [])
  /\ (let objects := [Session_object Examples.math_0s] in
      let w := Examples.tight_world in
      let w1 := snd (saveSessions objects w) in
      validateSession (Session_object Examples.math_0s) None false = []
      /\ fst (saveSessions objects w) = Return tt
      /\ storage w1 !! STORAGE_KEY = Some (envelope_text (clock w) objects)
      /\ fst (loadSessions w1) = Return []
      /\ console (snd (loadSessions w1))
         = [(Warn, "localStorage not available, returning empty array")]).
Proof. vm_compute. repeat split. Qed.

(** ** What a load returns *)

Lemma yields_bind_with {A B} (Q : A -> Prop) (P : B -> Prop) (m : M A) (f : A -> M B) :
  yields Q m -> (forall a, Q a -> yields P (f a)) -> yields P (m ≫= f).
Proof.
  intros Hm Hf w b w'. run. specialize (Hm w).
  destruct (m w) as [[a | e] w1]; [ | discriminate].
  apply Hf. eapply Hm. reflexivity.
Qed.

Lemma yields_lift {A} (P : A -> Prop) (o : outcome A) :
  (forall a, o = Return a -> P a) -> yields P (lift o).
Proof. intros H w a w' Heq. injection Heq as Heq _. auto. Qed.

Lemma revive_dates (session : jsval) (o : object) :
  revive session = Return o -> revived_dates o.
Proof.
  unfold revive. run.
  destruct (JS.prop session "startTime") as [st|]; [ | discriminate].
  destruct (JS.prop session "endTime") as [en|]; [ | discriminate].
  intros Heq. injection Heq as <-. split.
  - rewrite !Obj_get_set. simpl. eauto.
  - rewrite Obj_get_set. simpl. destruct (JS.truthy en); eauto.
Qed.

Lemma map_throwing_Forall {A B} (P : B -> Prop) (f : A -> outcome B) (l : list A)
    (r : list B) :
  (forall a b, f a = Return b -> P b) ->
  map_throwing f l = Return r -> Forall P r.
Proof.
  intros Hf. revert r. induction l as [|a l IH]; intros r; simpl.
  - intros Heq. injection Heq as <-. constructor.
  - run. destruct (f a) as [b|] eqn:Hb; [ | discriminate].
    destruct (map_throwing f l) as [bs|]; [ | discriminate].
    intros Heq. injection Heq as <-. constructor; eauto.
Qed.

Lemma array_map_revive (what : string) (v : jsval) (r : list object) :
  array_map what revive v = Return r -> Forall revived_dates r.
Proof.
  destruct v; try discriminate. simpl.
  apply map_throwing_Forall. apply revive_dates.
Qed.

Lemma andb_true_l_r (a b : bool) : a && b = true -> a = true /\ b = true.
Proof. destruct a, b; auto. Qed.

Lemma acceptable_well_typed (s : object) :
  acceptable s -> revived_dates s -> well_typed s.
Proof.
  intros Hacc [[st Hst] Hen]. apply is_acceptable_true in Hacc.
  rewrite is_acceptable_passes in Hacc. unfold passes in Hacc.
  repeat (apply andb_true_l_r in Hacc; destruct Hacc as [Hacc ?]).
  repeat match goal with H : _ && _ = true |- _ => apply andb_true_l_r in H; destruct H end.
  unfold well_typed. repeat split.
  - destruct (Obj.get s "id") as [| | | |x| | |]; try discriminate.
    exists x. split; [reflexivity | ]. intros ->. discriminate.
  - destruct (Obj.get s "subject") as [| | | |x| | |]; try discriminate.
    exists x. split; [reflexivity | ]. intros Hx.
    match goal with H : negb (JSString.length _ =? 0) = true |- _ => rewrite Hx in H; discriminate H end.
  - destruct (Obj.get s "duration") as [| | |n| | | |]; try discriminate.
    exists n. split; [reflexivity | ].
    match goal with H : negb (Number.le_zero n) = true |- _ =>
      destruct (Number.le_zero n); [discriminate H | reflexivity] end.
  - rewrite Hst in *.
    match goal with H : bool_decide (is_Some (JS.new_Date (VDate st))) = true |- _ =>
      apply bool_decide_eq_true_1 in H; destruct H as [t Ht] end.
    simpl in Ht. destruct st as [t'|]; [ | discriminate]. simpl in Ht.
    apply TimeClip_Some in Ht. exists t'. split; [reflexivity | tauto].
  - destruct Hen as [Hen | [en Hen]]; [left; assumption | right].
    rewrite Hen in *. simpl in *.
    match goal with H : bool_decide (is_Some (_ ≫= Date.TimeClip)) = true |- _ =>
      apply bool_decide_eq_true_1 in H; destruct H as [t Ht] end.
    destruct en as [t'|]; [ | discriminate]. simpl in Ht.
    apply TimeClip_Some in Ht. exists t'. split; [reflexivity | tauto].
  - destruct (Obj.get s "completed") as [| |b| | | | |]; try discriminate. eauto.
Qed.

Lemma accepted_well_typed (sessions : list object) :
  Forall revived_dates sessions -> Forall well_typed (accepted sessions).
Proof.
  intros H. apply List.Forall_forall. intros s Hs. apply List.filter_In in Hs.
  destruct Hs as [Hin Hacc]. apply acceptable_well_typed.
  - apply is_acceptable_true. assumption.
  - rewrite List.Forall_forall in H. auto.
Qed.

Lemma migrateLegacyData_well_typed : yields (Forall well_typed) migrateLegacyData.
Proof.
  unfold migrateLegacyData. apply yields_try_catch.
  - apply yields_bind. intros [[|c s]|]; try (apply yields_ret; constructor).
    apply yields_bind. intros sessions.
    apply (yields_bind_with (Forall revived_dates)).
    { apply yields_lift. apply array_map_revive. }
    intros migrated Hm.
    pose proof (validate_from_accepted migrated 0) as Hv.
    destruct (validate_from 0 migrated) as [valid allErrors]. simpl in Hv. subst valid.
    apply yields_bind. intros _. apply yields_bind. intros _.
    apply yields_ret. apply accepted_well_typed. assumption.
  - intros e. apply yields_bind. intros _. apply yields_ret. constructor.
Qed.

Lemma loadSessions_well_typed : yields (Forall well_typed) loadSessions.
Proof.
  unfold loadSessions. apply yields_bind. intros [|]; cbv beta iota delta [negb].
  - apply yields_try_catch.
    + apply yields_bind. intros stored.
      assert (Hmig : yields (Forall well_typed)
                (migratedSessions ← migrateLegacyData;
                 if 0 <? Z.of_nat (List.length migratedSessions)
                 then saveSessions migratedSessions;; ret migratedSessions
                 else ret [])).
      { intros w a w'. run.
        destruct (migrateLegacyData w) as [[l | e] w1] eqn:Hm; [ | discriminate].
        apply migrateLegacyData_well_typed in Hm.
        destruct (0 <? _).
        - destruct (saveSessions l w1) as [[[] | e] w2]; [ | discriminate].
          intros Heq. injection Heq as <- _. assumption.
        - intros Heq. injection Heq as <- _. constructor. }
      destruct stored as [[|c s]|]; try exact Hmig.
      apply yields_bind. intros data. apply yields_bind. intros metadata.
      destruct (JS.truthy metadata); [ | apply yields_throw].
      apply yields_bind. intros data_sessions.
      destruct (JS.truthy data_sessions); [ | apply yields_throw].
      apply (yields_bind_with (Forall revived_dates)).
      { apply yields_lift. apply array_map_revive. }
      intros sessions Hs. apply yields_bind. intros dataChecksum.
      apply yields_bind. intros _.
      intros w a w'. rewrite filter_valid_from_spec. intros Heq. injection Heq as <- _.
      apply accepted_well_typed. assumption.
    + intros e. apply yields_bind. intros _. apply migrateLegacyData_well_typed.
  - apply yields_bind. intros _. apply yields_ret. constructor.
Qed.

(** X1: whatever the storage holds, [loadSessions] returns: it never
    throws, and every record of its result has the field types of the
    [Session] interface and no blocking validation issue. *)
Theorem loadSessions_total (w : World) :
  exists sessions w',
    loadSessions w = (Return sessions, w')
    /\ Forall well_typed sessions
    /\ Forall acceptable sessions.
Proof.
  destruct (loadSessions_returns w) as [l [w' H]]. exists l, w'.
  split; [assumption | ]. split.
  - eapply loadSessions_well_typed. eassumption.
  - eapply loadSessions_acceptable. eassumption.
Qed.

(** ** Edge cases of the store *)

(** X2: when the medium refuses the probe of [isStorageAvailable], a load
    returns the empty list with a console warning, and a save, a replacing
    import and a clearing throw [localStorage not available]; none of them
    changes the storage. *)
Theorem storage_unavailable (w : World) (sessions : list object) (skipDuplicates : bool) :
  ~ available w ->
  loadSessions w
  = (Return [], with_console w (Warn, "localStorage not available, returning empty array"))
  /\ saveSessions sessions w = (Throw (new_Error "localStorage not available"), w)
  /\ importSessions sessions true skipDuplicates w
     = (Throw (new_Error "localStorage not available"), w)
  /\ clearAllData w = (Throw (new_Error "localStorage not available"), w).
Proof.
  intros H. split; [ | split; [ | split]].
  - unfold loadSessions. unfold mbind at 1, M_bind at 1, bind at 1.
    rewrite isStorageAvailable_false by assumption. reflexivity.
  - apply saveSessions_unavailable. assumption.
  - apply saveSessions_unavailable. assumption.
  - unfold clearAllData. unfold mbind at 1, M_bind at 1, bind at 1.
    rewrite isStorageAvailable_false by assumption. reflexivity.
Qed.

Lemma storage_unavailable_witness :
  loadSessions Examples.full_world
  = (Return [],
     with_console Examples.full_world
       (Warn, "localStorage not available, returning empty array"))
  /\ saveSessions [Examples.good_session] Examples.full_world
     = (Throw (new_Error "localStorage not available"), Examples.full_world).
Proof.
  assert (H : ~ available Examples.full_world) by (vm_compute; discriminate).
  destruct (storage_unavailable Examples.full_world [Examples.good_session] true H)
    as [Hload [Hsave _]].
  split; assumption.
Defined.

Lemma getItem_probed (w : World) (k : string) :
  k <> test_key ->
  localStorage.getItem k (probed w) = (Return (storage w !! k), probed w).
Proof. intros H. unfold localStorage.getItem. rewrite probed_lookup by assumption. reflexivity. Qed.

Lemma migrateLegacyData_blank (w : World) :
  blank (storage w !! LEGACY_SESSIONS_KEY) -> migrateLegacyData w = (Return [], w).
Proof.
  intros H. unfold migrateLegacyData, try_catch.
  unfold mbind at 1, M_bind at 1, bind at 1. unfold localStorage.getItem.
  destruct H as [-> | ->]; reflexivity.
Qed.

Lemma loadSessions_blank (w : World) :
  available w ->
  blank (storage w !! STORAGE_KEY) ->
  blank (storage w !! LEGACY_SESSIONS_KEY) ->
  loadSessions w = (Return [], probed w).
Proof.
  intros Ha Hs Hl.
  unfold loadSessions. unfold mbind at 1, M_bind at 1, bind at 1.
  rewrite isStorageAvailable_true by assumption. cbv beta iota delta [negb].
  unfold try_catch. unfold mbind at 1, M_bind at 1, bind at 1.
  rewrite getItem_probed by discriminate.
  assert (Hm : migrateLegacyData (probed w) = (Return [], probed w)).
  { apply migrateLegacyData_blank. rewrite probed_lookup by discriminate. assumption. }
  destruct Hs as [-> | ->]; unfold mbind at 1, M_bind at 1, bind at 1; rewrite Hm;
    reflexivity.
Qed.

Lemma getStorageMetadata_blank (w : World) :
  blank (storage w !! STORAGE_KEY) -> getStorageMetadata w = (Return None, w).
Proof.
  intros Hs. unfold getStorageMetadata, try_catch. unfold mbind at 1, M_bind at 1, bind at 1.
  unfold localStorage.getItem. destruct Hs as [-> | ->]; reflexivity.
Qed.

(** X3: on a store that holds neither an envelope nor legacy data (the key
    absent, or set to the empty string), a load returns the empty list,
    writes nothing to the console and creates no envelope: it only probes
    the medium; the metadata of the store is [null]. *)
Theorem load_of_empty_store (w : World) :
  available w ->
  blank (storage w !! STORAGE_KEY) ->
  blank (storage w !! LEGACY_SESSIONS_KEY) ->
  loadSessions w = (Return [], probed w)
  /\ getStorageMetadata w = (Return None, w)
  /\ console (probed w) = console w
  /\ forall k, k <> test_key -> storage (probed w) !! k = storage w !! k.
Proof.
  intros Ha Hs Hl. split; [ | split; [ | split]].
  - apply loadSessions_blank; assumption.
  - apply getStorageMetadata_blank; assumption.
  - reflexivity.
  - intros k Hk. apply probed_lookup. assumption.
Qed.

Lemma load_of_empty_store_witness :
  loadSessions Examples.empty_world = (Return [], probed Examples.empty_world)
  /\ getStorageMetadata Examples.empty_world = (Return None, Examples.empty_world).
Proof.
  destruct (load_of_empty_store Examples.empty_world) as [Hload [Hmeta _]].
  - reflexivity.
  - left. reflexivity.
  - left. reflexivity.
  - split; assumption.
Defined.

(** ** The keys that the store touches *)

Section Touches.

Variable keys : list string.

Lemma touches_ret {A} (a : A) : touches_only keys (ret a).
Proof. intros w k _. reflexivity. Qed.

Lemma touches_throw {A} (e : Error) : touches_only keys (@throw A e).
Proof. intros w k _. reflexivity. Qed.

Lemma touches_lift {A} (o : outcome A) : touches_only keys (lift o).
Proof. intros w k _. reflexivity. Qed.

Lemma touches_bind {A B} (m : M A) (f : A -> M B) :
  touches_only keys m -> (forall a, touches_only keys (f a)) -> touches_only keys (m ≫= f).
Proof.
  intros Hm Hf w k Hk. run. specialize (Hm w k Hk).
  destruct (m w) as [[a | e] w1]; [ | exact Hm].
  simpl in Hm. rewrite <- Hm. apply Hf. assumption.
Qed.

Lemma touches_try_catch {A} (m : M A) (h : Error -> M A) :
  touches_only keys m -> (forall e, touches_only keys (h e)) ->
  touches_only keys (try_catch m h).
Proof.
  intros Hm Hh w k Hk. unfold try_catch. specialize (Hm w k Hk).
  destruct (m w) as [[a | e] w1]; [exact Hm | ].
  simpl in Hm. rewrite <- Hm. apply Hh. assumption.
Qed.

Lemma touches_getItem (key : string) : touches_only keys (localStorage.getItem key).
Proof. intros w k _. reflexivity. Qed.

Lemma touches_setItem (key text : string) :
  In key keys -> touches_only keys (localStorage.setItem key text).
Proof.
  intros Hin w k Hk. unfold localStorage.setItem.
  destruct (localStorage.fits _ _); [ | reflexivity].
  simpl. apply lookup_insert_ne. intros ->. contradiction.
Qed.

Lemma touches_removeItem (key : string) :
  In key keys -> touches_only keys (localStorage.removeItem key).
Proof.
  intros Hin w k Hk. simpl. apply lookup_delete_ne. intros ->. contradiction.
Qed.

Lemma touches_console_warn (s : string) : touches_only keys (console_warn s).
Proof. intros w k _. reflexivity. Qed.

Lemma touches_console_error (s : string) : touches_only keys (console_error s).
Proof. intros w k _. reflexivity. Qed.

Lemma touches_Date_now : touches_only keys Date_now.
Proof. intros w k _. reflexivity. Qed.

Lemma touches_Date_offset : touches_only keys Date_offset.
Proof. intros w k _. reflexivity. Qed.

Lemma touches_random : touches_only keys Math_random_suffix.
Proof. intros w k _. reflexivity. Qed.

End Touches.

Lemma touches_more {A} (keys keys' : list string) (m : M A) :
  incl keys keys' -> touches_only keys m -> touches_only keys' m.
Proof. intros Hincl Hm w k Hk. apply Hm. intros Hin. apply Hk, Hincl, Hin. Qed.

Ltac touches :=
  repeat first
    [ apply touches_ret | apply touches_throw | apply touches_lift
    | apply touches_getItem | apply touches_console_warn | apply touches_console_error
    | apply touches_Date_now | apply touches_Date_offset | apply touches_random
    | apply touches_setItem; simpl; tauto
    | apply touches_removeItem; simpl; tauto
    | apply touches_bind | apply touches_try_catch
    | progress intros
    | match goal with
      | |- touches_only _ (if ?b then _ else _) => destruct b
      | |- touches_only _ (match ?x with _ => _ end) => destruct x
      | |- touches_only _ (let '(_, _) := ?x in _) => destruct x
      end ].

Lemma touches_isStorageAvailable : touches_only [test_key] isStorageAvailable.
Proof. unfold isStorageAvailable. touches. Qed.

Lemma touches_generateId (keys : list string) : touches_only keys generateId.
Proof. unfold generateId. touches. Qed.

Lemma touches_migrateLegacyData : touches_only [LEGACY_SESSIONS_KEY] migrateLegacyData.
Proof. unfold migrateLegacyData. touches. Qed.

Lemma touches_saveSessions (sessions : list object) :
  touches_only [test_key; STORAGE_KEY] (saveSessions sessions).
Proof.
  unfold saveSessions. apply touches_bind.
  - eapply touches_more; [ | apply touches_isStorageAvailable]. intros k [<- | []]. simpl. tauto.
  - touches.
Qed.

Lemma touches_filter_valid_from (keys : list string) (sessions : list object) (index : Z) :
  touches_only keys (filter_valid_from index sessions).
Proof.
  revert index. induction sessions as [|s l IH]; intros index; cbn [filter_valid_from].
  - touches.
  - apply touches_bind; [touches | ]. intros keep. apply touches_bind; [apply IH | touches].
Qed.

Lemma touches_loadSessions : touches_only store_keys loadSessions.
Proof.
  assert (Hmig : touches_only store_keys migrateLegacyData).
  { eapply touches_more; [ | apply touches_migrateLegacyData].
    intros k [<- | []]. simpl. tauto. }
  assert (Hsave : forall l, touches_only store_keys (saveSessions l)).
  { intros l. eapply touches_more; [ | apply touches_saveSessions].
    intros k [<- | [<- | []]]; simpl; tauto. }
  unfold loadSessions. apply touches_bind.
  - eapply touches_more; [ | apply touches_isStorageAvailable]. intros k [<- | []]. simpl. tauto.
  - intros [|]; cbv beta iota delta [negb]; [ | touches].
    apply touches_try_catch.
    + apply touches_bind; [touches | ]. intros stored.
      assert (Hpath : touches_only store_keys
                (migratedSessions ← migrateLegacyData;
                 if 0 <? Z.of_nat (List.length migratedSessions)
                 then saveSessions migratedSessions;; ret migratedSessions
                 else ret [])).
      { apply touches_bind; [exact Hmig | ]. intros l.
        destruct (0 <? _); [ | touches].
        apply touches_bind; [apply Hsave | touches]. }
      destruct stored as [[|c s]|]; try exact Hpath.
      apply touches_bind; [touches | ]. intros data.
      apply touches_bind; [touches | ]. intros metadata.
      destruct (JS.truthy metadata); cbv beta iota delta [negb]; [ | touches].
      apply touches_bind; [touches | ]. intros data_sessions.
      destruct (JS.truthy data_sessions); cbv beta iota delta [negb]; [ | touches].
      apply touches_bind; [touches | ]. intros sessions.
      apply touches_bind; [touches | ]. intros dataChecksum.
      apply touches_bind; [touches | ]. intros _.
      apply touches_filter_valid_from.
    + intros e. apply touches_bind; [touches | ]. intros _. exact Hmig.
Qed.

(** ** Envelopes and legacy arrays that cannot be read *)

Lemma prop_returns (v : jsval) (k k' : string) (x : jsval) :
  JS.prop v k = Return x -> exists y, JS.prop v k' = Return y.
Proof. destruct v; try discriminate; simpl; eauto. Qed.

Lemma loadSessions_unreadable (w : World) (stored : string) :
  available w ->
  storage w !! STORAGE_KEY = Some stored ->
  stored <> EmptyString ->
  ~ readable stored ->
  loadSessions w
  = migrateLegacyData (with_console (probed w) (Err, "Failed to load sessions:")).
Proof.
  intros Ha Hs Hne Hun. unfold loadSessions. unfold mbind at 1, M_bind at 1, bind at 1.
  rewrite isStorageAvailable_true by assumption. cbv beta iota delta [negb].
  unfold try_catch. unfold mbind at 1, M_bind at 1, bind at 1.
  rewrite getItem_probed by discriminate. rewrite Hs.
  destruct stored as [|c s]; [congruence | ].
  run. unfold console_error.
  destruct (JSON.parse (String c s)) as [data|] eqn:Hparse; [ | reflexivity].
  destruct (JS.prop data "metadata") as [metadata|] eqn:Hmeta; [ | reflexivity].
  destruct (JS.truthy metadata) eqn:Htruthy; [ | reflexivity].
  cbv beta iota delta [negb].
  destruct (prop_returns data "metadata" "sessions" metadata Hmeta) as [ds Hds].
  rewrite Hds.
  destruct (JS.truthy ds) eqn:Hdst; [ | reflexivity].
  cbv beta iota delta [negb].
  destruct (array_map "data.sessions" revive ds) as [revived|] eqn:Hmap; [ | reflexivity].
  exfalso. apply Hun.
  destruct ds as [| | | | | | items |]; try discriminate Hmap.
  exists data, metadata, items, revived. auto.
Qed.

(** X4: when the envelope key holds a text that a load cannot read (not
    JSON, no [metadata], no array of objects under [sessions]), the load
    writes [Failed to load sessions:] to the console and returns what the
    legacy migration returns; the unreadable text stays under the envelope
    key, and no envelope is written for the migrated records. *)
Theorem unreadable_envelope_falls_back (w : World) (stored : string) :
  available w ->
  storage w !! STORAGE_KEY = Some stored ->
  stored <> EmptyString ->
  ~ readable stored ->
  let w1 := with_console (probed w) (Err, "Failed to load sessions:") in
  loadSessions w = migrateLegacyData w1
  /\ storage (snd (loadSessions w)) !! STORAGE_KEY = Some stored
  /\ forall k, k <> test_key -> k <> LEGACY_SESSIONS_KEY ->
       storage (snd (loadSessions w)) !! k = storage w !! k.
Proof.
  intros Ha Hs Hne Hun w1.
  pose proof (loadSessions_unreadable w stored Ha Hs Hne Hun) as Hload. fold w1 in Hload.
  assert (Hframe : forall k, k <> test_key -> k <> LEGACY_SESSIONS_KEY ->
            storage (snd (loadSessions w)) !! k = storage w !! k).
  { intros k Hk Hl. rewrite Hload.
    rewrite (touches_migrateLegacyData w1 k) by (intros [Heq | []]; congruence).
    apply probed_lookup. assumption. }
  split; [exact Hload | ]. split; [ | exact Hframe].
  rewrite Hframe by discriminate. assumption.
Qed.

Lemma unreadable_envelope_falls_back_witness :
  let w := Examples.garbled_world in
  (exists migrated, fst (loadSessions w) = Return [migrated])
  /\ storage (snd (loadSessions w)) !! STORAGE_KEY = Some "{not json"
  /\ storage (snd (loadSessions w)) !! LEGACY_SESSIONS_KEY = None.
Proof.
  intros w.
  destruct (unreadable_envelope_falls_back w "{not json") as [Hload [Hkept _]].
  - reflexivity.
  - reflexivity.
  - discriminate.
  - intros [data [metadata [items [revived [Hparse _]]]]].
    vm_compute in Hparse. discriminate Hparse.
  - split; [ | split; [exact Hkept | ]].
    + rewrite Hload. vm_compute. eexists. reflexivity.
    + rewrite Hload. vm_compute. reflexivity.
Defined.

Lemma migrateLegacyData_unreadable (w : World) (legacy : string) :
  storage w !! LEGACY_SESSIONS_KEY = Some legacy ->
  legacy <> EmptyString ->
  ~ legacy_readable legacy ->
  migrateLegacyData w
  = (Return [], with_console w (Err, "Failed to migrate legacy data:")).
Proof.
  intros Hl Hne Hun. unfold migrateLegacyData, try_catch.
  unfold mbind at 1, M_bind at 1, bind at 1. unfold localStorage.getItem. rewrite Hl.
  destruct legacy as [|c s]; [congruence | ].
  run. unfold console_error.
  destruct (JSON.parse (String c s)) as [data|] eqn:Hparse; [ | reflexivity].
  destruct (array_map "sessions" revive data) as [revived|] eqn:Hmap; [ | reflexivity].
  exfalso. apply Hun.
  destruct data as [| | | | | | items |]; try discriminate Hmap.
  exists items, revived. auto.
Qed.

(** X5: a legacy text that the migration cannot read (not JSON, not an
    array, or an array with an entry that is [null]) is kept: the migration
    returns the empty list, writes [Failed to migrate legacy data:] to the
    console and leaves the storage as it was; a load that finds no envelope
    then returns the empty list and leaves every key but the probe key. *)
Theorem unreadable_legacy_kept (w : World) (legacy : string) :
  storage w !! LEGACY_SESSIONS_KEY = Some legacy ->
  legacy <> EmptyString ->
  ~ legacy_readable legacy ->
  migrateLegacyData w
  = (Return [], with_console w (Err, "Failed to migrate legacy data:"))
  /\ (available w ->
      blank (storage w !! STORAGE_KEY) ->
      loadSessions w
      = (Return [], with_console (probed w) (Err, "Failed to migrate legacy data:"))
      /\ storage (probed w) !! LEGACY_SESSIONS_KEY = Some legacy).
Proof.
  intros Hl Hne Hun. split; [apply (migrateLegacyData_unreadable w legacy); assumption | ].
  intros Ha Hs. split; [ | rewrite probed_lookup by discriminate; assumption].
  unfold loadSessions. unfold mbind at 1, M_bind at 1, bind at 1.
  rewrite isStorageAvailable_true by assumption. cbv beta iota delta [negb].
  unfold try_catch. unfold mbind at 1, M_bind at 1, bind at 1.
  rewrite getItem_probed by discriminate.
  assert (Hm : migrateLegacyData (probed w)
               = (Return [],
                  with_console (probed w) (Err, "Failed to migrate legacy data:"))).
  { apply (migrateLegacyData_unreadable (probed w) legacy); try assumption.
    rewrite probed_lookup by discriminate. assumption. }
  destruct Hs as [-> | ->]; unfold mbind at 1, M_bind at 1, bind at 1; rewrite Hm;
    reflexivity.
Qed.

Lemma unreadable_legacy_kept_witness :
  let w := mkWorld {[ LEGACY_SESSIONS_KEY := "[null]" ]} None 0 0 (fun _ => "a") 0 [] [] in
  fst (loadSessions w) = Return []
  /\ storage (snd (loadSessions w)) !! LEGACY_SESSIONS_KEY = Some "[null]".
Proof.
  intros w.
  destruct (unreadable_legacy_kept w "[null]") as [_ Hload].
  - reflexivity.
  - discriminate.
  - intros [items [revived [Hparse Hrev]]].
    vm_compute in Hparse. injection Hparse as <-. vm_compute in Hrev. discriminate Hrev.
  - destruct Hload as [Hload Hkept]; [reflexivity | left; reflexivity | ].
    rewrite Hload. split; [reflexivity | exact Hkept].
Defined.

(** X6: a load that finds no envelope and a legacy array none of whose
    records is acceptable returns the empty list and writes no envelope;
    the legacy key is deleted all the same, so the records are in neither
    place afterwards. *)
Theorem invalid_legacy_records_lost
    (w : World) (legacy : string) (items : list jsval) (revived : list object) :
  available w ->
  storage w !! STORAGE_KEY = None ->
  storage w !! LEGACY_SESSIONS_KEY = Some legacy ->
  JSON.parse legacy = Return (VArr items) ->
  map_throwing revive items = Return revived ->
  accepted revived = [] ->
  exists w',
    loadSessions w = (Return [], w')
    /\ storage w' !! LEGACY_SESSIONS_KEY = None
    /\ storage w' !! STORAGE_KEY = None
    /\ journal w'
       = journal w ++ [SetItem test_key test_key; RemoveItem test_key;
                       RemoveItem LEGACY_SESSIONS_KEY].
Proof.
  intros Ha Hs Hl Hparse Hrev Hnone. exists (migrated_world w revived).
  split; [ | split; [ | split]].
  - unfold loadSessions. unfold mbind at 1, M_bind at 1, bind at 1.
    rewrite isStorageAvailable_true by assumption. cbv beta iota delta [negb].
    unfold try_catch. unfold mbind at 1, M_bind at 1, bind at 1.
    rewrite getItem_probed by discriminate. rewrite Hs.
    unfold mbind at 1, M_bind at 1, bind at 1.
    rewrite (migrateLegacyData_migrates w legacy items revived) by assumption.
    rewrite Hnone. reflexivity.
  - unfold migrated_world. simpl. apply lookup_delete_eq.
  - unfold migrated_world. cbn [storage with_storage].
    rewrite lookup_delete_ne by discriminate.
    fold (probed w). rewrite probed_lookup by discriminate. assumption.
  - unfold migrated_world, probed. simpl. rewrite <- !app_assoc. reflexivity.
Qed.

Lemma invalid_legacy_records_lost_witness :
  let text := JSON.stringify_array [VObj Examples.negative_session] in
  let w := mkWorld {[ LEGACY_SESSIONS_KEY := text ]} None 0 0 (fun _ => "a") 0 [] [] in
  exists w',
    loadSessions w = (Return [], w')
    /\ storage w' !! LEGACY_SESSIONS_KEY = None
    /\ storage w' !! STORAGE_KEY = None.
Proof.
  intros text w.
  destruct (invalid_legacy_records_lost w text
              (match JSON.parse text with Return (VArr items) => items | _ => [] end)
              (match map_throwing revive
                       (match JSON.parse text with Return (VArr items) => items | _ => [] end)
               with Return l => l | Throw _ => [] end))
    as [w' [Hload [Hlegacy [Hnew _]]]].
  - reflexivity.
  - reflexivity.
  - reflexivity.
  - vm_compute. reflexivity.
  - vm_compute. reflexivity.
  - vm_compute. reflexivity.
  - exists w'. auto.
Defined.

(** ** The checksum of a stored envelope *)



(** What the legacy migration returns and logs depends on the legacy text
    only. *)
Lemma migrateLegacyData_same_legacy (w1 w2 : World) :
  storage w1 !! LEGACY_SESSIONS_KEY = storage w2 !! LEGACY_SESSIONS_KEY ->
  exists l logs w1' w2',
    migrateLegacyData w1 = (Return l, w1')
    /\ migrateLegacyData w2 = (Return l, w2')
    /\ console w1' = console w1 ++ logs
    /\ console w2' = console w2 ++ logs
    /\ ~ In integrity_warning logs.
Proof.
  intros Hsame. unfold migrateLegacyData. run.
  unfold localStorage.getItem. rewrite Hsame.
  destruct (storage w2 !! LEGACY_SESSIONS_KEY) as [[|c legacy]|].
  - exists [], [], w1, w2. rewrite !app_nil_r. repeat split. intros [].
  - unfold console_error, console_warn, localStorage.removeItem.
    destruct (JSON.parse (String c legacy)) as [sessions|].
    + destruct (array_map "sessions" revive sessions) as [migrated|].
      * destruct (validate_from 0 migrated) as [valid allErrors].
        destruct (0 <? Z.of_nat (List.length allErrors)).
        -- do 4 eexists. split; [reflexivity | ]. split; [reflexivity | ].
           split; [reflexivity | ]. split; [reflexivity | ].
           intros [H | []]. discriminate H.
        -- exists valid, []. do 2 eexists. split; [reflexivity | ].
           split; [reflexivity | ]. simpl. rewrite !app_nil_r. repeat split. intros [].
      * do 4 eexists. split; [reflexivity | ]. split; [reflexivity | ].
        split; [reflexivity | ]. split; [reflexivity | ].
        intros [H | []]. discriminate H.
    + do 4 eexists. split; [reflexivity | ]. split; [reflexivity | ].
      split; [reflexivity | ]. split; [reflexivity | ].
      intros [H | []]. discriminate H.
  - exists [], [], w1, w2. rewrite !app_nil_r. repeat split. intros [].
Qed.

(** A load of an envelope of whose entries one has no properties: the
    revival of the dates throws, and the load logs the failure and returns
    the legacy migration. *)
Lemma loadSessions_null_entry
    (w : World) (metadata : jsval) (items : list jsval) (e : Error) :
  available w ->
  holds_envelope w metadata items ->
  map_throwing revive items = Throw e ->
  loadSessions w
  = migrateLegacyData (with_console (probed w) (Err, "Failed to load sessions:")).
Proof.
  intros Ha [stored [data [H1 [H2 [H3 [H4 H5]]]]]] Hthrow.
  apply (loadSessions_unreadable w stored Ha H1).
  - intros ->. discriminate H2.
  - intros [data' [metadata' [items' [revived [G1 [G2 [G3 [G4 G5]]]]]]]].
    rewrite H2 in G1. injection G1 as <-. rewrite H5 in G4. injection G4 as <-.
    rewrite Hthrow in G5. discriminate G5.
Qed.




(** C10: a load of an envelope without a checksum value ([dataChecksum]
    absent, empty or otherwise falsy) makes no comparison: it writes no
    integrity warning, whatever the entries of the sessions array are, and
    it returns and logs what a load returns and logs from an envelope with
    the same sessions array and the matching checksum, beside the same
    legacy text.  When the dates of all entries can be revived these are the
    acceptable records of the envelope and the warnings for the others; with
    a [null] entry, both loads fall back to the legacy migration. *)
Theorem load_without_checksum
    (w : World) (metadata dataChecksum : jsval) (items : list jsval) :
  available w ->
  holds_envelope w metadata items ->
  JS.prop metadata "dataChecksum" = Return dataChecksum ->
  JS.truthy dataChecksum = false ->
  exists loaded logs w',
    loadSessions w = (Return loaded, w')
    /\ console w' = console w ++ logs
    /\ ~ In integrity_warning logs
    /\ (forall revived,
          map_throwing revive items = Return revived ->
          loaded = accepted revived /\ logs = invalid_warnings 0 revived)
    /\ (forall w2 metadata2,
          available w2 ->
          holds_envelope w2 metadata2 items ->
          JS.prop metadata2 "dataChecksum" = Return (VStr (expected_checksum items)) ->
          storage w2 !! LEGACY_SESSIONS_KEY = storage w !! LEGACY_SESSIONS_KEY ->
          exists w2',
            loadSessions w2 = (Return loaded, w2')
            /\ console w2' = console w2 ++ logs).
Proof.
  intros Ha Henv Hsum Hfalsy.
  destruct (map_throwing revive items) as [revived | e] eqn:Hrev.
  - destruct Henv as [stored [data [H1 [H2 [H3 [H4 H5]]]]]].
    exists (accepted revived), (invalid_warnings 0 revived). eexists.
    split; [ | split; [ | split; [ | split]]].
    + apply (loadSessions_stored w stored data metadata dataChecksum items revived);
        assumption.
    + rewrite Hfalsy. reflexivity.
    + apply integrity_warning_distinct.
    + intros revived' Heq. injection Heq as <-. split; reflexivity.
    + intros w2 metadata2 Ha2 [stored2 [data2 [G1 [G2 [G3 [G4 G5]]]]]] Hsum2 _.
      eexists. split.
      * apply (loadSessions_stored w2 stored2 data2 metadata2
                 (VStr (expected_checksum items)) items revived); assumption.
      * rewrite strict_ne_string_refl, andb_false_r. reflexivity.
  - set (failed := (Err, "Failed to load sessions:")).
    destruct (migrateLegacyData_returns (with_console (probed w) failed))
      as [loaded [w' Hrun]].
    assert (Hlogs : exists logs,
               console w' = console w ++ failed :: logs
               /\ ~ In integrity_warning logs
               /\ forall v,
                    storage v !! LEGACY_SESSIONS_KEY = storage w !! LEGACY_SESSIONS_KEY ->
                    exists v',
                      migrateLegacyData (with_console (probed v) failed)
                      = (Return loaded, v')
                      /\ console v' = console v ++ failed :: logs).
    { assert (Hself : storage (with_console (probed w) failed) !! LEGACY_SESSIONS_KEY
                      = storage w !! LEGACY_SESSIONS_KEY)
        by (apply probed_lookup; discriminate).
      destruct (migrateLegacyData_same_legacy (with_console (probed w) failed)
                  (with_console (probed w) failed) eq_refl)
        as [l [logs [wa [wb [Ra [_ [Ca [_ Hnot]]]]]]]].
      rewrite Hrun in Ra. injection Ra as <- <-.
      exists logs. split; [ | split; [exact Hnot | ]].
      - rewrite Ca. simpl. rewrite <- app_assoc. reflexivity.
      - intros v Hv.
        destruct (migrateLegacyData_same_legacy (with_console (probed w) failed)
                    (with_console (probed v) failed))
          as [l2 [logs2 [wa [v' [Ra [Rb [Ca2 [Cb _]]]]]]]].
        { rewrite Hself. symmetry. etransitivity; [ | exact Hv].
          apply (probed_lookup v). discriminate. }
        rewrite Hrun in Ra. injection Ra as <- <-.
        assert (logs2 = logs) as ->.
        { rewrite Ca in Ca2. apply app_inv_head in Ca2. congruence. }
        exists v'. split; [exact Rb | ].
        rewrite Cb. simpl. rewrite <- app_assoc. reflexivity. }
    destruct Hlogs as [logs [Hconsole [Hnot Hother]]].
    exists loaded, (failed :: logs), w'.
    split; [ | split; [exact Hconsole | split; [ | split]]].
    + rewrite (loadSessions_null_entry w metadata items e Ha Henv Hrev). exact Hrun.
    + intros [H | H]; [discriminate H | exact (Hnot H)].
    + intros revived Heq. discriminate Heq.
    + intros w2 metadata2 Ha2 Henv2 _ Hlegacy.
      rewrite (loadSessions_null_entry w2 metadata2 items e Ha2 Henv2 Hrev).
      apply Hother. exact Hlegacy.
Qed.

Lemma load_without_checksum_witness :
  let w := Examples.world_with_null_entry Examples.unsigned_metadata in
  exists w',
    loadSessions w = (Return [], w')
    /\ console w' = [(Err, "Failed to load sessions:")].
Proof.
  intros w.
  destruct (load_without_checksum w (VObj Examples.unsigned_metadata) VUndefined
              Examples.items_with_null)
    as [loaded [logs [w' [Hrun [Hconsole _]]]]].
  - reflexivity.
  - eexists. eexists. split; [reflexivity | ].
    split; [vm_compute; reflexivity | ]. repeat split.
  - reflexivity.
  - reflexivity.
  - assert (H : loadSessions w = (Return loaded, w')) by exact Hrun.
    vm_compute in H. injection H as Hl Hw.
    exists w'. rewrite Hl. split; [exact Hrun | ].
    rewrite <- Hw. reflexivity.
Defined.

(** ** Saving without room, and adding a session *)

Lemma saveSessions_refused (sessions : list object) (w : World) :
  available w ->
  Forall acceptable sessions ->
  ~ accepts w STORAGE_KEY (envelope_text (clock w) sessions) ->
  exists w',
    saveSessions sessions w
    = (Throw (new_Error "Storage quota exceeded. Please export and clear old data."), w')
    /\ storage w' = storage (probed w)
    /\ journal w' = journal (probed w).
Proof.
  intros Ha Hok Hfit. unfold saveSessions. unfold mbind at 1, M_bind at 1, bind at 1.
  rewrite isStorageAvailable_true by assumption. cbv beta iota delta [negb].
  unfold try_catch.
  apply (blocking_from_nil sessions 0) in Hok. rewrite Hok.
  change (0 <? Z.of_nat (List.length (@nil ValidationError))) with false.
  cbv beta iota. unfold accepts in Hfit. unfold envelope_text in *.
  apply not_true_is_false in Hfit.
  run. unfold Date_now, localStorage.setItem, console_warn.
  destruct (5 * 1024 * 1024 <? _); cbv beta iota zeta;
    change (clock (with_console (probed w) _)) with (clock w);
    change (storage (with_console (probed w) _)) with (storage (probed w));
    change (quota (with_console (probed w) _)) with (quota w);
    change (clock (probed w)) with (clock w);
    change (quota (probed w)) with (quota w);
    rewrite Hfit; eexists; repeat split.
Qed.

(** X7: a save of acceptable records that the medium has no room for
    throws [Storage quota exceeded. Please export and clear old data.]; the
    envelope that was stored before is still there, and so is every other
    key but the probe key. *)
Theorem saveSessions_quota_exceeded (sessions : list object) (w : World) :
  available w ->
  Forall acceptable sessions ->
  ~ accepts w STORAGE_KEY (envelope_text (clock w) sessions) ->
  exists w',
    saveSessions sessions w
    = (Throw (new_Error "Storage quota exceeded. Please export and clear old data."), w')
    /\ forall k, k <> test_key -> storage w' !! k = storage w !! k.
Proof.
  intros Ha Hok Hfit.
  destruct (saveSessions_refused sessions w Ha Hok Hfit) as [w' [Hsave [Hst _]]].
  exists w'. split; [exact Hsave | ]. intros k Hk. rewrite Hst.
  apply probed_lookup. assumption.
Qed.

Lemma saveSessions_quota_exceeded_witness :
  let w := Examples.legacy_world (Some 200) in
  exists w',
    saveSessions [Examples.good_session] w
    = (Throw (new_Error "Storage quota exceeded. Please export and clear old data."), w')
    /\ storage w' !! LEGACY_SESSIONS_KEY = storage w !! LEGACY_SESSIONS_KEY.
Proof.
  intros w.
  destruct (saveSessions_quota_exceeded [Examples.good_session] w) as [w' [Hsave Hst]].
  - vm_compute. reflexivity.
  - constructor; [vm_compute; reflexivity | constructor].
  - unfold accepts. vm_compute. discriminate.
  - exists w'. split; [exact Hsave | ]. apply Hst. discriminate.
Defined.

(** X8: [addSession] of an acceptable record appends it to what a load
    returns: when the medium accepts the write, the stored envelope is the
    one of the loaded records followed by the new record, with
    [sessionCount] one more than their number. *)
Theorem addSession_appends
    (session : object) (w w1 : World) (loaded : list object) :
  acceptable session ->
  loadSessions w = (Return loaded, w1) ->
  available w1 ->
  accepts w1 STORAGE_KEY (envelope_text (clock w) (loaded ++ [session])) ->
  exists w',
    addSession session w = (Return tt, w')
    /\ storage w' !! STORAGE_KEY
       = Some (envelope_text (clock w) (loaded ++ [session]))
    /\ Obj.get (metadata_object (clock w) (loaded ++ [session])) "sessionCount"
       = VNum (Number.of_Z (Z.of_nat (List.length loaded) + 1))
    /\ forall k, ~ In k store_keys -> storage w' !! k = storage w !! k.
Proof.
  intros Hacc Hload Ha1 Hfit.
  assert (Hclock : clock w1 = clock w).
  { pose proof (preserves_loadSessions w) as He. rewrite Hload in He. apply He. }
  assert (Hall : Forall acceptable (loaded ++ [session])).
  { apply Forall_app. split; [ | constructor; [assumption | constructor]].
    eapply loadSessions_acceptable. eassumption. }
  destruct (saveSessions_valid (loaded ++ [session]) w1 Ha1 Hall) as [w' [Hsave [Hst _]]].
  { rewrite Hclock. exact Hfit. }
  exists w'. split; [ | split; [ | split]].
  - unfold addSession. apply is_acceptable_true in Hacc. unfold is_acceptable in Hacc.
    destruct (blocking (validateSession session None false)); [ | discriminate].
    change (0 <? Z.of_nat (List.length (@nil ValidationError))) with false.
    cbv beta iota. run. rewrite Hload. exact Hsave.
  - rewrite Hst, lookup_insert_eq, Hclock. reflexivity.
  - cbn [metadata_object Obj.get String.eqb Ascii.eqb Bool.eqb].
    rewrite length_app. cbn [List.length]. do 2 f_equal. lia.
  - intros k Hk. rewrite Hst.
    rewrite lookup_insert_ne by (intros <-; apply Hk; simpl; tauto).
    rewrite probed_lookup by (intros ->; apply Hk; simpl; tauto).
    pose proof (touches_loadSessions w k Hk) as Hf. rewrite Hload in Hf. exact Hf.
Qed.

Lemma addSession_appends_witness :
  let w := Examples.stored_world in
  exists loaded w',
    addSession Examples.good_session w = (Return tt, w')
    /\ storage w' !! STORAGE_KEY
       = Some (envelope_text (clock w) (loaded ++ [Examples.good_session]))
    /\ List.length loaded = 1%nat.
Proof.
  intros w.
  pose (loaded := match fst (loadSessions w) with Return l => l | Throw _ => [] end).
  destruct (addSession_appends Examples.good_session w (snd (loadSessions w)) loaded)
    as [w' [Hadd [Hst _]]].
  - vm_compute. reflexivity.
  - vm_compute. reflexivity.
  - vm_compute. reflexivity.
  - unfold accepts. vm_compute. reflexivity.
  - exists loaded, w'. split; [exact Hadd | ]. split; [exact Hst | ].
    vm_compute. reflexivity.
Defined.

(** ** Clearing the store *)

Lemma used_swap (j1 j2 z1 z2 : string) (y : Z) :
  JSString.length j1 + JSString.length z1 + (JSString.length j2 + JSString.length z2 + y)
  = JSString.length j2 + JSString.length z2 + (JSString.length j1 + JSString.length z1 + y).
Proof. lia. Qed.

Lemma used_lookup (s : gmap string string) (k v : string) :
  s !! k = Some v ->
  localStorage.used s = JSString.length k + JSString.length v + localStorage.used (delete k s).
Proof.
  intros H. unfold localStorage.used.
  apply (map_fold_delete_L (fun k v acc => JSString.length k + JSString.length v + acc));
    [ | assumption].
  intros. apply used_swap.
Qed.

Lemma used_delete_le (s : gmap string string) (k : string) :
  localStorage.used (delete k s) <= localStorage.used s.
Proof.
  destruct (s !! k) as [v|] eqn:Hk.
  - rewrite (used_lookup s k v Hk). unfold JSString.length. lia.
  - rewrite delete_id by assumption. lia.
Qed.

Lemma used_insert (s : gmap string string) (k v : string) :
  localStorage.used (<[k := v]> s)
  = JSString.length k + JSString.length v + localStorage.used (delete k s).
Proof.
  rewrite (used_lookup (<[k := v]> s) k v) by apply lookup_insert_eq.
  rewrite delete_insert_eq. reflexivity.
Qed.

Lemma fits_delete (q : option Z) (s : gmap string string) (k j v : string) :
  localStorage.fits q (<[k := v]> s) = true ->
  localStorage.fits q (<[k := v]> (delete j s)) = true.
Proof.
  destruct q as [limit|]; [ | reflexivity]. simpl. rewrite !Z.leb_le, !used_insert.
  intros H. pose proof (used_delete_le (delete k s) j) as Hle.
  rewrite delete_delete in Hle. lia.
Qed.

Lemma available_probed (w : World) : available w -> available (probed w).
Proof.
  unfold available, probed. cbn [storage quota with_storage].
  intros H. apply fits_delete. rewrite insert_insert_eq. assumption.
Qed.

(** X9: on an available medium [clearAllData] deletes the envelope and the
    legacy array and touches no other key but the probe key; the medium is
    still available afterwards, a load then returns the empty list and the
    metadata of the store is [null]. *)
Theorem clearAllData_clears (w : World) :
  available w ->
  exists w',
    clearAllData w = (Return tt, w')
    /\ storage w' !! STORAGE_KEY = None
    /\ storage w' !! LEGACY_SESSIONS_KEY = None
    /\ (forall k, ~ In k store_keys -> storage w' !! k = storage w !! k)
    /\ loadSessions w' = (Return [], probed w')
    /\ getStorageMetadata w' = (Return None, w').
Proof.
  intros Ha.
  set (w' := with_storage
               (with_storage (probed w) (delete STORAGE_KEY (storage (probed w)))
                  (RemoveItem STORAGE_KEY))
               (delete LEGACY_SESSIONS_KEY (delete STORAGE_KEY (storage (probed w))))
               (RemoveItem LEGACY_SESSIONS_KEY)).
  assert (Hs : storage w' !! STORAGE_KEY = None).
  { unfold w'. cbn [storage with_storage].
    rewrite lookup_delete_ne by discriminate. apply lookup_delete_eq. }
  assert (Hl : storage w' !! LEGACY_SESSIONS_KEY = None).
  { unfold w'. cbn [storage with_storage]. apply lookup_delete_eq. }
  assert (Ha' : available w').
  { unfold available, w'. cbn [storage quota with_storage].
    do 2 apply fits_delete. apply (available_probed w Ha). }
  exists w'. split; [ | split; [exact Hs | split; [exact Hl | split; [ | split]]]].
  - unfold clearAllData. unfold mbind at 1, M_bind at 1, bind at 1.
    rewrite isStorageAvailable_true by assumption. reflexivity.
  - intros k Hk. unfold w'. cbn [storage with_storage].
    rewrite !lookup_delete_ne by (intros <-; apply Hk; simpl; tauto).
    apply probed_lookup. intros ->. apply Hk. simpl. tauto.
  - apply loadSessions_blank; [assumption | left; assumption | left; assumption].
  - apply getStorageMetadata_blank. left. assumption.
Qed.

Lemma clearAllData_clears_witness :
  exists w',
    clearAllData Examples.stored_world = (Return tt, w')
    /\ storage w' !! STORAGE_KEY = None
    /\ loadSessions w' = (Return [], probed w').
Proof.
  destruct (clearAllData_clears Examples.stored_world) as [w' [Hc [Hs [_ [_ [Hload _]]]]]].
  - vm_compute. reflexivity.
  - exists w'. auto.
Defined.

(** ** The metadata of the store *)

Lemma parse_envelope (now : Z) (objects : list object) :
  Forall serializable (map VObj objects) ->
  JSON.parse (envelope_text now objects)
  = Return (VObj [("metadata", toJSON (VObj (metadata_object now objects)));
                  ("sessions", VArr (map toJSON (map VObj objects)))]).
Proof.
  intros Hser.
  rewrite (parse_stringify (VObj (storageData_object now objects))
             (envelope_text now objects)).
  - rewrite toJSON_VObj. reflexivity.
  - apply serializable_VObj. split.
    + cbn [storageData_object defined List.filter snd fst is_undefined negb map].
      repeat (apply List.NoDup_cons; [simpl; intuition discriminate | ]).
      apply List.NoDup_nil.
    + constructor; [ | constructor; [ | constructor]].
      * apply serializable_VObj. split; [ | repeat constructor].
        cbn [metadata_object defined List.filter snd fst is_undefined negb map].
        repeat (apply List.NoDup_cons; [simpl; intuition discriminate | ]).
        apply List.NoDup_nil.
      * apply serializable_VArr. exact Hser.
  - apply stringify_object_Some.
Qed.

Lemma getStorageMetadata_stored (w : World) (now : Z) (objects : list object) :
  storage w !! STORAGE_KEY = Some (envelope_text now objects) ->
  Forall serializable (map VObj objects) ->
  Z.abs now <= Date.maxTime ->
  getStorageMetadata w = (Return (Some (metadata_object now objects)), w).
Proof.
  intros Hs Hser Hnow.
  pose proof (parse_envelope now objects Hser) as Hparse.
  unfold getStorageMetadata, try_catch. unfold mbind at 1, M_bind at 1, bind at 1.
  unfold localStorage.getItem. rewrite Hs.
  destruct (envelope_text now objects) as [|c s] eqn:Htext; [discriminate Hparse | ].
  run. rewrite Hparse.
  cbn [JS.prop Obj.get String.eqb Ascii.eqb Bool.eqb].
  rewrite toJSON_VObj.
  cbn [metadata_object defined List.filter snd fst is_undefined negb map toJSON
       JS.prop JS.spread Obj.get String.eqb Ascii.eqb Bool.eqb JS.new_Date].
  rewrite parse_toISOString by assumption.
  reflexivity.
Qed.

(** X10: [getStorageMetadata] only reads: it never throws and leaves the
    world as it was, whatever the envelope key holds. *)
Theorem getStorageMetadata_reads_only (w : World) :
  exists result, getStorageMetadata w = (Return result, w).
Proof.
  unfold getStorageMetadata, try_catch. unfold mbind at 1, M_bind at 1, bind at 1.
  unfold localStorage.getItem.
  destruct (storage w !! STORAGE_KEY) as [[|c s]|]; try (eexists; reflexivity).
  run.
  destruct (JSON.parse (String c s)) as [data|]; [ | eexists; reflexivity].
  destruct (JS.prop data "metadata") as [metadata|]; [ | eexists; reflexivity].
  destruct (JS.prop metadata "lastModified") as [lastModified|]; eexists; reflexivity.
Qed.

(** X11: after a save that succeeds, [getStorageMetadata] returns the
    metadata that the save built: the version [1.0.0], the time of the save
    as [lastModified], the number of saved records as [sessionCount] and the
    checksum of their JSON text as [dataChecksum]. *)
Theorem metadata_after_save (sessions : list object) (w : World) :
  available w ->
  Forall acceptable sessions ->
  Forall serializable (map VObj sessions) ->
  accepts w STORAGE_KEY (envelope_text (clock w) sessions) ->
  Z.abs (clock w) <= Date.maxTime ->
  exists w',
    saveSessions sessions w = (Return tt, w')
    /\ getStorageMetadata w'
       = (Return (Some [("version", VStr "1.0.0");
                        ("lastModified", VDate (Some (clock w)));
                        ("sessionCount",
                         VNum (Number.of_Z (Z.of_nat (List.length sessions))));
                        ("dataChecksum",
                         VStr (generateChecksum
                                 (JSON.stringify_array (map VObj sessions))))]),
          w').
Proof.
  intros Ha Hok Hser Hfit Hnow.
  destruct (saveSessions_valid sessions w Ha Hok Hfit) as [w' [Hsave [Hst _]]].
  exists w'. split; [exact Hsave | ].
  apply (getStorageMetadata_stored w' (clock w) sessions); try assumption.
  rewrite Hst. apply lookup_insert_eq.
Qed.

Lemma metadata_after_save_witness :
  exists w' metadata,
    saveSessions [Examples.good_session] Examples.empty_world = (Return tt, w')
    /\ getStorageMetadata w' = (Return (Some metadata), w')
    /\ Obj.get metadata "sessionCount" = VNum (Finite 1 0)
    /\ Obj.get metadata "lastModified" = VDate (Some (clock Examples.empty_world)).
Proof.
  destruct (metadata_after_save [Examples.good_session] Examples.empty_world)
    as [w' [Hsave Hmeta]].
  - reflexivity.
  - constructor; [vm_compute; reflexivity | constructor].
  - constructor; [ | constructor]. apply serializable_VObj. split.
    + vm_compute. repeat (apply List.NoDup_cons; [simpl; intuition discriminate | ]).
      apply List.NoDup_nil.
    + repeat constructor.
  - reflexivity.
  - vm_compute. discriminate.
  - exists w'. eexists. split; [exact Hsave | ]. split; [exact Hmeta | ].
    split; reflexivity.
Defined.

(** ** The statistics are nested *)

Lemma getSessionStats_run (w w' : World) (sessions : list object) :
  let today := Date.local_midnight (utc_offset w) (clock w) in
  - Date.maxTime + days 30 <= today <= Date.maxTime ->
  loadSessions w = (Return sessions, w') ->
  getSessionStats w
  = (Return (mkSessionStats (count_since today sessions)
               (count_since (today - days 7) sessions)
               (count_since (today - days 30) sessions)),
     w').
Proof.
  intros today Hrange Hload.
  pose proof (loadSessions_acceptable _ _ _ Hload) as Hacc.
  pose proof (preserves_loadSessions w) as Henv. rewrite Hload in Henv.
  destruct Henv as [_ [Hclock Hoffset]]. simpl in Hclock, Hoffset.
  unfold getSessionStats. run. rewrite Hload. unfold Date_now, Date_offset.
  rewrite Hclock, Hoffset. fold today.
  unfold days in Hrange.
  rewrite (TimeClip_valid today) by lia. cbn [mbind option_bind].
  rewrite (TimeClip_valid (today - 7 * 24 * 60 * 60 * 1000)) by lia.
  rewrite (TimeClip_valid (today - 30 * 24 * 60 * 60 * 1000)) by lia.
  rewrite !count_completed by assumption. reflexivity.
Qed.

Lemma count_since_antitone (earlier later : Z) (sessions : list object) :
  earlier <= later -> count_since later sessions <= count_since earlier sessions.
Proof.
  intros Hle. unfold count_since. apply inj_le.
  induction sessions as [|s l IH]; [reflexivity | ]. cbn [List.filter].
  assert (H : completed_since later s = true -> completed_since earlier s = true).
  { unfold completed_since.
    destruct (Obj.get s "completed") as [| |[|]| | | | |]; try discriminate.
    destruct (Obj.get s "startTime") as [| | | | |[t|]| |]; try discriminate.
    rewrite !Z.leb_le. lia. }
  destruct (completed_since later s).
  - rewrite H by reflexivity. cbn [List.length]. lia.
  - destruct (completed_since earlier s); cbn [List.length]; lia.
Qed.

Lemma count_since_le_length (bound : Z) (sessions : list object) :
  count_since bound sessions <= Z.of_nat (List.length sessions).
Proof. unfold count_since. apply inj_le. apply List.filter_length_le. Qed.

(** X12: the counts of [getSessionStats] are nested: the sessions of today
    are among those of the last 7 days, which are among those of the last 30
    days, which are among the loaded sessions; hence
    [0 <= daily <= weekly <= monthly <= number of loaded sessions]. *)
Theorem getSessionStats_nested (w : World) :
  let today := Date.local_midnight (utc_offset w) (clock w) in
  - Date.maxTime + days 30 <= today <= Date.maxTime ->
  exists sessions stats w',
    loadSessions w = (Return sessions, w')
    /\ getSessionStats w = (Return stats, w')
    /\ 0 <= daily stats <= weekly stats
    /\ weekly stats <= monthly stats <= Z.of_nat (List.length sessions).
Proof.
  intros today Hrange.
  destruct (loadSessions_returns w) as [sessions [w' Hload]].
  exists sessions. eexists. exists w'. split; [exact Hload | ].
  split; [exact (getSessionStats_run w w' sessions Hrange Hload) | ].
  cbn [daily weekly monthly]. fold today. unfold days.
  pose proof (count_since_antitone (today - 7 * 24 * 60 * 60 * 1000) today sessions).
  pose proof (count_since_antitone (today - 30 * 24 * 60 * 60 * 1000)
                (today - 7 * 24 * 60 * 60 * 1000) sessions).
  pose proof (count_since_le_length (today - 30 * 24 * 60 * 60 * 1000) sessions).
  assert (0 <= count_since today sessions) by (unfold count_since; lia).
  lia.
Qed.

Lemma getSessionStats_nested_witness :
  exists stats w',
    getSessionStats Examples.stats_world = (Return stats, w')
    /\ 0 <= daily stats <= weekly stats
    /\ weekly stats <= monthly stats <= 4.
Proof.
  destruct (getSessionStats_nested Examples.stats_world)
    as [sessions [stats [w' [Hload [Hstats [Hd Hm]]]]]].
  - vm_compute. split; discriminate.
  - exists stats, w'. split; [exact Hstats | ]. split; [exact Hd | ].
    assert (Hlen : List.length sessions = 4%nat).
    { assert (Hl : fst (loadSessions Examples.stats_world) = Return sessions)
        by (rewrite Hload; reflexivity).
      vm_compute in Hl. injection Hl as <-. reflexivity. }
    rewrite Hlen in Hm. exact Hm.
Defined.

(** ** The preview of a CSV file *)

Lemma validateSession_string_id (session : object) (rowIndex : option Z) (x : string) :
  Obj.get session "id" = VStr x -> x <> EmptyString ->
  validateSession session rowIndex true = validateSession session rowIndex false.
Proof.
  intros Hid Hx. unfold validateSession. rewrite Hid.
  destruct x as [|c x]; [congruence | ]. reflexivity.
Qed.

Lemma row_outcome (n : Z) (st : ImportState) (sessionId : string) (rest : object)
    (errs : list ValidationError) (gen rowNumber : Z) (used : gset string) :
  import_invariant n st ->
  sessionId <> EmptyString ->
  blocking errs = blocking (st_errors st) ->
  st_generatedIds st <= gen <= st_generatedIds st + 2 ->
  let session := ("id", VStr sessionId) :: rest in
  revived_dates session ->
  let validationErrors := validateSession session (Some rowNumber) true in
  import_invariant (n + 1)
    (mkImportState (errs ++ validationErrors)
       (if Z.of_nat (List.length (blocking validationErrors)) =? 0
        then st_validSessions st ++ [session]
        else st_validSessions st)
       gen used).
Proof.
  intros [Hlen [Hgen [Htyped Hiff]]] Hid Herrs Hg session Hdates validationErrors.
  assert (Hval : validationErrors = validateSession session (Some rowNumber) false).
  { apply (validateSession_string_id session (Some rowNumber) sessionId);
      [reflexivity | assumption]. }
  unfold import_invariant. cbn [st_validSessions st_generatedIds st_errors].
  rewrite blocking_app, Herrs, zero_length.
  destruct (decide (blocking validationErrors = [])) as [Hnil | Hcons].
  - rewrite bool_decide_eq_true_2 by assumption.
    rewrite Hnil, app_nil_r, length_app. cbn [List.length].
    split; [lia | ]. split; [lia | ]. split.
    + apply Forall_app. split; [assumption | ]. constructor; [ | constructor].
      apply acceptable_well_typed; [ | assumption].
      apply (acceptable_row session rowNumber). rewrite <- Hval. assumption.
    + rewrite Hiff. lia.
  - rewrite bool_decide_eq_false_2 by assumption.
    split; [lia | ]. split; [lia | ]. split; [assumption | ]. split.
    + intros H. apply app_eq_nil in H. tauto.
    + lia.
Qed.

Lemma generateId_run (w : World) :
  generateId w
  = (Return ("session_" +:+ Digits.of_Z (clock w) +:+ "_" +:+ random_suffix w (draws w)),
     with_draw w).
Proof. reflexivity. Qed.

Lemma bind_Return {A B} (m : M A) (f : A -> M B) (w : World) (a : A) (w1 : World) :
  m w = (Return a, w1) -> (m ≫= f) w = f a w1.
Proof. intros H. run. rewrite H. reflexivity. Qed.

Lemma generated_nonempty (x : string) : "session_" +:+ x <> EmptyString.
Proof. rewrite append_cons. discriminate. Qed.

Section Preview.

Variable Papa_parse : string -> PapaResults.

Lemma validate_row_invariant (index n : Z) (row : gmap string string) (st : ImportState)
    (w : World) :
  import_invariant n st ->
  exists st' w',
    validate_row index row st w = (Return st', w') /\ import_invariant (n + 1) st'.
Proof.
  intros Hinv. pose proof Hinv as [_ [Hgen _]].
  unfold validate_row.
  match goal with
  | |- context [?m ≫= ?f] =>
      assert (H1 : exists sessionId gen w1,
                m w = (Return (sessionId, gen), w1)
                /\ sessionId <> EmptyString
                /\ st_generatedIds st <= gen <= st_generatedIds st + 1);
      [ | destruct H1 as [sessionId [gen [w1 [H1 [Hne Hg]]]]];
          rewrite (bind_Return m f w _ w1 H1) ]
  end.
  { destruct (JSString.trim <$> row !! "id") as [[|c sid]|].
    - eexists. eexists. eexists. split; [reflexivity | ].
      split; [apply generated_nonempty | lia].
    - eexists. eexists. eexists. split; [reflexivity | ]. split; [discriminate | lia].
    - eexists. eexists. eexists. split; [reflexivity | ].
      split; [apply generated_nonempty | lia]. }
  cbv beta iota.
  match goal with
  | |- context [?m ≫= ?f] =>
      assert (H2 : exists sessionId' gen' errs w2,
                m w1 = (Return (sessionId', gen', errs), w2)
                /\ sessionId' <> EmptyString
                /\ gen <= gen' <= gen + 1
                /\ blocking errs = blocking (st_errors st));
      [ | destruct H2 as [sessionId' [gen' [errs [w2 [H2 [Hne' [Hg' Herrs]]]]]]];
          rewrite (bind_Return m f w1 _ w2 H2) ]
  end.
  { destruct (bool_decide (sessionId ∈ st_usedIds st)).
    - eexists. eexists. eexists. eexists. split; [reflexivity | ].
      split; [apply generated_nonempty | ]. split; [lia | ].
      rewrite blocking_app. apply app_nil_r.
    - eexists. eexists. eexists. eexists. split; [reflexivity | ].
      split; [assumption | ]. split; [lia | reflexivity]. }
  cbv beta iota. eexists. eexists. split; [reflexivity | ].
  apply row_outcome; try assumption; [lia | ].
  split; [eexists; reflexivity | ].
  cbn [Obj.get String.eqb Ascii.eqb Bool.eqb].
  destruct (row !! "endTime") as [[|? ?]|]; eauto.
Qed.

Lemma validate_rows_invariant (rows : list (gmap string string)) (index n : Z)
    (st : ImportState) (w : World) :
  import_invariant n st ->
  exists st' w',
    validate_rows index rows st w = (Return st', w')
    /\ import_invariant (n + Z.of_nat (List.length rows)) st'.
Proof.
  revert index n st w. induction rows as [|row rows IH]; intros index n st w Hinv.
  - exists st, w. split; [reflexivity | ]. cbn [List.length]. rewrite Z.add_0_r. assumption.
  - destruct (validate_row_invariant index n row st w Hinv) as [st1 [w1 [Hrow Hinv1]]].
    destruct (IH (index + 1) (n + 1) st1 w1 Hinv1) as [st2 [w2 [Hrows Hinv2]]].
    exists st2, w2. split.
    + cbn [validate_rows]. run. rewrite Hrow. exact Hrows.
    + cbn [List.length]. replace (n + Z.of_nat (S (List.length rows)))
        with (n + 1 + Z.of_nat (List.length rows)) by lia. assumption.
Qed.

End Preview.

Lemma well_typed_acceptable (s : object) : well_typed s -> acceptable s.
Proof.
  intros H5. apply is_acceptable_true. rewrite is_acceptable_passes.
  destruct H5 as [[x [Hx Hxne]] [[y [Hy Hyne]] [[n [Hn Hpos]] [[t [Ht Htr]]
                  [Hend [b Hb]]]]]].
  unfold passes. rewrite Hx, Hy, Hn, Ht, Hb, Hpos.
  cbn [JS.truthy JS.is_string JS.is_boolean JS.new_Date mbind option_bind negb andb].
  destruct x as [|cx x]; [congruence | ]. cbn [String.eqb negb andb].
  destruct y as [|cy y]; [exfalso; apply Hyne; reflexivity | ]. cbn [String.eqb negb andb].
  assert (Hlen : (JSString.length (JSString.trim (String cy y)) =? 0) = false).
  { apply Z.eqb_neq. unfold JSString.length.
    destruct (JSString.trim (String cy y)); [congruence | ]. simpl. lia. }
  rewrite Hlen. cbn [negb andb].
  rewrite (TimeClip_valid t) by lia.
  rewrite bool_decide_eq_true_2 by eauto. cbn [andb].
  destruct Hend as [-> | [e [-> He]]]; cbn [JS.truthy JS.new_Date mbind option_bind];
    [reflexivity | ].
  rewrite (TimeClip_valid e) by lia. rewrite bool_decide_eq_true_2 by eauto. reflexivity.
Qed.

Lemma is_duplicate_of_well_typed (candidate existing : object) :
  well_typed candidate -> well_typed existing ->
  exists b, is_duplicate_of candidate existing = Return b.
Proof.
  intros [_ [[x [Hx _]] [_ [[t [Ht _]] _]]]] [_ [[y [Hy _]] [_ [[u [Hu _]] _]]]].
  unfold is_duplicate_of. rewrite Hx, Hy, Ht, Hu. cbn.
  destruct (String.eqb _ _); eauto.
Qed.

Lemma find_first_well_typed (candidate : object) (existing : list object) :
  well_typed candidate -> Forall well_typed existing ->
  exists r, find_first (is_duplicate_of candidate) existing = Return r.
Proof.
  intros Hc He. induction He as [|e l He _ IH]; [eexists; reflexivity | ].
  cbn [find_first]. destruct (is_duplicate_of_well_typed candidate e Hc He) as [b ->].
  cbn. destruct b; [eexists; reflexivity | exact IH].
Qed.

Lemma findDuplicates_well_typed (candidates existing : list object) :
  Forall well_typed candidates -> Forall well_typed existing ->
  exists found,
    findDuplicates candidates existing = Return found
    /\ (List.length found <= List.length candidates)%nat.
Proof.
  intros Hc He. induction Hc as [|c l Hc _ [found [IH Hlen]]].
  - exists []. split; [reflexivity | simpl; lia].
  - cbn [findDuplicates].
    destruct (find_first_well_typed c existing Hc He) as [r ->]. cbn.
    rewrite IH. cbn. eexists. split; [reflexivity | ].
    destruct r; cbn [List.length]; lia.
Qed.

Section Resolves.

Variable Papa_parse : string -> PapaResults.

Lemma complete_returns (results : PapaResults) (w : World) :
  exists preview w',
    complete results w = (Return preview, w')
    /\ totalRows preview = Z.of_nat (List.length (data results))
    /\ validRows preview = Z.of_nat (List.length (sampleData preview))
    /\ validRows preview <= totalRows preview
    /\ 0 <= generatedIds preview <= 2 * totalRows preview
    /\ Forall well_typed (sampleData preview)
    /\ (List.length (duplicates preview) <= List.length (sampleData preview))%nat
    /\ (blocking (errors preview) = [] -> validRows preview = totalRows preview)
    /\ ((forall col, In col requiredColumns ->
           includes (default [] (fields results)) col = true) ->
        validRows preview = totalRows preview -> blocking (errors preview) = []).
Proof.
  unfold complete.
  set (headers := default [] (fields results)).
  set (missing := List.filter (fun col => negb (includes headers col)) requiredColumns).
  set (errs := map (fun col => mkValidationError error ("Missing required column: " +:+ col)
                                  None (Some col) VUndefined) missing).
  set (st0 := mkImportState errs [] 0 ∅).
  assert (Hst : exists st w1,
            (if Z.of_nat (List.length errs) =? 0
             then validate_rows 0 (data results) st0
             else ret st0) w = (Return st, w1)
            /\ Z.of_nat (List.length (st_validSessions st))
               <= Z.of_nat (List.length (data results))
            /\ 0 <= st_generatedIds st <= 2 * Z.of_nat (List.length (data results))
            /\ Forall well_typed (st_validSessions st)
            /\ (blocking (st_errors st) = [] ->
                Z.of_nat (List.length (st_validSessions st))
                = Z.of_nat (List.length (data results)))
            /\ (missing = [] ->
                Z.of_nat (List.length (st_validSessions st))
                = Z.of_nat (List.length (data results)) ->
                blocking (st_errors st) = [])).
  { assert (Hblocking : blocking errs = errs).
    { unfold errs. induction missing as [|col l IH]; [reflexivity | ].
      cbn [map blocking List.filter type Severity_eqb]. f_equal. exact IH. }
    rewrite zero_length. destruct (decide (errs = [])) as [Herrs | Herrs].
    - rewrite bool_decide_eq_true_2 by assumption.
      destruct (validate_rows_invariant (data results) 0 0 st0 w)
        as [st [w1 [Hrun [H1 [H2 [H3 H4]]]]]].
      { unfold st0, import_invariant. cbn [st_validSessions st_generatedIds st_errors].
        rewrite Herrs. cbn.
        split; [lia | ]. split; [lia | ]. split; [constructor | ]. split; reflexivity. }
      exists st, w1. split; [exact Hrun | ]. rewrite Z.add_0_l in *.
      split; [lia | ]. split; [lia | ]. split; [assumption | ].
      split; [apply H4 | ]. intros _. apply H4.
    - rewrite bool_decide_eq_false_2 by assumption.
      exists st0, w. split; [reflexivity | ]. unfold st0.
      cbn [st_validSessions st_generatedIds st_errors List.length].
      split; [lia | ]. split; [lia | ]. split; [constructor | ]. split.
      + rewrite Hblocking. intros Hb. contradiction.
      + intros Hm. exfalso. apply Herrs. unfold errs. rewrite Hm. reflexivity. }
  destruct Hst as [st [w1 [Hrun [H1 [H2 [H3 [H4 H5]]]]]]].
  rewrite (bind_Return _ _ w st w1 Hrun).
  destruct (loadSessions_returns w1) as [existing [w2 Hload]].
  rewrite (bind_Return _ _ w1 existing w2 Hload).
  pose proof (loadSessions_well_typed _ _ _ Hload) as Hexisting.
  destruct (findDuplicates_well_typed (st_validSessions st) existing H3 Hexisting)
    as [found [Hfound Hlen]].
  unfold lift. unfold mbind at 1, M_bind at 1, bind at 1. rewrite Hfound.
  eexists. eexists. split; [reflexivity | ].
  cbn [totalRows validRows errors sampleData duplicates generatedIds].
  split; [reflexivity | ]. split; [reflexivity | ]. split; [lia | ]. split; [lia | ].
  split; [assumption | ]. split; [assumption | ]. split; [assumption | ].
  intros Hall. apply H5. unfold missing. fold headers in Hall.
  assert (Hnone : forall l,
            (forall col, In col l -> includes headers col = true) ->
            List.filter (fun col => negb (includes headers col)) l = []).
  { induction l as [|c l IH]; intros Hl; [reflexivity | ].
    cbn [List.filter]. rewrite (Hl c) by (left; reflexivity). cbn [negb].
    apply IH. intros col Hin. apply Hl. right. assumption. }
  apply Hnone. exact Hall.
Qed.

End Resolves.

(** X13: [validateCSVFile] resolves for every admissible file that can be
    read, whatever its rows hold: the issues of the rows are reported in the
    preview, not thrown.  The preview counts every row, keeps at most as
    many records as there are rows, each of them well typed and acceptable
    for a save, generates at most two ids for a row, reports at most one
    duplicate for a kept record, and keeps every row when it reports no
    issue of severity [error] (and only then, when no column is missing). *)
Theorem validateCSVFile_resolves
    (Papa_parse : string -> PapaResults) (file : File.t) (csvContent : string)
    (w : World) :
  admissible file ->
  File.text file = Some csvContent ->
  let results := Papa_parse csvContent in
  exists preview w',
    validateCSVFile Papa_parse file w = (Return preview, w')
    /\ totalRows preview = Z.of_nat (List.length (data results))
    /\ validRows preview = Z.of_nat (List.length (sampleData preview))
    /\ validRows preview <= totalRows preview
    /\ 0 <= generatedIds preview <= 2 * totalRows preview
    /\ Forall well_typed (sampleData preview)
    /\ Forall acceptable (sampleData preview)
    /\ (List.length (duplicates preview) <= List.length (sampleData preview))%nat
    /\ (blocking (errors preview) = [] -> validRows preview = totalRows preview)
    /\ ((forall col, In col requiredColumns ->
           includes (default [] (fields results)) col = true) ->
        validRows preview = totalRows preview -> blocking (errors preview) = []).
Proof.
  intros [Hsize Hkind] Htext results.
  destruct (complete_returns results w)
    as [preview [w' [Hrun [H1 [H2 [H3 [H4 [H5 [H6 [H7 H8]]]]]]]]]].
  exists preview, w'. split.
  - unfold validateCSVFile.
    assert (Hs : (MAX_FILE_SIZE <? File.size file) = false) by (apply Z.ltb_ge; assumption).
    rewrite Hs.
    assert (Hk : negb (JSString.endsWith (JSString.toLowerCase (File.name file)) ".csv")
                 && negb (String.eqb (File.type file) "text/csv") = false).
    { destruct Hkind as [-> | ->]; [reflexivity | ]. apply andb_false_r. }
    rewrite Hk, Htext. unfold try_catch. fold results. rewrite Hrun. reflexivity.
  - split; [assumption | ]. split; [assumption | ]. split; [assumption | ].
    split; [assumption | ]. split; [assumption | ]. split; [ | auto].
    eapply List.Forall_impl; [ | exact H5]. apply well_typed_acceptable.
Qed.

Lemma validateCSVFile_resolves_witness :
  exists preview w',
    validateCSVFile Examples.parsed_three_rows Examples.csv_three_rows Examples.empty_world
    = (Return preview, w')
    /\ totalRows preview = 3
    /\ validRows preview = 2
    /\ generatedIds preview = 2
    /\ Forall acceptable (sampleData preview).
Proof.
  destruct (validateCSVFile_resolves Examples.parsed_three_rows Examples.csv_three_rows
              "id,subject,duration,startTime,completed" Examples.empty_world)
    as [preview [w' [Hrun [_ [_ [_ [_ [_ [Hacc _]]]]]]]]].
  - split; [vm_compute; discriminate | left; vm_compute; reflexivity].
  - reflexivity.
  - exists preview, w'. split; [exact Hrun | ].
    assert (H : fst (validateCSVFile Examples.parsed_three_rows Examples.csv_three_rows
                       Examples.empty_world) = Return preview)
      by (rewrite Hrun; reflexivity).
    vm_compute in H. injection H as H. rewrite <- H in *.
    split; [reflexivity | ]. split; [reflexivity | ]. split; [reflexivity | exact Hacc].
Defined.

(** X14: a file that is too large, or neither named [.csv] nor typed
    [text/csv], or that cannot be read, is rejected with an [Error] before
    anything else happens: the storage is neither read nor probed, and
    nothing is written to the console. *)
Theorem validateCSVFile_rejects
    (Papa_parse : string -> PapaResults) (file : File.t) (w : World) :
  ~ admissible file \/ File.text file = None ->
  exists reason,
    validateCSVFile Papa_parse file w = (Throw (new_Error reason), w)
    /\ (MAX_FILE_SIZE < File.size file ->
        reason = "File size (" +:+ Digits.of_Z ((File.size file + 512) / 1024)
                   +:+ "KB) exceeds maximum allowed size (1024KB)")
    /\ (File.size file <= MAX_FILE_SIZE -> ~ admissible file ->
        reason = "File must be a CSV file (.csv extension)")
    /\ (admissible file -> reason = "Failed to read file").
Proof.
  intros H. unfold validateCSVFile.
  destruct (MAX_FILE_SIZE <? File.size file) eqn:Hs.
  - apply Z.ltb_lt in Hs. eexists. split; [reflexivity | ].
    split; [intros _; reflexivity | ]. split; [lia | ].
    intros [Hle _]. lia.
  - apply Z.ltb_ge in Hs.
    destruct (JSString.endsWith (JSString.toLowerCase (File.name file)) ".csv") eqn:Hn;
      cbn [negb andb].
    + assert (Hadm : admissible file) by (split; [assumption | left; assumption]).
      destruct H as [H | H]; [contradiction | ]. rewrite H.
      eexists. split; [reflexivity | ]. split; [lia | ].
      split; [intros _ Hna; contradiction | reflexivity].
    + destruct (String.eqb_spec (File.type file) "text/csv") as [Ht | Ht]; cbn [negb].
      * assert (Hadm : admissible file) by (split; [assumption | right; assumption]).
        destruct H as [H | H]; [contradiction | ]. rewrite H.
        eexists. split; [reflexivity | ]. split; [lia | ].
        split; [intros _ Hna; contradiction | reflexivity].
      * eexists. split; [reflexivity | ]. split; [lia | ].
        split; [reflexivity | ]. intros [_ [Hc | Hc]]; congruence.
Qed.

Lemma validateCSVFile_rejects_witness :
  validateCSVFile Examples.parsed_three_rows
    (File.mk "sessions.csv" "text/csv" 2000000 (Some "subject")) Examples.empty_world
  = (Throw (new_Error "File size (1953KB) exceeds maximum allowed size (1024KB)"),
     Examples.empty_world).
Proof.
  destruct (validateCSVFile_rejects Examples.parsed_three_rows
              (File.mk "sessions.csv" "text/csv" 2000000 (Some "subject"))
              Examples.empty_world)
    as [reason [Hrun [Hsize _]]].
  - left. intros [Hle _]. vm_compute in Hle. apply Hle. reflexivity.
  - rewrite Hrun, Hsize by (vm_compute; reflexivity). reflexivity.
Defined.

(** ** The issues of a validation *)

Lemma sublist_optional {A} (c : bool) (x y : A) (f : A -> option string) (col : string) :
  f x = Some col -> f y = Some col ->
  sublist (map f (if c then [x] else [])) [Some col].
Proof.
  intros Hx _. destruct c; cbn [map].
  - rewrite Hx. apply sublist_skip. apply sublist_nil.
  - apply sublist_cons. apply sublist_nil.
Qed.

(** X15: a validation raises at most one issue for a field, in the order
    id, subject, duration, startTime, endTime, completed; every issue names
    its field as [column] and carries the row index that was given. *)
Theorem validateSession_one_issue_per_field
    (session : object) (rowIndex : option Z) (allowMissingId : bool) :
  let issues := validateSession session rowIndex allowMissingId in
  sublist (map column issues) checked_fields
  /\ Forall (fun i => row i = rowIndex) issues
  /\ (List.length issues <= 6)%nat.
Proof.
  intros issues.
  assert (Hsub : sublist (map column issues) checked_fields).
  { unfold issues, validateSession, checked_fields. rewrite !map_app.
    change [Some "id"; Some "subject"; Some "duration"; Some "startTime"; Some "endTime";
            Some "completed"]
      with ([Some "id"] ++ [Some "subject"] ++ [Some "duration"]
              ++ ([Some "startTime"] ++ [Some "endTime"]) ++ [Some "completed"]).
    repeat apply sublist_app.
    - destruct (negb allowMissingId && _); [apply sublist_skip, sublist_nil | ].
      destruct (JS.truthy _ && _); [apply sublist_skip, sublist_nil | ].
      apply sublist_cons, sublist_nil.
    - destruct (negb _ || _); [apply sublist_skip, sublist_nil | apply sublist_cons, sublist_nil].
    - match goal with |- context [if ?c then _ else _] => destruct c end;
        [apply sublist_skip, sublist_nil | apply sublist_cons, sublist_nil].
    - destruct (JS.new_Date (Obj.get session "startTime"));
        [apply sublist_cons, sublist_nil | apply sublist_skip, sublist_nil].
    - destruct (JS.truthy (Obj.get session "endTime")); [ | apply sublist_cons, sublist_nil].
      destruct (JS.new_Date (Obj.get session "endTime")); [ | apply sublist_skip, sublist_nil].
      destruct (JS.time_ge _ _); [apply sublist_skip, sublist_nil | apply sublist_cons, sublist_nil].
    - destruct (negb _); [apply sublist_skip, sublist_nil | apply sublist_cons, sublist_nil]. }
  split; [exact Hsub | ]. split.
  - unfold issues, validateSession.
    repeat (apply Forall_app; split);
      repeat match goal with
             | |- Forall _ (if ?c then _ else _) => destruct c
             | |- Forall _ (match ?c with _ => _ end) => destruct c
             end;
      repeat constructor.
  - apply sublist_length in Hsub. rewrite length_map in Hsub. exact Hsub.
Qed.

(** X16: [allowMissingId] waives the issue of a missing id and nothing
    else.  For a record without id (undefined, null or the empty string) the
    strict validation raises one more issue, an [error] on [id]; for a
    record with an id the two validations agree on every advisory issue and
    on whether there is a blocking issue. *)
Theorem allowMissingId_waives_missing_id (session : object) (rowIndex : option Z) :
  (JS.truthy (Obj.get session "id") = false ->
   exists e,
     validateSession session rowIndex false = e :: validateSession session rowIndex true
     /\ type e = error /\ column e = Some "id" /\ row e = rowIndex
     /\ ~ In (Some "id") (map column (validateSession session rowIndex true)))
  /\ (JS.truthy (Obj.get session "id") = true ->
      warnings (validateSession session rowIndex true)
      = warnings (validateSession session rowIndex false)
      /\ (blocking (validateSession session rowIndex true) = []
          <-> blocking (validateSession session rowIndex false) = [])).
Proof.
  split.
  - intros Hid. eexists. split; [ | split; [ | split; [ | split]]].
    + unfold validateSession. rewrite Hid. cbn [negb andb orb app]. reflexivity.
    + reflexivity.
    + reflexivity.
    + reflexivity.
    + unfold validateSession. rewrite Hid. cbn [negb andb orb app]. rewrite !map_app.
      rewrite !in_app_iff.
      intros [H | [H | [[H | H] | H]]];
        repeat match type of H with
               | In _ (map _ (if ?c then _ else _)) => destruct c
               | In _ (map _ (match ?c with _ => _ end)) => destruct c
               end;
        simpl in H; intuition discriminate.
  - intros Hid. unfold validateSession. rewrite Hid. cbn [negb andb orb].
    rewrite !warnings_app, !blocking_app.
    destruct (JS.is_string (Obj.get session "id")); cbn [negb]; [split; reflexivity | ].
    split; [reflexivity | ]. split; intros H; discriminate H.
Qed.

Lemma allowMissingId_waives_missing_id_witness :
  let session := Obj.set Examples.good_session "id" (VStr EmptyString) in
  blocking (validateSession session None true) = []
  /\ exists e, validateSession session None false = [e] /\ column e = Some "id".
Proof.
  intros session.
  destruct (allowMissingId_waives_missing_id session None) as [Hmissing _].
  destruct Hmissing as [e [Hval [_ [Hcol _]]]]; [reflexivity | ].
  split; [vm_compute; reflexivity | ].
  exists e. split; [ | exact Hcol]. rewrite Hval. f_equal; vm_compute; reflexivity.
Defined.

Lemma Session_object_fields (s : Session) :
  Obj.get (Session_object s) "id" = VStr (id s)
  /\ Obj.get (Session_object s) "duration" = VNum (duration s)
  /\ Obj.get (Session_object s) "completed" = VBool (completed s)
  /\ Obj.get (Session_object s) "endTime"
     = match endTime s with Some t => VDate t | None => VUndefined end.
Proof. destruct s as [? ? ? ? [e|] ?]; repeat split. Qed.

Lemma well_typed_Session_object (s : Session) :
  id s <> EmptyString
  /\ JSString.trim (subject s) <> EmptyString
  /\ Number.le_zero (duration s) = false
  /\ (exists t, startTime s = Some t /\ Z.abs t <= Date.maxTime)
  /\ (endTime s = None
      \/ exists e, endTime s = Some (Some e) /\ Z.abs e <= Date.maxTime) ->
  well_typed (Session_object s).
Proof.
  destruct (Session_object_fields s) as [Hid [Hdur [Hdone Hend]]].
  pose proof (Session_object_subject s) as Hsub.
  pose proof (Session_object_startTime s) as Hstart.
  intros [Hne [Hblank [Hpos [[t [Ht Htr]] Hen]]]].
  unfold well_typed. rewrite Hid, Hsub, Hdur, Hstart, Hdone, Hend, Ht.
  split; [eauto | ]. split; [eauto | ]. split; [eauto | ]. split; [eauto | ].
  split; [ | eauto].
  destruct Hen as [-> | [e [-> He]]]; [left; reflexivity | right; eauto].
Qed.

(** X17: a record of the type [Session] has no blocking issue exactly when
    its id is not empty, its subject is not blank, its duration is not zero
    or negative ([NaN] passes), its start is a valid date and its end, when
    present, is a valid date. *)
Theorem acceptable_Session (s : Session) :
  acceptable (Session_object s)
  <-> id s <> EmptyString
      /\ JSString.trim (subject s) <> EmptyString
      /\ Number.le_zero (duration s) = false
      /\ (exists t, startTime s = Some t /\ Z.abs t <= Date.maxTime)
      /\ (endTime s = None
          \/ exists e, endTime s = Some (Some e) /\ Z.abs e <= Date.maxTime).
Proof.
  destruct (Session_object_fields s) as [Hid [Hdur [Hdone Hend]]].
  pose proof (Session_object_subject s) as Hsub.
  pose proof (Session_object_startTime s) as Hstart.
  split.
  - intros Hacc.
    assert (Hdates : revived_dates (Session_object s)).
    { split; [eexists; exact Hstart | ]. rewrite Hend.
      destruct (endTime s); eauto. }
    destruct (acceptable_well_typed _ Hacc Hdates)
      as [[x [Hx Hxne]] [[y [Hy Hyne]] [[n [Hn Hpos]] [[t [Ht Htr]] [Hen _]]]]].
    rewrite Hid in Hx. rewrite Hsub in Hy. rewrite Hdur in Hn. rewrite Hstart in Ht.
    injection Hx as <-. injection Hy as <-. injection Hn as <-. injection Ht as Ht.
    split; [assumption | ]. split; [assumption | ]. split; [assumption | ].
    split; [eauto | ]. rewrite Hend in Hen.
    destruct (endTime s) as [e|]; [right | left; reflexivity].
    destruct Hen as [Hen | [u [Hu Hur]]]; [discriminate Hen | ].
    injection Hu as ->. eauto.
  - intros H. apply well_typed_acceptable, well_typed_Session_object. exact H.
Qed.

(** ** The checksum *)

Lemma ToInt32_shift (z k : Z) : ToInt32 (z + k * 2 ^ 32) = ToInt32 z.
Proof.
  unfold ToInt32. replace (z + k * 2 ^ 32 + 2 ^ 31) with (z + 2 ^ 31 + k * 2 ^ 32) by ring.
  rewrite Z_mod_plus_full. reflexivity.
Qed.

Lemma ToInt32_wraps (z : Z) : exists k, ToInt32 z = z + k * 2 ^ 32.
Proof.
  exists (- ((z + 2 ^ 31) / 2 ^ 32)). unfold ToInt32.
  pose proof (Z_div_mod_eq_full (z + 2 ^ 31) (2 ^ 32)) as H. lia.
Qed.

Lemma ToInt32_range (z : Z) : - 2 ^ 31 <= ToInt32 z < 2 ^ 31.
Proof.
  unfold ToInt32. pose proof (Z.mod_pos_bound (z + 2 ^ 31) (2 ^ 32) eq_refl) as H.
  change (2 ^ 32) with (2 ^ 31 + 2 ^ 31) in H at 3. lia.
Qed.

Lemma generateChecksum_step_wraps (hash char : Z) :
  generateChecksum_step hash char = ToInt32 (31 * hash + char).
Proof.
  unfold generateChecksum_step, and32, shl32.
  rewrite Z.land_diag, Z.shiftl_mul_pow2 by discriminate.
  destruct (ToInt32_wraps hash) as [k ->].
  destruct (ToInt32_wraps ((hash + k * 2 ^ 32) * 2 ^ 5)) as [j ->].
  destruct (ToInt32_wraps ((hash + k * 2 ^ 32) * 2 ^ 5 + j * 2 ^ 32 - hash + char)) as [i ->].
  replace ((hash + k * 2 ^ 32) * 2 ^ 5 + j * 2 ^ 32 - hash + char + i * 2 ^ 32)
    with (31 * hash + char + (k * 2 ^ 5 + j + i) * 2 ^ 32) by ring.
  apply ToInt32_shift.
Qed.

Lemma ToInt32_step (p char : Z) :
  ToInt32 (31 * ToInt32 p + char) = ToInt32 (31 * p + char).
Proof.
  destruct (ToInt32_wraps p) as [k ->].
  replace (31 * (p + k * 2 ^ 32) + char) with (31 * p + char + (31 * k) * 2 ^ 32) by ring.
  apply ToInt32_shift.
Qed.

Lemma fold_left_step {A B} (f : A -> B -> A) (x : B) (l : list B) (a : A) :
  fold_left f (x :: l) a = fold_left f l (f a x).
Proof. reflexivity. Qed.

Lemma fold_checksum (codes : list Z) (p : Z) :
  fold_left generateChecksum_step codes (ToInt32 p)
  = ToInt32 (fold_left (fun h c => 31 * h + c) codes p).
Proof.
  revert p. induction codes as [|c codes IH]; intros p; [reflexivity | ].
  rewrite !fold_left_step, generateChecksum_step_wraps, ToInt32_step. apply IH.
Qed.

Lemma ToInt32_zero : ToInt32 0 = 0.
Proof. reflexivity. Qed.

(** X18: the checksum of a text is the polynomial hash with multiplier 31
    of its code units, wrapped to a signed 32-bit integer, in absolute value
    and written in radix 36. *)
Theorem generateChecksum_polynomial (data : string) :
  generateChecksum data
  = Digits.of_Z_radix 36
      (Z.abs (ToInt32 (polynomial_hash (JSString.charCodeAt data)))).
Proof.
  unfold generateChecksum, polynomial_hash. cbv zeta.
  rewrite <- fold_checksum, ToInt32_zero. reflexivity.
Qed.

Lemma digit_char_base36 (d : Z) : 0 <= d < 36 -> is_base36 (Digits.digit_char d) = true.
Proof.
  intros H. rewrite <- (Z2Nat.id d) by lia.
  assert (Hk : (Z.to_nat d < 36)%nat) by lia.
  revert Hk. generalize (Z.to_nat d). intros k Hk.
  do 36 (destruct k as [|k]; [reflexivity | ]). lia.
Qed.

Lemma digits_aux_base36 (fuel : nat) (n : Z) (acc : string) :
  0 <= n -> all_base36 acc = true ->
  all_base36 (Digits.digits_aux 36 fuel n acc) = true.
Proof.
  revert n acc. induction fuel as [|fuel IH]; intros n acc Hn Hacc; [exact Hacc | ].
  cbn [Digits.digits_aux].
  assert (Hacc' : all_base36 (String (Digits.digit_char (n mod 36)) acc) = true).
  { cbn [all_base36]. rewrite digit_char_base36, Hacc; [reflexivity | ].
    apply Z.mod_pos_bound. lia. }
  destruct (n <? 36); [exact Hacc' | ].
  apply IH; [ | exact Hacc']. apply Z.div_pos; lia.
Qed.

Lemma digits_aux_longer (base : Z) (fuel : nat) (n : Z) (acc : string) :
  (String.length acc <= String.length (Digits.digits_aux base fuel n acc))%nat.
Proof.
  revert n acc. induction fuel as [|fuel IH]; intros n acc; [reflexivity | ].
  cbn [Digits.digits_aux]. destruct (n <? base).
  - cbn [String.length]. lia.
  - etransitivity; [ | apply IH]. cbn [String.length]. lia.
Qed.

Lemma digits_aux_length (fuel k : nat) (n : Z) (acc : string) :
  (1 <= k)%nat -> 0 <= n < 36 ^ Z.of_nat k ->
  (String.length (Digits.digits_aux 36 fuel n acc) <= k + String.length acc)%nat.
Proof.
  revert k n acc. induction fuel as [|fuel IH]; intros k n acc Hk Hn; [simpl; lia | ].
  cbn [Digits.digits_aux]. destruct (Z.ltb_spec n 36) as [Hlt | Hge].
  - cbn [String.length]. lia.
  - destruct k as [|[|k]]; [lia | change (36 ^ Z.of_nat 1) with 36 in Hn; lia | ].
    etransitivity; [apply (IH (S k)) | cbn [String.length]; lia]; [lia | ].
    split; [apply Z.div_pos; lia | ].
    apply Z.div_lt_upper_bound; [lia | ].
    replace (Z.of_nat (S (S k))) with (Z.succ (Z.of_nat (S k))) in Hn by lia.
    rewrite Z.pow_succ_r in Hn by lia. lia.
Qed.

(** X19: a checksum is a text of one to seven digits of the radix 36
    ([0-9], [a-z]); it is never empty, so the [dataChecksum] of an envelope
    that [saveSessions] builds is always truthy and a load always compares
    it. *)
Theorem generateChecksum_format (data : string) (now : Z) (sessions : list object) :
  let sum := generateChecksum data in
  (1 <= String.length sum <= 7)%nat
  /\ all_base36 sum = true
  /\ JS.truthy (VStr sum) = true
  /\ JS.truthy (Obj.get (metadata_object now sessions) "dataChecksum") = true.
Proof.
  assert (Hall : forall text,
            (1 <= String.length (generateChecksum text) <= 7)%nat
            /\ all_base36 (generateChecksum text) = true
            /\ JS.truthy (VStr (generateChecksum text)) = true).
  { intros text. rewrite generateChecksum_polynomial.
    set (h := ToInt32 (polynomial_hash (JSString.charCodeAt text))).
    pose proof (ToInt32_range (polynomial_hash (JSString.charCodeAt text))) as Hr.
    fold h in Hr. unfold Digits.of_Z_radix.
    set (fuel := S (Z.to_nat (Z.log2 (Z.abs h)))).
    pose proof (digits_aux_longer 36 fuel (Z.abs h)
                  (String (Digits.digit_char (Z.abs h mod 36)) EmptyString)) as Hlong.
    assert (Hlen : (1 <= String.length (Digits.digits_aux 36 fuel (Z.abs h) EmptyString))%nat).
    { unfold fuel. cbn [Digits.digits_aux]. destruct (Z.abs h <? 36).
      - simpl. lia.
      - etransitivity; [ | apply digits_aux_longer]. simpl. lia. }
    split; [split; [exact Hlen | ] | split].
    - apply (digits_aux_length fuel 7 (Z.abs h) EmptyString); [lia | ].
      change (2 ^ 31) with 2147483648 in Hr.
      change (36 ^ Z.of_nat 7) with 78364164096. lia.
    - apply digits_aux_base36; [lia | reflexivity].
    - destruct (Digits.digits_aux 36 fuel (Z.abs h) EmptyString); [simpl in Hlen; lia | ].
      reflexivity. }
  intros sum. destruct (Hall data) as [H1 [H2 H3]].
  split; [exact H1 | ]. split; [exact H2 | ]. split; [exact H3 | ].
  cbn [metadata_object Obj.get String.eqb Ascii.eqb Bool.eqb]. apply Hall.
Qed.

(** ** Importing sessions *)

Lemma find_first_duplicates_any (candidate : object) (existing : list object) :
  well_typed candidate -> Forall well_typed existing ->
  exists r,
    find_first (is_duplicate_of candidate) existing = Return r
    /\ (if r is Some _ then true else false) = duplicates_any existing candidate.
Proof.
  intros Hc He. induction He as [|e l He _ [r [IH Hr]]].
  - exists None. split; reflexivity.
  - cbn [find_first duplicates_any existsb].
    destruct (is_duplicate_of_well_typed candidate e Hc He) as [b ->]. cbn.
    destruct b; [exists (Some e); split; reflexivity | ].
    exists r. split; [exact IH | exact Hr].
Qed.

Lemma findDuplicates_imported (candidates existing : list object) :
  Forall well_typed candidates -> Forall well_typed existing ->
  exists found,
    findDuplicates candidates existing = Return found
    /\ map importedSession found = List.filter (duplicates_any existing) candidates.
Proof.
  intros Hc He. induction Hc as [|c l Hc _ [found [IH Hmap]]].
  - exists []. split; reflexivity.
  - cbn [findDuplicates List.filter].
    destruct (find_first_duplicates_any c existing Hc He) as [r [-> Hr]]. cbn.
    rewrite IH. cbn. rewrite <- Hr. eexists. split; [reflexivity | ].
    destruct r; cbn [map importedSession]; rewrite Hmap; reflexivity.
Qed.

Lemma Set_has_ids (l : list object) (session : object) :
  Forall well_typed l -> well_typed session ->
  Set_has (map id_of l) (id_of session) = true
  <-> exists s, In s l /\ id_of s = id_of session.
Proof.
  intros Hl [[x [Hx _]] _]. unfold Set_has, id_of in *. rewrite Hx.
  rewrite existsb_exists. split.
  - intros [v [Hin Heq]]. apply List.in_map_iff in Hin. destruct Hin as [s [<- Hin]].
    exists s. split; [assumption | ].
    rewrite List.Forall_forall in Hl. destruct (Hl s Hin) as [[y [Hy _]] _].
    rewrite Hy in *. simpl in Heq. apply String.eqb_eq in Heq. congruence.
  - intros [s [Hin Heq]]. exists (VStr x). split.
    + apply List.in_map_iff. exists s. split; assumption.
    + simpl. apply String.eqb_refl.
Qed.

Lemma filter_sublist {A} (p q : A -> bool) (l : list A) :
  (forall x, In x l -> p x = true -> q x = true) ->
  sublist (List.filter p l) (List.filter q l).
Proof.
  induction l as [|x l IH]; intros H; [constructor | ]. cbn [List.filter].
  assert (IH' : sublist (List.filter p l) (List.filter q l)).
  { apply IH. intros y Hy. apply H. right. assumption. }
  destruct (p x) eqn:Hp.
  - rewrite (H x) by (assumption || left; reflexivity). apply sublist_skip. exact IH'.
  - destruct (q x); [apply sublist_cons | ]; exact IH'.
Qed.

Lemma filter_agree {A} (p q : A -> bool) (l : list A) :
  (forall x, In x l -> p x = q x) -> List.filter p l = List.filter q l.
Proof.
  induction l as [|x l IH]; intros H; [reflexivity | ]. cbn [List.filter].
  rewrite (H x) by (left; reflexivity). rewrite IH; [reflexivity | ].
  intros y Hy. apply H. right. assumption.
Qed.

Lemma NoDup_map_inj {A B} (f : A -> B) (l : list A) (x y : A) :
  List.NoDup (map f l) -> In x l -> In y l -> f x = f y -> x = y.
Proof.
  induction l as [|a l IH]; intros Hnd Hx Hy Hf; [destruct Hx | ].
  cbn [map] in Hnd. inversion Hnd as [|? ? Hnotin Hnd']; subst.
  destruct Hx as [<- | Hx], Hy as [<- | Hy]; auto.
  - exfalso. apply Hnotin. rewrite Hf. apply List.in_map. assumption.
  - exfalso. apply Hnotin. rewrite <- Hf. apply List.in_map. assumption.
Qed.

(** The sessions that an import with duplicate detection adds. *)
Lemma import_kept (sessions existing : list object) (found : list DuplicateInfo) :
  Forall well_typed sessions ->
  map importedSession found = List.filter (duplicates_any existing) sessions ->
  let duplicateIds := map (fun d => Obj.get (importedSession d) "id") found in
  let kept := List.filter (fun s => negb (Set_has duplicateIds (Obj.get s "id"))) sessions in
  sublist kept (List.filter (fun s => negb (duplicates_any existing s)) sessions)
  /\ (List.NoDup (map id_of sessions) ->
      kept = List.filter (fun s => negb (duplicates_any existing s)) sessions).
Proof.
  intros Htyped Hfound duplicateIds kept.
  assert (Hids : duplicateIds
                 = map id_of (List.filter (duplicates_any existing) sessions)).
  { unfold duplicateIds. rewrite <- Hfound, List.map_map. reflexivity. }
  assert (Hdups : Forall well_typed (List.filter (duplicates_any existing) sessions)).
  { apply List.Forall_forall. intros s Hs. apply List.filter_In in Hs.
    rewrite List.Forall_forall in Htyped. apply Htyped. tauto. }
  split.
  - apply filter_sublist. intros s Hs Hkept.
    destruct (duplicates_any existing s) eqn:Hdup; [ | reflexivity].
    exfalso. apply negb_true_iff in Hkept.
    assert (Hhas : Set_has duplicateIds (Obj.get s "id") = true).
    { rewrite Hids. apply Set_has_ids; [assumption | | ].
      - rewrite List.Forall_forall in Htyped. auto.
      - exists s. split; [ | reflexivity]. apply List.filter_In. split; assumption. }
    congruence.
  - intros Hnodup. apply filter_agree. intros s Hs. f_equal.
    rewrite List.Forall_forall in Htyped.
    destruct (duplicates_any existing s) eqn:Hdup.
    + rewrite Hids. apply Set_has_ids; [assumption | auto | ].
      exists s. split; [ | reflexivity]. apply List.filter_In. split; assumption.
    + apply not_true_is_false. intros Hhas. rewrite Hids in Hhas.
      apply Set_has_ids in Hhas; [ | assumption | auto].
      destruct Hhas as [s' [Hin Heq]]. apply List.filter_In in Hin.
      destruct Hin as [Hin Hdup'].
      assert (s' = s) by (apply (NoDup_map_inj id_of sessions); assumption).
      subst s'. congruence.
Qed.

(** X20: an import with duplicate detection into the stored sessions keeps
    what a load returns, in front and in order, and adds candidates in their
    order.  It adds no candidate that the duplicate rule matches with a
    stored session; when the ids of the candidates are pairwise different it
    adds every other candidate. *)
Theorem importSessions_skips_duplicates
    (sessions existing : list object) (w w1 : World) :
  Forall well_typed sessions ->
  loadSessions w = (Return existing, w1) ->
  available w1 ->
  exists added,
    sublist added (List.filter (fun s => negb (duplicates_any existing s)) sessions)
    /\ (List.NoDup (map id_of sessions) ->
        added = List.filter (fun s => negb (duplicates_any existing s)) sessions)
    /\ (accepts w1 STORAGE_KEY (envelope_text (clock w) (existing ++ added)) ->
        exists w',
          importSessions sessions false true w = (Return tt, w')
          /\ storage w' !! STORAGE_KEY
             = Some (envelope_text (clock w) (existing ++ added))).
Proof.
  intros Htyped Hload Ha1.
  pose proof (loadSessions_well_typed _ _ _ Hload) as Hexisting.
  destruct (findDuplicates_imported sessions existing Htyped Hexisting)
    as [found [Hfound Hmap]].
  destruct (import_kept sessions existing found Htyped Hmap) as [Hsub Heq].
  eexists. split; [exact Hsub | ]. split; [exact Heq | ].
  intros Hfit.
  match type of Hsub with sublist ?k _ => set (kept := k) in * end.
  assert (Hclock : clock w1 = clock w).
  { pose proof (preserves_loadSessions w) as He. rewrite Hload in He. apply He. }
  assert (Hall : Forall acceptable (existing ++ kept)).
  { apply Forall_app. split.
    - eapply loadSessions_acceptable. eassumption.
    - apply List.Forall_forall. intros s Hs. apply well_typed_acceptable.
      unfold kept in Hs. apply List.filter_In in Hs.
      rewrite List.Forall_forall in Htyped. apply Htyped. tauto. }
  destruct (saveSessions_valid (existing ++ kept) w1 Ha1 Hall) as [w' [Hsave [Hst _]]].
  { rewrite Hclock. exact Hfit. }
  exists w'. split.
  - unfold importSessions. rewrite (bind_Return _ _ w existing w1 Hload).
    unfold lift. unfold mbind at 1, M_bind at 1, bind at 1.
    unfold mbind at 1, M_bind at 1, bind at 1. rewrite Hfound.
    exact Hsave.
  - rewrite Hst, lookup_insert_eq, Hclock. reflexivity.
Qed.

Lemma importSessions_skips_duplicates_witness :
  let w := Examples.stored_world in
  exists loaded w',
    fst (loadSessions w) = Return loaded
    /\ importSessions Examples.import_candidates false true w = (Return tt, w')
    /\ storage w' !! STORAGE_KEY
       = Some (envelope_text (clock w)
                 (loaded ++ [Session_object (Examples.session_at "p" "Physics" 50
                                               Examples.t0)])).
Proof.
  intros w.
  pose (loaded := match fst (loadSessions w) with Return l => l | Throw _ => [] end).
  destruct (importSessions_skips_duplicates Examples.import_candidates loaded w
              (snd (loadSessions w)))
    as [added [_ [Hadded Himport]]].
  - repeat constructor; apply well_typed_Session_object; cbn;
      (split; [discriminate | ]); (split; [vm_compute; discriminate | ]);
      (split; [reflexivity | ]); (split; [ | left; reflexivity]);
      eexists; (split; [reflexivity | vm_compute; discriminate]).
  - vm_compute. reflexivity.
  - vm_compute. reflexivity.
  - assert (Heq : added = [Session_object (Examples.session_at "p" "Physics" 50 Examples.t0)]).
    { rewrite Hadded; [vm_compute; reflexivity | ].
      vm_compute. repeat (apply List.NoDup_cons; [simpl; intuition discriminate | ]).
      apply List.NoDup_nil. }
    rewrite Heq in Himport.
    destruct Himport as [w' [Hrun Hst]]; [unfold accepts; vm_compute; reflexivity | ].
    exists loaded, w'. split; [vm_compute; reflexivity | ]. split; assumption.
Defined.

Lemma well_typed_renamed (session : object) (x : string) :
  well_typed session -> x <> EmptyString ->
  well_typed (Obj.set session "id" (VStr x)).
Proof.
  intros [_ H] Hx. unfold well_typed. rewrite !Obj_get_set.
  cbn [String.eqb Ascii.eqb Bool.eqb]. split; [eauto | exact H].
Qed.

Lemma map_M_renamed (existing sessions : list object) (w : World) :
  exists added w',
    map_M (fun session =>
             if Set_has (map (fun s => Obj.get s "id") existing) (Obj.get session "id")
             then fresh ← generateId; ret (Obj.set session "id" (VStr fresh))
             else ret session)
          sessions w
    = (Return added, w')
    /\ Forall2 (renamed existing) sessions added
    /\ storage w' = storage w /\ quota w' = quota w /\ clock w' = clock w.
Proof.
  revert w. induction sessions as [|s l IH]; intros w.
  - exists [], w. split; [reflexivity | ]. split; [constructor | auto].
  - cbn [map_M].
    assert (Hs : exists a w1,
              (if Set_has (map (fun s => Obj.get s "id") existing) (Obj.get s "id")
               then fresh ← generateId; ret (Obj.set s "id" (VStr fresh))
               else ret s) w = (Return a, w1)
              /\ renamed existing s a
              /\ storage w1 = storage w /\ quota w1 = quota w /\ clock w1 = clock w).
    { unfold renamed, id_of.
      destruct (Set_has (map (fun s => Obj.get s "id") existing) (Obj.get s "id")).
      - eexists. eexists. split; [reflexivity | ]. split; [eexists; reflexivity | auto].
      - eexists. eexists. split; [reflexivity | ]. split; [reflexivity | auto]. }
    destruct Hs as [a [w1 [Hrun [Ha [Hst [Hq Hc]]]]]].
    destruct (IH w1) as [added [w' [Hrest [Hall [Hst' [Hq' Hc']]]]]].
    exists (a :: added), w'. split.
    + rewrite (bind_Return _ _ w a w1 Hrun). rewrite (bind_Return _ _ w1 added w' Hrest).
      reflexivity.
    + split; [constructor; assumption | ]. split; [congruence | ]. split; congruence.
Qed.

(** X21: an import without duplicate detection adds every candidate, in
    order, behind what a load returns.  A candidate whose id is the id of a
    stored session is added with a generated id ([session_...]) and its
    other fields unchanged; every other candidate is added as it is. *)
Theorem importSessions_renames_clashes
    (sessions existing : list object) (w w1 : World) :
  Forall well_typed sessions ->
  loadSessions w = (Return existing, w1) ->
  available w1 ->
  exists added,
    Forall2 (renamed existing) sessions added
    /\ List.length added = List.length sessions
    /\ (accepts w1 STORAGE_KEY (envelope_text (clock w) (existing ++ added)) ->
        exists w',
          importSessions sessions false false w = (Return tt, w')
          /\ storage w' !! STORAGE_KEY
             = Some (envelope_text (clock w) (existing ++ added))).
Proof.
  intros Htyped Hload Ha1.
  destruct (map_M_renamed existing sessions w1)
    as [added [w2 [Hmap [Hren [Hst [Hq Hc]]]]]].
  exists added. split; [exact Hren | ].
  split; [symmetry; eapply Forall2_length; exact Hren | ].
  intros Hfit.
  assert (Hclock : clock w2 = clock w).
  { rewrite Hc. pose proof (preserves_loadSessions w) as He. rewrite Hload in He. apply He. }
  assert (Hadded : Forall well_typed added).
  { clear - Htyped Hren. induction Hren as [|s a l l' Hsa _ IH]; [constructor | ].
    inversion Htyped as [|? ? Hs Hl]; subst. constructor; [ | apply IH; assumption].
    unfold renamed in Hsa. destruct (Set_has _ _).
    - destruct Hsa as [suffix ->]. apply well_typed_renamed; [assumption | ].
      apply generated_nonempty.
    - subst a. assumption. }
  assert (Hall : Forall acceptable (existing ++ added)).
  { apply Forall_app. split.
    - eapply loadSessions_acceptable. eassumption.
    - eapply List.Forall_impl; [ | exact Hadded]. apply well_typed_acceptable. }
  destruct (saveSessions_valid (existing ++ added) w2) as [w' [Hsave [Hst' _]]].
  - unfold available in *. rewrite Hst, Hq. exact Ha1.
  - exact Hall.
  - unfold accepts in *. rewrite Hclock.
    unfold probed in *. cbn [storage quota with_storage] in *. rewrite Hst, Hq. exact Hfit.
  - exists w'. split.
    + unfold importSessions. rewrite (bind_Return _ _ w existing w1 Hload).
      rewrite (bind_Return _ _ w1 added w2 Hmap). exact Hsave.
    + rewrite Hst', lookup_insert_eq, Hclock. reflexivity.
Qed.

Lemma importSessions_renames_clashes_witness :
  let w := Examples.stats_world in
  let clash := Session_object (Examples.session_at "a" "Physics" 50 Examples.t0) in
  exists loaded w',
    fst (loadSessions w) = Return loaded
    /\ importSessions [clash] false false w = (Return tt, w')
    /\ storage w' !! STORAGE_KEY
       = Some (envelope_text (clock w)
                 (loaded ++ [Obj.set clash "id" (VStr "session_1705341600000_k3x9q2m1z")])).
Proof.
  intros w clash.
  pose (loaded := match fst (loadSessions w) with Return l => l | Throw _ => [] end).
  destruct (importSessions_renames_clashes [clash] loaded w (snd (loadSessions w)))
    as [added [Hren [_ Himport]]].
  - repeat constructor; apply well_typed_Session_object; cbn;
      (split; [discriminate | ]); (split; [vm_compute; discriminate | ]);
      (split; [reflexivity | ]); (split; [ | left; reflexivity]);
      eexists; (split; [reflexivity | vm_compute; discriminate]).
  - vm_compute. reflexivity.
  - vm_compute. reflexivity.
  - assert (Hadded : exists suffix,
              added = [Obj.set clash "id" (VStr ("session_" +:+ suffix))]).
    { inversion Hren as [|s a l l' Hsa Hrest]; subst. inversion Hrest; subst.
      unfold renamed in Hsa.
      assert (Hhas : Set_has (map id_of loaded) (id_of clash) = true)
        by (vm_compute; reflexivity).
      rewrite Hhas in Hsa. destruct Hsa as [suffix ->]. exists suffix. reflexivity. }
    destruct Hadded as [suffix ->].
    destruct Himport as [w' [Hrun Hst]].
    + assert (Hq : quota (snd (loadSessions w)) = None) by (vm_compute; reflexivity).
      unfold accepts. rewrite Hq. reflexivity.
    + exists loaded, w'. split; [vm_compute; reflexivity | ]. split; [exact Hrun | ].
      assert (Hw : snd (importSessions [clash] false false w) = w')
        by (rewrite Hrun; reflexivity).
      rewrite <- Hw. vm_compute. reflexivity.
Defined.

(** ** The statistics of the stored data *)

Lemma Map_get_set {V} (entries : list (jsval * V)) (a b : string) (v : V) :
  Map_get (Map_set entries (VStr a) v) (VStr b)
  = if String.eqb b a then Some v else Map_get entries (VStr b).
Proof.
  induction entries as [|[k v'] entries IH].
  - cbn [Map_set Map_get same_value_zero]. reflexivity.
  - cbn [Map_set Map_get].
    destruct k as [| | | |c| | |]; cbn [same_value_zero Map_get]; try exact IH.
    destruct (String.eqb_spec a c) as [-> | Hac]; cbn [Map_get same_value_zero].
    + destruct (String.eqb b c); reflexivity.
    + rewrite IH. destruct (String.eqb_spec b a) as [-> | Hba]; [ | reflexivity].
      apply String.eqb_neq in Hac. rewrite Hac. reflexivity.
Qed.

Lemma Map_set_keys {V} (entries : list (jsval * V)) (a : string) (v : V) :
  (Map_get entries (VStr a) <> None
   /\ map fst (Map_set entries (VStr a) v) = map fst entries)
  \/ (Map_get entries (VStr a) = None
      /\ ~ In (VStr a) (map fst entries)
      /\ map fst (Map_set entries (VStr a) v) = map fst entries ++ [VStr a]).
Proof.
  induction entries as [|[k v'] entries IH].
  - right. split; [reflexivity | ]. split; [intros [] | reflexivity].
  - cbn [Map_set Map_get].
    destruct (same_value_zero (VStr a) k) eqn:Hk.
    + left. split; [discriminate | reflexivity].
    + destruct IH as [[Hsome Hkeys] | [Hnone [Hnotin Hkeys]]].
      * left. split; [assumption | ]. cbn [map fst]. rewrite Hkeys. reflexivity.
      * right. split; [assumption | ]. split.
        -- cbn [map fst]. intros [-> | Hin]; [ | contradiction].
           cbn [same_value_zero] in Hk. rewrite String.eqb_refl in Hk. discriminate Hk.
        -- cbn [map fst app]. rewrite Hkeys. reflexivity.
Qed.

Lemma Map_get_In {V} (entries : list (jsval * V)) (a : string) (v : V) :
  List.NoDup (map fst entries) ->
  In (VStr a, v) entries <-> Map_get entries (VStr a) = Some v.
Proof.
  induction entries as [|[k v'] entries IH]; intros Hnd.
  - split; [intros [] | discriminate].
  - cbn [map fst] in Hnd. inversion Hnd as [|? ? Hnotin Hnd']; subst.
    cbn [Map_get].
    destruct k as [| | | |c| | |]; cbn [same_value_zero];
      try (rewrite <- (IH Hnd'); split; [intros [Heq | Hin]; [discriminate Heq | exact Hin]
                                       | intros Hin; right; exact Hin]).
    destruct (String.eqb_spec a c) as [-> | Hac].
    + split.
      * intros [Heq | Hin]; [congruence | ]. exfalso. apply Hnotin.
        apply (List.in_map fst) in Hin. exact Hin.
      * intros Heq. left. congruence.
    + rewrite <- (IH Hnd'). split; [intros [Heq | Hin]; [congruence | exact Hin] | ].
      intros Hin. right. exact Hin.
Qed.

Section Sorting.

Variable A : Type.
Variable compare : A -> A -> number.

Let stays (a b : A) : Prop := Number.is_positive (compare a b) = false.

Hypothesis compare_opposite :
  forall a b, Number.is_positive (compare a b) = true -> stays b a.

Lemma insert_sorted_perm (x : A) (l : list A) :
  Permutation (insert_sorted compare x l) (x :: l).
Proof.
  induction l as [|y l IH]; [reflexivity | ]. cbn [insert_sorted].
  destruct (Number.is_positive (compare x y)); [ | reflexivity].
  rewrite IH. apply perm_swap.
Qed.

Lemma Array_sort_perm (l : list A) : Permutation (Array_sort compare l) l.
Proof.
  induction l as [|x l IH]; [reflexivity | ]. cbn [Array_sort fold_right].
  rewrite insert_sorted_perm. apply perm_skip. exact IH.
Qed.

Lemma insert_sorted_sorted (x : A) (l : list A) :
  Sorted stays l -> Sorted stays (insert_sorted compare x l).
Proof.
  induction l as [|y l IH]; intros Hs; cbn [insert_sorted].
  - repeat constructor.
  - destruct (Number.is_positive (compare x y)) eqn:Hxy.
    + inversion Hs as [|? ? Hl Hhd]; subst. constructor; [apply IH; assumption | ].
      destruct l as [|z l]; cbn [insert_sorted].
      * constructor. apply compare_opposite. assumption.
      * destruct (Number.is_positive (compare x z)).
        -- inversion Hhd; subst. constructor. assumption.
        -- constructor. apply compare_opposite. assumption.
    + constructor; [assumption | ]. constructor. exact Hxy.
Qed.

Lemma Array_sort_sorted (l : list A) : Sorted stays (Array_sort compare l).
Proof.
  induction l as [|x l IH]; [constructor | ]. cbn [Array_sort fold_right].
  apply insert_sorted_sorted. exact IH.
Qed.

Lemma Sorted_take (R : A -> A -> Prop) (n : nat) (l : list A) :
  Sorted R l -> Sorted R (take n l).
Proof.
  revert l. induction n as [|n IH]; intros l Hs; [constructor | ].
  destruct l as [|x l]; [constructor | ]. cbn [take].
  inversion Hs as [|? ? Hl Hhd]; subst. constructor; [apply IH; assumption | ].
  destruct n; [constructor | ]. destruct l; [constructor | ].
  inversion Hhd; subst. constructor. assumption.
Qed.

End Sorting.

Lemma is_positive_opposite (a b : number) :
  Number.is_positive (Number.sub a b) = true ->
  Number.is_positive (Number.sub b a) = false.
Proof.
  unfold Number.sub.
  destruct a as [|[|]|m d], b as [|[|]|m' d']; cbn; try discriminate; try reflexivity.
  intros H. apply Z.ltb_lt in H. apply Z.ltb_ge.
  rewrite !Z.mul_opp_l in *. lia.
Qed.

Lemma statistics_of_snoc (l : list object) (s : object) :
  statistics_of (l ++ [s]) = statistics_step (statistics_of l) s.
Proof. unfold statistics_of. rewrite fold_left_app. reflexivity. Qed.

Lemma total_duration_snoc (l : list object) (s : object) :
  total_duration (l ++ [s])
  = Number.add (total_duration l) (number_value (Obj.get s "duration")).
Proof. unfold total_duration. rewrite map_app, fold_left_app. reflexivity. Qed.

Lemma statistics_study_time (l : list object) :
  ss_totalStudyTime (statistics_of l)
  = total_duration (List.filter (fun s => JS.truthy (Obj.get s "completed")) l).
Proof.
  induction l as [|s l IH] using rev_ind; [reflexivity | ].
  rewrite statistics_of_snoc, List.filter_app. cbn [List.filter].
  unfold statistics_step.
  destruct (default (0, Number.of_Z 0) _) as [count totalTime].
  cbn [ss_totalStudyTime].
  destruct (JS.truthy (Obj.get s "completed")).
  - rewrite total_duration_snoc, IH. reflexivity.
  - rewrite app_nil_r. exact IH.
Qed.

(** The dates of the state after [l], for sessions that start at valid
    dates: the earliest and the latest start. *)
Lemma statistics_dates (l : list object) :
  Forall well_typed l ->
  match l with
  | [] =>
      ss_oldestSession (statistics_of l) = VUndefined
      /\ ss_newestSession (statistics_of l) = VUndefined
  | _ :: _ =>
      exists lo hi,
        ss_oldestSession (statistics_of l) = VDate (Some lo)
        /\ ss_newestSession (statistics_of l) = VDate (Some hi)
        /\ (forall s, In s l -> exists t, start_of s = Some t /\ lo <= t <= hi)
        /\ (exists s, In s l /\ start_of s = Some lo)
        /\ (exists s, In s l /\ start_of s = Some hi)
  end.
Proof.
  induction l as [|s l IH] using rev_ind; intros Htyped; [split; reflexivity | ].
  apply Forall_app in Htyped. destruct Htyped as [Hl Hs].
  inversion Hs as [|? ? Hs' _]; subst. clear Hs.
  destruct Hs' as [_ [_ [_ [[t [Ht _]] _]]]].
  specialize (IH Hl).
  assert (Hgoal : exists lo hi,
            ss_oldestSession (statistics_of (l ++ [s])) = VDate (Some lo)
            /\ ss_newestSession (statistics_of (l ++ [s])) = VDate (Some hi)
            /\ (forall s', In s' (l ++ [s]) -> exists t, start_of s' = Some t /\ lo <= t <= hi)
            /\ (exists s', In s' (l ++ [s]) /\ start_of s' = Some lo)
            /\ (exists s', In s' (l ++ [s]) /\ start_of s' = Some hi)).
  { rewrite statistics_of_snoc. unfold statistics_step.
    destruct (default (0, Number.of_Z 0) _) as [count totalTime].
    cbn [ss_oldestSession ss_newestSession]. rewrite Ht.
    assert (Hstart : start_of s = Some t) by (unfold start_of; rewrite Ht; reflexivity).
    destruct l as [|s0 l].
    - destruct IH as [-> ->]. cbn [JS.truthy negb orb].
      exists t, t. split; [reflexivity | ]. split; [reflexivity | ].
      split; [ | split; exists s; split; (left; reflexivity) || assumption].
      intros s' [<- | []]. exists t. split; [assumption | lia].
    - destruct IH as [lo [hi [-> [-> [Hall [[sl [Hinl Hlo]] [sh [Hinh Hhi]]]]]]]].
      cbn [JS.truthy negb orb date_value time_lt].
      destruct (Hall s0 (or_introl eq_refl)) as [t0 [_ Hlohi]].
      exists (if t <? lo then t else lo), (if hi <? t then t else hi).
      split; [destruct (t <? lo); reflexivity | ].
      split; [destruct (hi <? t); reflexivity | ].
      split; [ | split].
      + intros s' Hin. apply in_app_iff in Hin. destruct Hin as [Hin | [<- | []]].
        * destruct (Hall s' Hin) as [u [Hu Hr]]. exists u. split; [assumption | ].
          destruct (Z.ltb_spec t lo), (Z.ltb_spec hi t); lia.
        * exists t. split; [assumption | ].
          destruct (Z.ltb_spec t lo), (Z.ltb_spec hi t); lia.
      + destruct (t <? lo).
        * exists s. split; [apply in_app_iff; right; left; reflexivity | assumption].
        * exists sl. split; [apply in_app_iff; left; assumption | assumption].
      + destruct (hi <? t).
        * exists s. split; [apply in_app_iff; right; left; reflexivity | assumption].
        * exists sh. split; [apply in_app_iff; left; assumption | assumption]. }
  destruct (l ++ [s]) eqn:Hls; [destruct l; discriminate Hls | exact Hgoal].
Qed.

(** The subject map of the state after [l]: the subjects of [l] in the
    order of their first session, each with the number and the total
    duration of its sessions. *)
Lemma statistics_subjects (l : list object) :
  Forall well_typed l ->
  let entries := ss_subjectMap (statistics_of l) in
  List.NoDup (map fst entries)
  /\ (forall k, In k (map fst entries) ->
        exists x, k = VStr x /\ with_subject x l <> [])
  /\ forall x,
       Map_get entries (VStr x)
       = match with_subject x l with
         | [] => None
         | group => Some (Z.of_nat (List.length group), total_duration group)
         end.
Proof.
  induction l as [|s l IH] using rev_ind; intros Htyped entries.
  - split; [constructor | ]. split; [intros k [] | reflexivity].
  - apply Forall_app in Htyped. destruct Htyped as [Hl Hs].
    inversion Hs as [|? ? Hs' _]; subst. clear Hs.
    destruct Hs' as [_ [[x [Hx _]] [[n [Hn _]] _]]].
    destruct (IH Hl) as [Hnd [Hkeys Hget]]. clear IH.
    unfold entries. rewrite statistics_of_snoc. unfold statistics_step.
    rewrite Hx, Hn. cbn [number_value].
    set (old := ss_subjectMap (statistics_of l)) in *.
    specialize (Hget x) as Hgetx.
    assert (Hsnoc : forall y,
              with_subject y (l ++ [s])
              = with_subject y l ++ (if String.eqb x y then [s] else [])).
    { intros y. unfold with_subject. rewrite List.filter_app. cbn [List.filter].
      rewrite Hx. cbn [same_value_zero]. destruct (String.eqb x y); reflexivity. }
    destruct (default (0, Number.of_Z 0) (Map_get old (VStr x))) as [count totalTime] eqn:Hold.
    cbn [ss_subjectMap].
    split; [ | split].
    + destruct (Map_set_keys old x (count + 1, Number.add totalTime n))
        as [[_ ->] | [_ [Hnotin ->]]]; [assumption | ].
      apply List.NoDup_app; [assumption | repeat constructor; intros [] | ].
      intros k Hin [<- | []]. contradiction.
    + intros k Hin.
      assert (Hcases : In k (map fst old) \/ k = VStr x).
      { destruct (Map_set_keys old x (count + 1, Number.add totalTime n))
          as [[_ Heq] | [_ [_ Heq]]]; rewrite Heq in Hin; [left; assumption | ].
        apply in_app_iff in Hin. destruct Hin as [Hin | [<- | []]]; auto. }
      destruct Hcases as [Hin' | ->].
      * destruct (Hkeys k Hin') as [y [-> Hy]]. exists y. split; [reflexivity | ].
        rewrite Hsnoc. intros H. apply app_eq_nil in H. tauto.
      * exists x. split; [reflexivity | ]. rewrite Hsnoc, String.eqb_refl.
        intros H. apply app_eq_nil in H. destruct H as [_ H]. discriminate H.
    + intros y. rewrite Map_get_set, Hsnoc, (String.eqb_sym y x).
      destruct (String.eqb_spec x y) as [<- | Hxy].
      * rewrite Hgetx in Hold.
        assert (Hpair : count = Z.of_nat (List.length (with_subject x l))
                        /\ totalTime = total_duration (with_subject x l)).
        { destruct (with_subject x l); cbn [default] in Hold; injection Hold as <- <-;
            split; reflexivity. }
        destruct Hpair as [-> ->].
        destruct (with_subject x l ++ [s]) as [|g group] eqn:Hgroup.
        -- apply app_eq_nil in Hgroup. destruct Hgroup as [_ Hgroup]. discriminate Hgroup.
        -- rewrite <- Hgroup, total_duration_snoc, Hn, length_app. cbn [number_value List.length].
           do 2 f_equal. lia.
      * rewrite app_nil_r. apply Hget.
Qed.

Lemma getDataStatistics_run (w w' : World) (loaded : list object) :
  loadSessions w = (Return loaded, w') ->
  getDataStatistics w
  = (Return (mkDataStatistics
               (Z.of_nat (List.length loaded))
               (Z.of_nat (List.length
                            (List.filter (fun s => JS.truthy (Obj.get s "completed")) loaded)))
               (ss_totalStudyTime (statistics_of loaded))
               (ss_oldestSession (statistics_of loaded))
               (ss_newestSession (statistics_of loaded))
               (take 10
                  (Array_sort
                     (fun a b => Number.sub (TopSubject.totalTime b) (TopSubject.totalTime a))
                     (map (fun '(subject, (count, totalTime)) =>
                             TopSubject.mk subject count totalTime)
                          (ss_subjectMap (statistics_of loaded)))))),
     w').
Proof.
  intros Hload. unfold getDataStatistics. rewrite (bind_Return _ _ w loaded w' Hload).
  reflexivity.
Qed.

(** X22: [getDataStatistics] never throws.  It counts the loaded sessions
    and, among them, the completed ones, whose durations it adds up as the
    study time; [oldestSession] and [newestSession] are the earliest and the
    latest start of a loaded session, and are undefined exactly when no
    session is loaded. *)
Theorem getDataStatistics_totals (w : World) :
  exists loaded stats w',
    loadSessions w = (Return loaded, w')
    /\ getDataStatistics w = (Return stats, w')
    /\ totalSessions stats = Z.of_nat (List.length loaded)
    /\ completedSessions stats
       = Z.of_nat (List.length
                     (List.filter (fun s => JS.truthy (Obj.get s "completed")) loaded))
    /\ 0 <= completedSessions stats <= totalSessions stats
    /\ totalStudyTime stats
       = total_duration (List.filter (fun s => JS.truthy (Obj.get s "completed")) loaded)
    /\ match loaded with
       | [] => oldestSession stats = VUndefined /\ newestSession stats = VUndefined
       | _ :: _ =>
           exists lo hi,
             oldestSession stats = VDate (Some lo)
             /\ newestSession stats = VDate (Some hi)
             /\ (forall s, In s loaded -> exists t, start_of s = Some t /\ lo <= t <= hi)
             /\ (exists s, In s loaded /\ start_of s = Some lo)
             /\ (exists s, In s loaded /\ start_of s = Some hi)
       end.
Proof.
  destruct (loadSessions_returns w) as [loaded [w' Hload]].
  pose proof (loadSessions_well_typed _ _ _ Hload) as Htyped.
  exists loaded. eexists. exists w'. split; [exact Hload | ].
  split; [apply getDataStatistics_run; exact Hload | ].
  cbn [totalSessions completedSessions totalStudyTime oldestSession newestSession].
  split; [reflexivity | ]. split; [reflexivity | ]. split.
  - pose proof (List.filter_length_le (fun s => JS.truthy (Obj.get s "completed")) loaded).
    lia.
  - split; [apply statistics_study_time | ]. apply statistics_dates. exact Htyped.
Qed.

Lemma In_take {A} (n : nat) (l : list A) (x : A) : In x (take n l) -> In x l.
Proof.
  revert l. induction n as [|n IH]; intros [|y l]; simpl; try tauto.
  intros [Heq | Hin]; [left; assumption | right; apply IH; assumption].
Qed.

Lemma NoDup_take {A} (n : nat) (l : list A) : List.NoDup l -> List.NoDup (take n l).
Proof.
  revert l. induction n as [|n IH]; intros [|y l] Hnd; simpl; try constructor.
  - inversion Hnd as [|? ? Hnotin Hnd']; subst. intros Hin. apply Hnotin.
    apply (In_take n). assumption.
  - inversion Hnd; subst. apply IH. assumption.
Qed.

(** X23: [topSubjects] lists at most ten subjects, each once, in an order
    in which no entry has more total time than the one before it.  An entry
    counts the loaded sessions that have exactly its subject and adds up
    their durations; when fewer than ten entries are listed, every loaded
    session has its subject among them. *)
Theorem getDataStatistics_topSubjects (w : World) :
  exists loaded stats w',
    loadSessions w = (Return loaded, w')
    /\ getDataStatistics w = (Return stats, w')
    /\ (List.length (topSubjects stats) <= 10)%nat
    /\ List.NoDup (map TopSubject.subject (topSubjects stats))
    /\ Sorted not_behind (topSubjects stats)
    /\ (forall e, In e (topSubjects stats) ->
          exists x,
            TopSubject.subject e = VStr x
            /\ TopSubject.count e = Z.of_nat (List.length (with_subject x loaded))
            /\ 1 <= TopSubject.count e
            /\ TopSubject.totalTime e = total_duration (with_subject x loaded))
    /\ ((List.length (topSubjects stats) < 10)%nat ->
        forall s, In s loaded ->
          In (Obj.get s "subject") (map TopSubject.subject (topSubjects stats))).
Proof.
  destruct (loadSessions_returns w) as [loaded [w' Hload]].
  pose proof (loadSessions_well_typed _ _ _ Hload) as Htyped.
  exists loaded. eexists. exists w'. split; [exact Hload | ].
  split; [apply getDataStatistics_run; exact Hload | ].
  cbn [topSubjects].
  destruct (statistics_subjects loaded Htyped) as [Hnd [Hkeys Hget]].
  set (entries := ss_subjectMap (statistics_of loaded)) in *.
  set (compare := fun a b => Number.sub (TopSubject.totalTime b) (TopSubject.totalTime a)).
  set (mapped := map (fun '(subject, (count, totalTime)) =>
                        TopSubject.mk subject count totalTime) entries).
  pose proof (Array_sort_perm _ compare mapped) as Hperm.
  assert (Hsubjects : map TopSubject.subject mapped = map fst entries).
  { unfold mapped. rewrite List.map_map. apply List.map_ext. intros [k [c t]]. reflexivity. }
  assert (Hentry : forall e, In e mapped ->
            exists x, TopSubject.subject e = VStr x
                      /\ Map_get entries (VStr x)
                         = Some (TopSubject.count e, TopSubject.totalTime e)).
  { intros e He. unfold mapped in He. apply List.in_map_iff in He.
    destruct He as [[k [c t]] [<- Hin]].
    destruct (Hkeys k) as [x [-> _]]; [apply (List.in_map fst) in Hin; exact Hin | ].
    exists x. split; [reflexivity | ]. apply Map_get_In; assumption. }
  split; [rewrite length_take; lia | ]. split; [ | split; [ | split]].
  - rewrite <- List.firstn_map. apply NoDup_take.
    apply (Permutation_NoDup (l := map TopSubject.subject mapped)).
    + apply Permutation_map. symmetry. exact Hperm.
    + rewrite Hsubjects. exact Hnd.
  - apply Sorted_take. apply Array_sort_sorted.
    intros a b H. apply is_positive_opposite. exact H.
  - intros e He. apply In_take in He. apply (Permutation_in _ Hperm) in He.
    destruct (Hentry e He) as [x [Hx Hgetx]]. exists x. split; [exact Hx | ].
    rewrite Hget in Hgetx.
    destruct (with_subject x loaded) as [|g group]; [discriminate Hgetx | ].
    injection Hgetx as Hc Ht. rewrite <- Hc, <- Ht.
    split; [reflexivity | ]. split; [cbn [List.length]; lia | reflexivity].
  - intros Hfew s Hs.
    rewrite length_take in Hfew.
    assert (Hall : take 10 (Array_sort compare mapped) = Array_sort compare mapped).
    { apply List.firstn_all2. lia. }
    rewrite Hall.
    apply (Permutation_in (l := map TopSubject.subject mapped)).
    { apply Permutation_map. symmetry. exact Hperm. }
    rewrite Hsubjects.
    rewrite List.Forall_forall in Htyped.
    destruct (Htyped s Hs) as [_ [[x [Hx _]] _]]. rewrite Hx.
    assert (Hgroup : with_subject x loaded <> []).
    { intros Hnil. assert (Hin : In s (with_subject x loaded)).
      { apply List.filter_In. split; [assumption | ]. rewrite Hx. cbn.
        apply String.eqb_refl. }
      rewrite Hnil in Hin. destruct Hin. }
    specialize (Hget x).
    destruct (with_subject x loaded) as [|g group]; [congruence | ].
    apply (Map_get_In entries x) in Hget; [ | assumption].
    apply (List.in_map fst) in Hget. exact Hget.
Qed.

(** ** The store touches its own keys only *)

Lemma touches_map_M {A B} (keys : list string) (f : A -> M B) (l : list A) :
  (forall a, touches_only keys (f a)) -> touches_only keys (map_M f l).
Proof.
  intros Hf. induction l as [|a l IH]; cbn [map_M]; [apply touches_ret | ].
  apply touches_bind; [apply Hf | ]. intros b.
  apply touches_bind; [exact IH | ]. intros bs. apply touches_ret.
Qed.

Lemma touches_store_saveSessions (sessions : list object) :
  touches_only store_keys (saveSessions sessions).
Proof.
  eapply touches_more; [ | apply touches_saveSessions].
  intros k [<- | [<- | []]]; simpl; tauto.
Qed.

Lemma touches_addSession (session : object) : touches_only store_keys (addSession session).
Proof.
  unfold addSession. destruct (0 <? _); [apply touches_throw | ].
  apply touches_bind; [apply touches_loadSessions | ]. intros l.
  apply touches_store_saveSessions.
Qed.

Lemma touches_importSessions (sessions : list object) (replaceExisting skipDuplicates : bool) :
  touches_only store_keys (importSessions sessions replaceExisting skipDuplicates).
Proof.
  unfold importSessions. destruct replaceExisting; [apply touches_store_saveSessions | ].
  apply touches_bind; [apply touches_loadSessions | ]. intros existing.
  apply touches_bind; [ | intros l; apply touches_store_saveSessions].
  destruct skipDuplicates.
  - apply touches_bind; [apply touches_lift | ]. intros d. apply touches_ret.
  - apply touches_map_M. intros s. destruct (Set_has _ _); [ | apply touches_ret].
    apply touches_bind; [apply touches_generateId | ]. intros fresh. apply touches_ret.
Qed.

Lemma touches_clearAllData : touches_only store_keys clearAllData.
Proof.
  unfold clearAllData. apply touches_bind.
  - eapply touches_more; [ | apply touches_isStorageAvailable].
    intros k [<- | []]. simpl. tauto.
  - intros [|]; cbv beta iota delta [negb]; [ | apply touches_throw].
    apply touches_bind; [apply touches_removeItem; simpl; tauto | ].
    intros _. apply touches_removeItem. simpl. tauto.
Qed.

Lemma touches_getSessionStats : touches_only store_keys getSessionStats.
Proof.
  unfold getSessionStats. apply touches_bind; [apply touches_loadSessions | ]. intros l.
  apply touches_bind; [apply touches_Date_now | ]. intros now.
  apply touches_bind; [apply touches_Date_offset | ]. intros offset. apply touches_ret.
Qed.

Lemma touches_getDataStatistics : touches_only store_keys getDataStatistics.
Proof.
  unfold getDataStatistics. apply touches_bind; [apply touches_loadSessions | ].
  intros l. apply touches_ret.
Qed.

Lemma touches_validate_rows (rows : list (gmap string string)) (index : Z)
    (st : ImportState) :
  touches_only store_keys (validate_rows index rows st).
Proof.
  revert index st. induction rows as [|row rows IH]; intros index st; cbn [validate_rows].
  - apply touches_ret.
  - apply touches_bind; [ | intros st'; apply IH].
    unfold validate_row.
    apply touches_bind.
    + destruct (JSString.trim <$> row !! "id") as [[|c sid]|];
        try apply touches_ret;
        (apply touches_bind; [apply touches_generateId | intros fresh; apply touches_ret]).
    + intros [sessionId generatedIds]. apply touches_bind.
      * destruct (bool_decide _); [ | apply touches_ret].
        apply touches_bind; [apply touches_generateId | intros fresh; apply touches_ret].
      * intros [[sessionId' generatedIds'] errors]. apply touches_ret.
Qed.

Lemma touches_validateCSVFile (Papa_parse : string -> PapaResults) (file : File.t) :
  touches_only store_keys (validateCSVFile Papa_parse file).
Proof.
  unfold validateCSVFile. destruct (MAX_FILE_SIZE <? _); [apply touches_throw | ].
  destruct (negb _ && _); [apply touches_throw | ].
  destruct (File.text file) as [csvContent|]; [ | apply touches_throw].
  apply touches_try_catch; [ | intros e; apply touches_throw].
  unfold complete. apply touches_bind.
  - destruct (_ =? 0); [apply touches_validate_rows | apply touches_ret].
  - intros st. apply touches_bind; [apply touches_loadSessions | ]. intros existing.
    apply touches_bind; [apply touches_lift | ]. intros d. apply touches_ret.
Qed.

Lemma touches_getStorageMetadata : touches_only [] getStorageMetadata.
Proof. unfold getStorageMetadata. touches. Qed.

(** X24: the operations of the store change the storage at three keys
    only: the envelope, the legacy array and the probe key of the
    availability test.  Every other key of the medium keeps its value,
    whether the operation returns or throws. *)
Theorem store_touches_its_keys_only
    (Papa_parse : string -> PapaResults) (sessions : list object) (session : object)
    (replaceExisting skipDuplicates : bool) (file : File.t) :
  touches_only store_keys loadSessions
  /\ touches_only store_keys (saveSessions sessions)
  /\ touches_only store_keys (addSession session)
  /\ touches_only store_keys (importSessions sessions replaceExisting skipDuplicates)
  /\ touches_only store_keys clearAllData
  /\ touches_only store_keys getStorageMetadata
  /\ touches_only store_keys getSessionStats
  /\ touches_only store_keys getDataStatistics
  /\ touches_only store_keys (validateCSVFile Papa_parse file).
Proof.
  split; [apply touches_loadSessions | ].
  split; [apply touches_store_saveSessions | ].
  split; [apply touches_addSession | ].
  split; [apply touches_importSessions | ].
  split; [apply touches_clearAllData | ].
  split; [eapply touches_more; [ | apply touches_getStorageMetadata]; intros k [] | ].
  split; [apply touches_getSessionStats | ].
  split; [apply touches_getDataStatistics | ].
  apply touches_validateCSVFile.
Qed.

(** ** Loading again, and the duplicate rule *)

Lemma prop_truthy (v : jsval) (k : string) :
  JS.truthy v = true -> exists x, JS.prop v k = Return x.
Proof. destruct v; try discriminate; simpl; eauto. Qed.

(** X25: a load of a readable envelope can be repeated: it leaves the
    envelope as it is, and a second load returns the same records as the
    first. *)
Theorem load_is_repeatable
    (w : World) (metadata : jsval) (items : list jsval) (revived : list object) :
  available w ->
  holds_envelope w metadata items ->
  map_throwing revive items = Return revived ->
  exists w1 w2,
    loadSessions w = (Return (accepted revived), w1)
    /\ loadSessions w1 = (Return (accepted revived), w2)
    /\ storage w2 !! STORAGE_KEY = storage w !! STORAGE_KEY
    /\ storage w2 !! LEGACY_SESSIONS_KEY = storage w !! LEGACY_SESSIONS_KEY.
Proof.
  intros Ha [stored [data [Hs [Hparse [Hmeta [Htruthy Hsessions]]]]]] Hrev.
  destruct (prop_truthy metadata "dataChecksum" Htruthy) as [dataChecksum Hsum].
  pose proof (loadSessions_stored w stored data metadata dataChecksum items revived
                Ha Hs Hparse Hmeta Htruthy Hsessions Hrev Hsum) as Hload.
  eexists. eexists. split; [exact Hload | ].
  match type of Hload with _ = (_, ?w1) =>
    assert (Ha1 : available w1) by (apply (available_probed w Ha));
    assert (Hs1 : storage w1 !! STORAGE_KEY = Some stored)
      by (change (storage w1) with (storage (probed w));
          rewrite probed_lookup by discriminate; exact Hs);
    pose proof (loadSessions_stored w1 stored data metadata dataChecksum items revived
                  Ha1 Hs1 Hparse Hmeta Htruthy Hsessions Hrev Hsum) as Hload1
  end.
  split; [exact Hload1 | ].
  cbn [storage with_logs]. rewrite !probed_lookup by discriminate.
  cbn [storage with_logs]. rewrite !probed_lookup by discriminate. split; reflexivity.
Qed.

Lemma load_is_repeatable_witness :
  let w := Examples.stats_world in
  exists loaded w1 w2,
    loadSessions w = (Return loaded, w1)
    /\ loadSessions w1 = (Return loaded, w2)
    /\ List.length loaded = 4%nat.
Proof.
  intros w.
  pose (items := match JSON.parse (envelope_text Examples.t0 Examples.stats_sessions) with
                 | Return data => match JS.prop data "sessions" with
                                  | Return (VArr items) => items
                                  | _ => []
                                  end
                 | Throw _ => []
                 end).
  pose (revived := match map_throwing revive items with Return l => l | Throw _ => [] end).
  destruct (load_is_repeatable w
              (VObj (JS.spread (toJSON (VObj (metadata_object Examples.t0
                                                Examples.stats_sessions)))))
              items revived)
    as [w1 [w2 [H1 [H2 _]]]].
  - reflexivity.
  - eexists. eexists. split; [reflexivity | ].
    split; [vm_compute; reflexivity | ]. split; [vm_compute; reflexivity | ].
    split; [reflexivity | vm_compute; reflexivity].
  - vm_compute. reflexivity.
  - exists (accepted revived), w1, w2. split; [exact H1 | ]. split; [exact H2 | ].
    vm_compute. reflexivity.
Defined.

Lemma same_event_sym (a b : Session) : same_event a b = same_event b a.
Proof.
  unfold same_event. rewrite String.eqb_sym. f_equal.
  unfold within_minute. destruct (startTime a), (startTime b); try reflexivity.
  f_equal. lia.
Qed.

(** X26: the duplicate rule is symmetric: a session is a duplicate of
    another exactly when the other is a duplicate of it.  It is not
    transitive: of three sessions of one subject that start 45 seconds
    apart, the first and the last are not duplicates of each other. *)
Theorem duplicate_rule_symmetric (a b : Session) :
  is_duplicate_of (Session_object a) (Session_object b)
  = is_duplicate_of (Session_object b) (Session_object a)
  /\ is_duplicate_of (Session_object Examples.math_0s) (Session_object Examples.math_45s)
     = Return true
  /\ is_duplicate_of (Session_object Examples.math_45s) (Session_object Examples.math_90s)
     = Return true
  /\ is_duplicate_of (Session_object Examples.math_0s) (Session_object Examples.math_90s)
     = Return false.
Proof.
  split; [rewrite !is_duplicate_of_Session, same_event_sym; reflexivity | ].
  rewrite !is_duplicate_of_Session. repeat split.
Qed.

(** ** From the legacy store to the enhanced store *)

Lemma probed_storage (w : World) : storage (probed w) = delete test_key (storage w).
Proof. unfold probed. cbn [storage with_storage]. apply delete_insert_eq. Qed.

Lemma parse_legacy (objects : list object) :
  Forall serializable (map VObj objects) ->
  JSON.parse (JSON.stringify_array (map VObj objects))
  = Return (VArr (map toJSON (map VObj objects))).
Proof.
  intros Hser.
  rewrite (parse_stringify (VArr (map VObj objects))
             (JSON.stringify_array (map VObj objects))).
  - reflexivity.
  - apply serializable_VArr. exact Hser.
  - unfold JSON.stringify_array. rewrite stringify_VArr. reflexivity.
Qed.

(** X27: sessions that the legacy store saved are taken over by the first
    load of the enhanced store.  For acceptable sessions with finite
    durations, on a medium with room for both texts, the load returns as
    many records, in the same order and with the same fields, writes them
    as the envelope and deletes the legacy array. *)
Theorem legacy_sessions_are_migrated (sessions : list Session) (w : World) :
  let objects := map Session_object sessions in
  let legacy := JSON.stringify_array (map VObj objects) in
  sessions <> [] ->
  Forall (fun s => acceptable (Session_object s)) sessions ->
  Forall (fun s => is_finite (duration s) = true) sessions ->
  storage w !! STORAGE_KEY = None ->
  localStorage.fits (quota w) (<[LEGACY_SESSIONS_KEY := legacy]> (storage w)) = true ->
  localStorage.fits (quota w)
    (<[test_key := test_key]> (<[LEGACY_SESSIONS_KEY := legacy]> (storage w))) = true ->
  localStorage.fits (quota w)
    (<[STORAGE_KEY := envelope_text (clock w) (map reloaded sessions)]> (storage w))
  = true ->
  exists w1 w2 loaded,
    Legacy.saveSessions objects w = (Return tt, w1)
    /\ loadSessions w1 = (Return loaded, w2)
    /\ Forall2 same_fields loaded sessions
    /\ storage w2 !! STORAGE_KEY = Some (envelope_text (clock w) loaded)
    /\ storage w2 !! LEGACY_SESSIONS_KEY = None.
Proof.
  intros objects legacy Hne Hacc Hfin Hnone Hfit Hprobe Henv.
  assert (Hpass : Forall (fun s => passes (Session_object s) = true) sessions).
  { eapply List.Forall_impl; [ | exact Hacc]. intros s Hs.
    rewrite <- is_acceptable_passes. apply is_acceptable_true. exact Hs. }
  destruct (revive_all_saved sessions Hpass Hfin) as [Hrevive [Haccepted [Hfields Hser]]].
  set (w1 := with_storage w (<[LEGACY_SESSIONS_KEY := legacy]> (storage w))
               (SetItem LEGACY_SESSIONS_KEY legacy)).
  assert (Hsave : Legacy.saveSessions objects w = (Return tt, w1)).
  { unfold Legacy.saveSessions, localStorage.setItem. fold legacy.
    change Legacy.SESSIONS_KEY with LEGACY_SESSIONS_KEY. rewrite Hfit. reflexivity. }
  assert (Ha1 : available w1) by exact Hprobe.
  destruct (loadSessions_migrates w1 legacy (map toJSON (map VObj objects))
              (map reloaded sessions))
    as [w2 [Hload [_ [Hgone Hstored]]]].
  - apply lookup_insert_eq.
  - apply parse_legacy. exact Hser.
  - exact Hrevive.
  - exact Ha1.
  - cbn [storage with_storage w1]. rewrite lookup_insert_ne by discriminate. exact Hnone.
  - rewrite Haccepted. destruct sessions; [congruence | discriminate].
  - unfold available, migrated_world. cbn [storage quota with_storage with_logs].
    apply fits_delete. apply (available_probed w1 Ha1).
  - unfold accepts, migrated_world. rewrite probed_storage.
    cbn [storage quota with_storage with_logs]. rewrite probed_storage.
    cbn [storage quota with_storage with_logs w1].
    apply fits_delete.
    rewrite (delete_delete _ LEGACY_SESSIONS_KEY test_key), delete_insert_eq.
    do 2 apply fits_delete. rewrite Haccepted. exact Henv.
  - rewrite Haccepted in *. exists w1, w2, (map reloaded sessions).
    split; [exact Hsave | ]. split; [exact Hload | ]. split; [exact Hfields | ].
    split; [exact Hstored | exact Hgone].
Qed.

Lemma legacy_sessions_are_migrated_witness :
  exists w1 w2 loaded,
    Legacy.saveSessions [Session_object Examples.math_0s] Examples.empty_world
    = (Return tt, w1)
    /\ loadSessions w1 = (Return [loaded], w2)
    /\ same_fields loaded Examples.math_0s
    /\ storage w2 !! LEGACY_SESSIONS_KEY = None.
Proof.
  destruct (legacy_sessions_are_migrated [Examples.math_0s] Examples.empty_world)
    as [w1 [w2 [loaded [Hsave [Hload [Hfields [_ Hgone]]]]]]].
  - discriminate.
  - constructor; [vm_compute; reflexivity | constructor].
  - constructor; [reflexivity | constructor].
  - reflexivity.
  - reflexivity.
  - reflexivity.
  - reflexivity.
  - inversion Hfields as [|x s l l' Hx Hrest]; subst. inversion Hrest; subst.
    exists w1, w2, x. split; [exact Hsave | ]. split; [exact Hload | ].
    split; [exact Hx | exact Hgone].
Defined.

(** ** The export *)





Section ExportData.

Variable Papa_unparse : list object -> list string -> string.


End ExportData.

(** ** Adding a session and loading again *)

Lemma toString_canon (n : number) : Number.toString (Number.canon n) = Number.toString n.
Proof. unfold Number.toString. rewrite canon_idem. reflexivity. Qed.

Lemma number_text_canon (n : number) :
  JSON.number_text (Number.canon n) = JSON.number_text n.
Proof.
  destruct n as [| |m d]; try reflexivity.
  unfold JSON.number_text.
  assert (H : exists m' d', Number.canon (Finite m d) = Finite m' d').
  { simpl. destruct (Number.normalize m d). eauto. }
  destruct H as [m' [d' H]]. rewrite <- (toString_canon (Finite m d)), H. reflexivity.
Qed.

Lemma stringify_reloaded (s : Session) :
  JSON.stringify (VObj (reloaded s)) = JSON.stringify (VObj (Session_object s)).
Proof.
  rewrite !stringify_VObj. do 3 f_equal.
  destruct s as [sid ssubject dur start [e|] done]; unfold reloaded, Session_object;
    cbn [id subject duration startTime endTime completed app
         defined List.filter snd fst is_undefined negb map];
    unfold member_text; cbn [fst snd]; unfold text_of at 3 9; cbn [JSON.stringify default];
    rewrite number_text_canon; reflexivity.
Qed.

Lemma text_of_reloaded (sessions : list Session) (extra : list object) :
  map text_of (map VObj (map reloaded sessions ++ extra))
  = map text_of (map VObj (map Session_object sessions ++ extra)).
Proof.
  rewrite !map_app. f_equal. induction sessions as [|s l IH]; [reflexivity | ].
  cbn [map]. rewrite IH. f_equal. unfold text_of. rewrite stringify_reloaded. reflexivity.
Qed.

Lemma envelope_text_reloaded (now : Z) (sessions : list Session) (extra : list object) :
  envelope_text now (map reloaded sessions ++ extra)
  = envelope_text now (map Session_object sessions ++ extra).
Proof.
  assert (Harray : JSON.stringify (VArr (map VObj (map reloaded sessions ++ extra)))
                   = JSON.stringify (VArr (map VObj (map Session_object sessions ++ extra)))).
  { rewrite !stringify_VArr, text_of_reloaded. reflexivity. }
  unfold envelope_text, JSON.stringify_object, storageData_object, metadata_object.
  unfold JSON.stringify_array. rewrite Harray.
  rewrite !stringify_VObj. do 4 f_equal.
  cbn [defined List.filter snd fst is_undefined negb map].
  unfold member_text. cbn [fst snd].
  assert (Ht : text_of (VArr (map VObj (map reloaded sessions ++ extra)))
               = text_of (VArr (map VObj (map Session_object sessions ++ extra))))
    by (unfold text_of; rewrite Harray; reflexivity).
  rewrite Ht.
  replace (List.length (map reloaded sessions ++ extra))
    with (List.length (map Session_object sessions ++ extra))
    by (rewrite !length_app, !length_map; reflexivity).
  reflexivity.
Qed.

Lemma loadSessions_saved (sessions : list Session) (w : World) (now : Z) :
  Forall (fun s => passes (Session_object s) = true) sessions ->
  Forall (fun s => is_finite (duration s) = true) sessions ->
  available w ->
  storage w !! STORAGE_KEY = Some (envelope_text now (map Session_object sessions)) ->
  exists w',
    loadSessions w = (Return (map reloaded sessions), w')
    /\ storage w' = storage (probed w) /\ quota w' = quota w /\ clock w' = clock w.
Proof.
  intros Hpass Hfin Ha Hs.
  destruct (revive_all_saved sessions Hpass Hfin) as [Hrevive [Haccepted [_ Hser]]].
  set (objects := map Session_object sessions) in *.
  pose proof (parse_envelope now objects Hser) as Hparse.
  eexists. split; [ | split; [ | split]].
  - rewrite <- Haccepted.
    apply (loadSessions_stored w (envelope_text now objects)
             (VObj [("metadata", toJSON (VObj (metadata_object now objects)));
                    ("sessions", VArr (map toJSON (map VObj objects)))])
             (toJSON (VObj (metadata_object now objects)))
             (VStr (generateChecksum (JSON.stringify_array (map VObj objects))))
             (map toJSON (map VObj objects)) (map reloaded sessions)).
    + exact Ha.
    + exact Hs.
    + exact Hparse.
    + reflexivity.
    + rewrite toJSON_VObj. reflexivity.
    + reflexivity.
    + exact Hrevive.
    + rewrite toJSON_VObj. reflexivity.
  - reflexivity.
  - reflexivity.
  - reflexivity.
Qed.

(** X29: a session that [addSession] accepts is there on the next load,
    behind the sessions that were stored.  For a store that holds the
    envelope of acceptable sessions with finite durations, on an available
    medium that accepts the write of the new envelope and, with the new
    envelope stored, the probe write with which the next load starts,
    [addSession] then [loadSessions] return the stored sessions followed by
    the new one, each with its [id], [subject], [duration], [completed],
    [startTime] and [endTime]. *)
Theorem addSession_then_load (sessions : list Session) (s : Session) (w : World) (now : Z) :
  let text := envelope_text (clock w) (map Session_object (sessions ++ [s])) in
  Forall (fun s => acceptable (Session_object s)) (sessions ++ [s]) ->
  Forall (fun s => is_finite (duration s) = true) (sessions ++ [s]) ->
  available w ->
  storage w !! STORAGE_KEY = Some (envelope_text now (map Session_object sessions)) ->
  localStorage.fits (quota w) (saved w text) = true ->
  localStorage.fits (quota w) (<[test_key := test_key]> (saved w text)) = true ->
  exists w1 w2 loaded,
    addSession (Session_object s) w = (Return tt, w1)
    /\ loadSessions w1 = (Return loaded, w2)
    /\ Forall2 same_fields loaded (sessions ++ [s]).
Proof.
  intros text Hacc Hfin Ha Hs Hfit Hprobe.
  assert (Hpass : Forall (fun s => passes (Session_object s) = true) (sessions ++ [s])).
  { eapply List.Forall_impl; [ | exact Hacc]. intros x Hx.
    rewrite <- is_acceptable_passes. apply is_acceptable_true. exact Hx. }
  destruct (revive_all_saved (sessions ++ [s]) Hpass Hfin) as [_ [Haccepted [Hfields _]]].
  pose proof Hpass as Hpass'. pose proof Hfin as Hfin'. pose proof Hacc as Hacc'.
  apply Forall_app in Hpass'. destruct Hpass' as [Hpass1 _].
  apply Forall_app in Hfin'. destruct Hfin' as [Hfin1 _].
  apply Forall_app in Hacc'. destruct Hacc' as [_ Hacc_s].
  inversion Hacc_s as [|? ? Hs_ok _]; subst. clear Hacc_s.
  destruct (loadSessions_saved sessions w now Hpass1 Hfin1 Ha Hs)
    as [wa [Hload [Hsta [Hqa Hca]]]].
  assert (Hprobed : storage (probed wa) = storage (probed w)).
  { rewrite !probed_storage, Hsta, probed_storage. apply delete_delete_eq. }
  assert (Htext : envelope_text (clock wa) (map reloaded sessions ++ [Session_object s])
                  = text).
  { rewrite envelope_text_reloaded, Hca. unfold text. rewrite map_app. reflexivity. }
  assert (Hall : Forall acceptable (map reloaded sessions ++ [Session_object s])).
  { apply Forall_app. split; [ | constructor; [exact Hs_ok | constructor]].
    eapply loadSessions_acceptable. exact Hload. }
  destruct (saveSessions_valid (map reloaded sessions ++ [Session_object s]) wa)
    as [w1 [Hsave [Hst1 [_ [Hq1 _]]]]].
  - unfold available. rewrite Hsta, Hqa. apply (available_probed w Ha).
  - exact Hall.
  - unfold accepts. rewrite Htext, Hprobed, Hqa. exact Hfit.
  - rewrite Htext, Hprobed in Hst1.
    destruct (loadSessions_saved (sessions ++ [s]) w1 (clock w) Hpass Hfin)
      as [w2 [Hload2 _]].
    + unfold available. rewrite Hst1, Hq1, Hqa. exact Hprobe.
    + rewrite Hst1. apply lookup_insert_eq.
    + exists w1, w2, (map reloaded (sessions ++ [s])).
      split; [ | split; [exact Hload2 | exact Hfields]].
      unfold addSession. apply is_acceptable_true in Hs_ok. unfold is_acceptable in Hs_ok.
      destruct (blocking (validateSession (Session_object s) None false)); [ | discriminate].
      change (0 <? Z.of_nat (List.length (@nil ValidationError))) with false.
      cbv beta iota. rewrite (bind_Return _ _ w _ wa Hload). exact Hsave.
Qed.

Lemma addSession_then_load_witness :
  exists w1 w2 loaded,
    addSession (Session_object (Examples.session_at "p" "Physics" 50 Examples.t0))
      Examples.stored_world
    = (Return tt, w1)
    /\ loadSessions w1 = (Return loaded, w2)
    /\ Forall2 same_fields loaded
         [Examples.math_0s; Examples.session_at "p" "Physics" 50 Examples.t0].
Proof.
  apply (addSession_then_load [Examples.math_0s]
           (Examples.session_at "p" "Physics" 50 Examples.t0) Examples.stored_world
           Examples.t0).
  - repeat constructor.
  - repeat constructor.
  - vm_compute. reflexivity.
  - reflexivity.
  - vm_compute. reflexivity.
  - vm_compute. reflexivity.
Defined.

(** ** From the preview to the import *)

Lemma saveSessions_outcome (sessions : list object) (w : World) :
  Forall acceptable sessions ->
  exists w',
    saveSessions sessions w = (Return tt, w')
    \/ saveSessions sessions w = (Throw (new_Error "localStorage not available"), w')
    \/ saveSessions sessions w
       = (Throw (new_Error "Storage quota exceeded. Please export and clear old data."), w').
Proof.
  intros Hacc.
  destruct (localStorage.fits (quota w) (<[test_key := test_key]> (storage w))) eqn:Ha.
  - destruct (localStorage.fits (quota w)
                (<[STORAGE_KEY := envelope_text (clock w) sessions]> (storage (probed w))))
      eqn:Hfit.
    + destruct (saveSessions_valid sessions w Ha Hacc Hfit) as [w' [Hsave _]].
      exists w'. left. exact Hsave.
    + destruct (saveSessions_refused sessions w Ha Hacc) as [w' [Hsave _]].
      { unfold accepts. rewrite Hfit. discriminate. }
      exists w'. right. right. exact Hsave.
  - exists w. right. left. apply saveSessions_unavailable.
    unfold available. rewrite Ha. discriminate.
Qed.

Lemma renamed_well_typed (existing sessions added : list object) :
  Forall well_typed sessions ->
  Forall2 (renamed existing) sessions added ->
  Forall well_typed added.
Proof.
  intros Htyped Hren. induction Hren as [|s a l l' Hsa _ IH]; [constructor | ].
  inversion Htyped as [|? ? Hs Hl]; subst. constructor; [ | apply IH; assumption].
  unfold renamed in Hsa. destruct (Set_has _ _).
  - destruct Hsa as [suffix ->]. apply well_typed_renamed; [assumption | ].
    apply generated_nonempty.
  - subst a. assumption.
Qed.

Lemma importSessions_outcome
    (sessions : list object) (replaceExisting skipDuplicates : bool) (w : World) :
  Forall well_typed sessions ->
  exists w',
    importSessions sessions replaceExisting skipDuplicates w = (Return tt, w')
    \/ importSessions sessions replaceExisting skipDuplicates w
       = (Throw (new_Error "localStorage not available"), w')
    \/ importSessions sessions replaceExisting skipDuplicates w
       = (Throw (new_Error "Storage quota exceeded. Please export and clear old data."), w').
Proof.
  intros Htyped. unfold importSessions.
  assert (Hacc : Forall acceptable sessions).
  { eapply List.Forall_impl; [ | exact Htyped]. apply well_typed_acceptable. }
  destruct replaceExisting; [apply saveSessions_outcome; exact Hacc | ].
  destruct (loadSessions_returns w) as [existing [w1 Hload]].
  pose proof (loadSessions_well_typed _ _ _ Hload) as Hexisting.
  rewrite (bind_Return _ _ w existing w1 Hload).
  assert (Hsave : forall added w2,
            Forall well_typed added ->
            exists w',
              saveSessions (existing ++ added) w2 = (Return tt, w')
              \/ saveSessions (existing ++ added) w2
                 = (Throw (new_Error "localStorage not available"), w')
              \/ saveSessions (existing ++ added) w2
                 = (Throw (new_Error
                             "Storage quota exceeded. Please export and clear old data."),
                    w')).
  { intros added w2 Hadded. apply saveSessions_outcome. apply Forall_app. split.
    - eapply List.Forall_impl; [ | exact Hexisting]. apply well_typed_acceptable.
    - eapply List.Forall_impl; [ | exact Hadded]. apply well_typed_acceptable. }
  destruct skipDuplicates.
  - destruct (findDuplicates_imported sessions existing Htyped Hexisting)
      as [found [Hfound _]].
    unfold lift. unfold mbind at 1, M_bind at 1, bind at 1.
    unfold mbind at 1, M_bind at 1, bind at 1. rewrite Hfound.
    apply Hsave. apply List.Forall_forall. intros s Hs. apply List.filter_In in Hs.
    rewrite List.Forall_forall in Htyped. apply Htyped. tauto.
  - destruct (map_M_renamed existing sessions w1) as [added [w2 [Hmap [Hren _]]]].
    rewrite (bind_Return _ _ w1 added w2 Hmap).
    apply Hsave. apply (renamed_well_typed existing sessions); assumption.
Qed.

(** X30: the records of a preview can be imported.  For an admissible
    file that can be read, [importSessions] of the records that
    [validateCSVFile] previews, in any of its modes, never fails the
    validation of the save: it returns, or it throws because the medium is
    not available or has no room. *)
Theorem preview_can_be_imported
    (Papa_parse : string -> PapaResults) (file : File.t) (csvContent : string)
    (replaceExisting skipDuplicates : bool) (w : World) :
  admissible file ->
  File.text file = Some csvContent ->
  exists preview w1 w2,
    validateCSVFile Papa_parse file w = (Return preview, w1)
    /\ (importSessions (sampleData preview) replaceExisting skipDuplicates w1
        = (Return tt, w2)
        \/ importSessions (sampleData preview) replaceExisting skipDuplicates w1
           = (Throw (new_Error "localStorage not available"), w2)
        \/ importSessions (sampleData preview) replaceExisting skipDuplicates w1
           = (Throw (new_Error
                       "Storage quota exceeded. Please export and clear old data."),
              w2)).
Proof.
  intros [Hsize Hkind] Htext.
  destruct (complete_returns (Papa_parse csvContent) w)
    as [preview [w1 [Hrun [_ [_ [_ [_ [Htyped _]]]]]]]].
  destruct (importSessions_outcome (sampleData preview) replaceExisting skipDuplicates w1
              Htyped) as [w2 Himport].
  exists preview, w1, w2. split; [ | exact Himport].
  unfold validateCSVFile.
  assert (Hs : (MAX_FILE_SIZE <? File.size file) = false) by (apply Z.ltb_ge; assumption).
  rewrite Hs.
  assert (Hk : negb (JSString.endsWith (JSString.toLowerCase (File.name file)) ".csv")
               && negb (String.eqb (File.type file) "text/csv") = false).
  { destruct Hkind as [-> | ->]; [reflexivity | ]. apply andb_false_r. }
  rewrite Hk, Htext. unfold try_catch. rewrite Hrun. reflexivity.
Qed.

Lemma preview_can_be_imported_witness :
  exists preview w1 w2,
    validateCSVFile Examples.parsed_three_rows Examples.csv_three_rows Examples.empty_world
    = (Return preview, w1)
    /\ importSessions (sampleData preview) true true w1 = (Return tt, w2)
    /\ List.length (sampleData preview) = 2%nat.
Proof.
  destruct (preview_can_be_imported Examples.parsed_three_rows Examples.csv_three_rows
              "id,subject,duration,startTime,completed" true true Examples.empty_world)
    as [preview [w1 [w2 [Hrun Himport]]]].
  - split; [vm_compute; discriminate | left; vm_compute; reflexivity].
  - reflexivity.
  - assert (H : validateCSVFile Examples.parsed_three_rows Examples.csv_three_rows
                  Examples.empty_world
                = (Return preview, w1)) by exact Hrun.
    vm_compute in H. injection H as Hp Hw. rewrite <- Hp, <- Hw in Himport.
    exists preview, w1, w2. split; [exact Hrun | ].
    rewrite <- Hp, <- Hw. split; [ | reflexivity].
    destruct Himport as [Hi | [Hi | Hi]]; [exact Hi | | ];
      vm_compute in Hi; discriminate Hi.
Defined.
